(** * Conversational memory of the chat bot: model and verified properties

    The development embeds the memory-management core of the server
    ([estimateTokens], [saveMessage], [getMessageCount], [getRecentHistory],
    [getLongTermMemory], [generateSummary], [buildContext], the [/api/chat]
    and [/api/search] handlers) together with the file-backed vector store
    it runs on ([simpleEmbedding], [cosineSimilarity], the prepared
    statements of [db], [semanticSearch]).

    Modelling conventions.
    - A JavaScript string is the list of its UTF-16 code units, the values
      [charCodeAt] returns.
    - Integers held in JS numbers (ids, timestamps, counts, flags) are [Z].
    - The floating-point kernels are written once over an interface
      [Number] and read at IEEE-754 binary64 (Rocq's primitive floats),
      which is what the program runs on. A second instance, over the
      reals, serves only to compare two formulas for the normalised
      histogram as expressions.
    - An embedding is an array of numbers or [undefined]: [getEmbedding]
      hands on what the endpoint sent without looking at it, and
      [cosineSimilarity] throws on [undefined].
    - The three in-memory tables of the store are one record, threaded
      through a state-and-exception monad; [saveData] rewrites the files
      from the tables after each mutation, so the tables are the state.
      The server requires the file-backed store; the in-memory store has
      the same statements on rows without an embedding, and the ChromaDB
      adapter hands them to an external database.
    - [Array.prototype.sort] is its ECMAScript contract: a stable sort by
      the comparator.
    - The outside world (the wall clock, the completion endpoint, the
      embeddings endpoint) is a record of oracles indexed by the number
      of earlier calls, so that any behaviour of the collaborators is some
      world.
    - Each request handler runs to completion before the next starts. *)

From Stdlib Require Import Floats.
From Stdlib Require Import ZArith NArith List Bool Lia Permutation Sorted.
From Stdlib Require String Ascii.
Import String.StringSyntax.
Delimit Scope string_scope with string.
From Stdlib Require Import Reals Lra.
Import ListNotations.

Set Implicit Arguments.

(* ================================================================== *)
(** * JavaScript strings *)

Module JsString.

(** UTF-16 code units. *)
Definition t := list N.

Definition eq_dec : forall a b : t, {a = b} + {a <> b} :=
  list_eq_dec N.eq_dec.

Definition eqb (a b : t) : bool := if eq_dec a b then true else false.

(** [Array.prototype.join] on strings. *)
Fixpoint join (sep : t) (parts : list t) : t :=
  match parts with
  | [] => []
  | [p] => p
  | p :: rest => p ++ sep ++ join sep rest
  end.

(** Source literals are written in UTF-8; [lit] turns such a literal
    into the code units the JavaScript engine holds. *)
Fixpoint code_points (bytes : list N) : list N :=
  match bytes with
  | [] => []
  | b0 :: r0 =>
    if (b0 <? 128)%N then b0 :: code_points r0
    else
      match r0 with
      | [] => []
      | b1 :: r1 =>
        if (b0 <? 224)%N then
          ((b0 mod 32) * 64 + b1 mod 64)%N :: code_points r1
        else
          match r1 with
          | [] => []
          | b2 :: r2 =>
            if (b0 <? 240)%N then
              (((b0 mod 16) * 64 + b1 mod 64) * 64 + b2 mod 64)%N
                :: code_points r2
            else
              match r2 with
              | [] => []
              | b3 :: r3 =>
                ((((b0 mod 8) * 64 + b1 mod 64) * 64 + b2 mod 64) * 64
                 + b3 mod 64)%N :: code_points r3
              end
          end
      end
  end.

Definition units_of_point (cp : N) : list N :=
  if (cp <? 65536)%N then [cp]
  else [(55296 + (cp - 65536) / 1024)%N; (56320 + (cp - 65536) mod 1024)%N].

Definition lit (s : String.string) : t :=
  flat_map units_of_point
    (code_points (map Ascii.N_of_ascii (String.list_ascii_of_string s))).

End JsString.

Arguments JsString.lit s%_string.

Abbreviation jsstring := JsString.t.

(* ================================================================== *)
(** * Exceptions *)

(** What a call comes to: the value it returns, or the [message] of the
    error it throws. *)
Inductive Outcome (A : Type) : Type :=
| Return (a : A)
| Throw (error : jsstring).

Arguments Throw {A} error.

(* ================================================================== *)
(** * JavaScript arrays *)

Module JsArray.

Section Sort.
Variable A : Type.

(** [after x y] is "the comparator called on (x, y) returns a positive
    number": [x] has to come after [y]. *)
Variable after : A -> A -> bool.

Fixpoint insert (x : A) (sorted : list A) : list A :=
  match sorted with
  | [] => [x]
  | y :: rest => if after x y then y :: insert x rest else x :: sorted
  end.

(** [Array.prototype.sort(comparator)]. ECMAScript requires the sort
    to be stable and, for a consistent comparator, the result to be
    ordered by it; that fixes the result, which this stable insertion
    sort computes. A comparator that returns NaN is not consistent: the
    engine reads NaN as "equal" and the order is left to it; the
    insertion sort then leaves elements it cannot order where they are. *)
Definition sort (l : list A) : list A := fold_right insert [] l.

(** [x] may come before [y]: the comparator does not put it after. *)
Definition may_precede (x y : A) : Prop := after x y = false.

(** The comparator orders [x] and [y] neither way. *)
Definition tie (x y : A) : bool := negb (after x y) && negb (after y x).
End Sort.

(** [Array.prototype.slice(0, limit)] for an integer [limit]: a negative
    [limit] counts from the end. *)
Definition slice0 (A : Type) (l : list A) (limit : Z) : list A :=
  let len := Z.of_nat (length l) in
  let final := if (limit <? 0)%Z then Z.max (len + limit) 0
               else Z.min limit len in
  firstn (Z.to_nat final) l.

(** [Array.prototype.map(f)] for a callback that may throw: the first
    error ends the loop and is the error of the call. *)
Fixpoint map_throwing (A B : Type) (f : A -> Outcome B) (l : list A)
  : Outcome (list B) :=
  match l with
  | [] => Return []
  | x :: rest =>
    match f x with
    | Throw e => Throw e
    | Return y =>
      match map_throwing f rest with
      | Throw e => Throw e
      | Return ys => Return (y :: ys)
      end
    end
  end.

End JsArray.

(* ================================================================== *)
(** * JavaScript numbers *)

(** The operations the numeric kernels use. [js_truthy] is the test
    behind [x || 1]; [js_pos] is the test [x > 0] that [sort] applies to a
    comparator's result; [js_nan] is what arithmetic on [undefined]
    (a read past the end of an array) yields. *)
Class Number (num : Type) : Type := {
  js_zero : num;
  js_one : num;
  js_nan : num;
  js_add : num -> num -> num;
  js_sub : num -> num -> num;
  js_mul : num -> num -> num;
  js_div : num -> num -> num;
  js_sqrt : num -> num;
  js_truthy : num -> bool;
  js_pos : num -> bool
}.

(** IEEE-754 binary64: the numbers of the running program. *)
#[export] Instance Float64 : Number PrimFloat.float := {
  js_zero := 0%float;
  js_one := 1%float;
  js_nan := PrimFloat.nan;
  js_add := PrimFloat.add;
  js_sub := PrimFloat.sub;
  js_mul := PrimFloat.mul;
  js_div := PrimFloat.div;
  js_sqrt := PrimFloat.sqrt;
  js_truthy := fun x => negb (PrimFloat.eqb x 0%float) && PrimFloat.eqb x x;
  js_pos := fun x => PrimFloat.ltb 0%float x
}.

(** Exact real arithmetic: the same kernels without rounding. This is
    not the arithmetic of the program. It serves to say that two ways
    of writing the normalised histogram agree as expressions over the
    reals, where binary64 can tell them apart by the order of the
    additions. The reals have no NaN. *)
#[export] Instance Exact : Number R := {
  js_zero := 0%R;
  js_one := 1%R;
  js_nan := 0%R;
  js_add := Rplus;
  js_sub := Rminus;
  js_mul := Rmult;
  js_div := Rdiv;
  js_sqrt := sqrt;
  js_truthy := fun x => if Req_dec_T x 0%R then false else true;
  js_pos := fun x => if Rlt_dec 0%R x then true else false
}.

(* ================================================================== *)
(** * Embeddings (vector-storage.js) *)

(** What [getEmbedding] returns and a row keeps as its embedding. The
    local fallback gives an array of numbers; [data.data[0].embedding]
    is handed on as the endpoint sent it. [Vector v] is a value that
    the loop of [cosineSimilarity] can index, [v] being its entries read
    as numbers: an array, and with it a string or a number, which the
    loop reads as the array of their entries. [Undefined] is a reply
    without the field, [Null] a reply whose field is [null]. An object
    with a [length] of its own is not modelled. *)
Inductive Embedded (num : Type) : Type :=
| Vector (v : list num)
| Undefined
| Null.

Arguments Undefined {num}.
Arguments Null {num}.

Module Embedding.

Section Kernels.
Context {num : Type} {NUM : Number num}.

Definition bump (v : num) : num := js_add v js_one.

(** [vector[i] += 1]; the index is in range at the only call site. *)
Fixpoint increment (i : nat) (vector : list num) : list num :=
  match vector, i with
  | [], _ => []
  | v :: rest, O => bump v :: rest
  | v :: rest, S j => v :: increment j rest
  end.

(** The body of the loop over the characters. *)
Definition step (vector : list num) (charCode : N) : list num :=
  increment (N.to_nat (charCode mod 128)) vector.

Definition histogram (text : jsstring) : list num :=
  fold_left step text (repeat js_zero 128).

Definition magnitude (vector : list num) : num :=
  js_sqrt (fold_left (fun sum val => js_add sum (js_mul val val))
             vector js_zero).

(** The divisor [magnitude || 1]. *)
Definition divisor (vector : list num) : num :=
  let m := magnitude vector in if js_truthy m then m else js_one.

Definition simpleEmbedding (text : jsstring) : list num :=
  let vector := histogram text in
  map (fun v => js_div v (divisor vector)) vector.

(** One pass of the loop body of [cosineSimilarity]. *)
Definition cosine_step (vecA vecB : list num)
           (acc : num * num * num) (i : nat) : num * num * num :=
  let '(dotProduct, normA, normB) := acc in
  let a := nth i vecA js_nan in
  let b := nth i vecB js_nan in
  (js_add dotProduct (js_mul a b),
   js_add normA (js_mul a a),
   js_add normB (js_mul b b)).

Definition cosineSimilarity (vecA vecB : list num) : num :=
  let '(dotProduct, normA, normB) :=
    fold_left (cosine_step vecA vecB) (seq 0 (length vecA))
              (js_zero, js_zero, js_zero) in
  js_div dotProduct (js_mul (js_sqrt normA) (js_sqrt normB)).

(** A value without properties, and how an error names it. *)
Definition missing (e : Embedded num) : Prop :=
  match e with
  | Vector _ => False
  | Undefined | Null => True
  end.

Definition name_of (e : Embedded num) : jsstring :=
  match e with
  | Null => JsString.lit "null"
  | _ => JsString.lit "undefined"
  end.

(** The messages of the [TypeError]s that reading [.length] and [[0]]
    of such a value throws. *)
Definition no_length (e : Embedded num) : jsstring :=
  JsString.lit "Cannot read properties of " ++ name_of e
  ++ JsString.lit " (reading 'length')".

Definition no_entry (e : Embedded num) : jsstring :=
  JsString.lit "Cannot read properties of " ++ name_of e
  ++ JsString.lit " (reading '0')".

(** [cosineSimilarity(vecA, vecB)] on what the store holds: the loop
    above on two arrays. [vecA.length] throws when [vecA] is [undefined]
    or [null]; [vecB[0]] throws when [vecB] is, in the first pass of the
    loop, which an empty [vecA] does not enter. *)
Definition cosineSimilarity_of (vecA vecB : Embedded num) : Outcome num :=
  match vecA with
  | Vector a =>
    match vecB with
    | Vector b => Return (cosineSimilarity a b)
    | _ =>
      match a with
      | [] => Return (cosineSimilarity [] [])
      | _ :: _ => Throw (no_entry vecB)
      end
    end
  | _ => Throw (no_length vecA)
  end.

(** The fallback as the specification words it: bucket [b] is
    incremented once per character whose code is [b] modulo 128; the
    vector is then divided by its Euclidean norm, and left as it is
    when the norm is zero. *)
Definition occurrences (b : nat) (text : jsstring) : nat :=
  count_occ Nat.eq_dec (map (fun c => N.to_nat (c mod 128)) text) b.

Definition histogram_spec (text : jsstring) : list num :=
  map (fun b => Nat.iter (occurrences b text) bump js_zero) (seq 0 128).

Definition norm_spec (vector : list num) : num :=
  js_sqrt (fold_right (fun v acc => js_add (js_mul v v) acc)
             js_zero vector).

Definition fallback_spec (text : jsstring) : list num :=
  let h := histogram_spec text in
  let n := norm_spec h in
  if js_truthy n then map (fun v => js_div v n) h else h.

(** The same with "character" and "code point" read as Unicode has
    them: one increment per code point of the text, in the bucket of the
    code point modulo 128. *)
Definition occurrences_of_points (b : nat) (points : list N) : nat :=
  count_occ Nat.eq_dec (map (fun cp => N.to_nat (cp mod 128)) points) b.

Definition fallback_by_code_point (points : list N) : list num :=
  let h := map (fun b => Nat.iter (occurrences_of_points b points)
                           bump js_zero)
               (seq 0 128) in
  let n := norm_spec h in
  if js_truthy n then map (fun v => js_div v n) h else h.
End Kernels.

End Embedding.

(* ================================================================== *)
(** * Configuration (config.js) *)

Module Config.
Definition MAX_SHORT_TERM_ROUNDS : Z := 6.
Definition SUMMARY_TRIGGER_ROUNDS : Z := 10.
Definition MAX_SHORT_TERM_TOKENS : Z := 2000.
End Config.

(* ================================================================== *)
(** * The tables of the store (vector-storage.js) *)

Inductive Role : Type := system | user | assistant.

Definition Role_eqb (a b : Role) : bool :=
  match a, b with
  | system, system | user, user | assistant, assistant => true
  | _, _ => false
  end.

(** A row of [messages]. *)
Record Message (num : Type) : Type := mkMessage {
  id : Z;
  session_id : jsstring;
  role : Role;
  content : jsstring;
  tokens : Z;
  timestamp : Z;
  is_summarized : Z;
  embedding : Embedded num
}.

(** A row of [memories]. *)
Record Memory (num : Type) : Type := mkMemory {
  mem_session_id : jsstring;
  summary : jsstring;
  created_at : Z;
  mem_embedding : Embedded num
}.

(** A value of the [sessions] map. *)
Record Session : Type := mkSession {
  ses_id : jsstring;
  createdAt : Z;
  updatedAt : Z
}.

(** The module-level variables [messages], [memories], [sessions] and
    [messageIdCounter]. [sessions] is a JS [Map]: keys in insertion
    order, one entry per key. *)
Record Store (num : Type) : Type := mkStore {
  messages : list (Message num);
  memories : list (Memory num);
  sessions : list (jsstring * Session);
  messageIdCounter : Z
}.

(** Row shapes the statements return, and the messages sent to the
    completion endpoint. *)
Record ChatMsg : Type := mkChatMsg {
  cm_role : Role;
  cm_content : jsstring
}.

Record IdRow : Type := mkIdRow {
  row_id : Z;
  row_role : Role;
  row_content : jsstring
}.

Record SummaryRow : Type := mkSummaryRow {
  row_summary : jsstring
}.

Record SearchHit (num : Type) : Type := mkSearchHit {
  hit_content : jsstring;
  hit_role : Role;
  similarity : num
}.

Module Db.
Section Statements.
Context {num : Type} {NUM : Number num}.

Local Abbreviation Store := (Store num).
Local Abbreviation Message := (Message num).

(** [initVectorDB]: [loadData] reads the three files into the tables.
    [messageIdCounter] was computed when the module was loaded, from a
    table that was still empty, so it is 1 whatever the files hold. *)
Definition load (saved_messages : list Message)
           (saved_memories : list (Memory num))
           (saved_sessions : list (jsstring * Session)) : Store :=
  mkStore saved_messages saved_memories saved_sessions 1.

(** [m.session_id === sessionId && m.is_summarized === 0] *)
Definition in_session (sessionId : jsstring) (m : Message) : bool :=
  JsString.eqb (session_id m) sessionId.

Definition unsummarized (sessionId : jsstring) (m : Message) : bool :=
  in_session sessionId m && (is_summarized m =? 0)%Z.

Definition has_session (sessionId : jsstring)
           (tbl : list (jsstring * Session)) : bool :=
  existsb (fun kv => JsString.eqb (fst kv) sessionId) tbl.

(** INSERT OR IGNORE INTO sessions *)
Definition insert_session (sessionId : jsstring) (created updated : Z)
           (st : Store) : Store :=
  if has_session sessionId (sessions st) then st
  else mkStore (messages st) (memories st)
         (sessions st ++ [(sessionId, mkSession sessionId created updated)])
         (messageIdCounter st).

(** INSERT INTO messages, once the embedding is there. *)
Definition insert_message (sessionId : jsstring) (r : Role)
           (text : jsstring) (tok ts : Z) (emb : Embedded num)
           (st : Store) : Store :=
  mkStore
    (messages st ++
       [mkMessage (messageIdCounter st) sessionId r text tok ts 0 emb])
    (memories st) (sessions st) (messageIdCounter st + 1).

(** UPDATE sessions SET updated_at *)
Definition touch (sessionId : jsstring) (updated : Z)
           (kv : jsstring * Session) : jsstring * Session :=
  if JsString.eqb (fst kv) sessionId
  then (fst kv, mkSession (ses_id (snd kv)) (createdAt (snd kv)) updated)
  else kv.

Definition update_session (updated : Z) (sessionId : jsstring)
           (st : Store) : Store :=
  mkStore (messages st) (memories st)
          (map (touch sessionId updated) (sessions st))
          (messageIdCounter st).

(** SELECT COUNT( * ) as count FROM messages *)
Definition count_messages (sessionId : jsstring) (st : Store) : Z :=
  Z.of_nat (length (filter (unsummarized sessionId) (messages st))).

(** SELECT role, content FROM messages ... ORDER BY timestamp DESC:
    the comparator is [(a, b) => b.timestamp - a.timestamp]. *)
Definition newest_first (a b : Message) : bool :=
  (timestamp b - timestamp a >? 0)%Z.

Definition recent_rows (sessionId : jsstring) (limit : Z) (st : Store)
  : list Message :=
  JsArray.slice0
    (JsArray.sort newest_first
       (filter (unsummarized sessionId) (messages st)))
    limit.

(** [m => ({ role: m.role, content: m.content })] *)
Definition role_content (m : Message) : ChatMsg :=
  mkChatMsg (role m) (content m).

Definition select_recent (sessionId : jsstring) (limit : Z) (st : Store)
  : list ChatMsg :=
  map role_content (recent_rows sessionId limit st).

(** SELECT summary FROM long_term_memory: the comparator is
    [(a, b) => a.created_at - b.created_at]. *)
Definition oldest_memory_first (a b : Memory num) : bool :=
  (created_at a - created_at b >? 0)%Z.

Definition memory_rows (sessionId : jsstring) (st : Store)
  : list (Memory num) :=
  JsArray.sort oldest_memory_first
    (filter (fun m => JsString.eqb (mem_session_id m) sessionId)
            (memories st)).

Definition select_summaries (sessionId : jsstring) (st : Store)
  : list SummaryRow :=
  map (fun m => mkSummaryRow (summary m)) (memory_rows sessionId st).

(** SELECT id, role, content FROM messages ... ORDER BY timestamp ASC:
    the comparator is [(a, b) => a.timestamp - b.timestamp]. *)
Definition oldest_first (a b : Message) : bool :=
  (timestamp a - timestamp b >? 0)%Z.

Definition unsummarized_rows (sessionId : jsstring) (st : Store)
  : list Message :=
  JsArray.sort oldest_first
    (filter (unsummarized sessionId) (messages st)).

Definition select_unsummarized (sessionId : jsstring) (st : Store)
  : list IdRow :=
  map (fun m => mkIdRow (id m) (role m) (content m))
      (unsummarized_rows sessionId st).

(** INSERT INTO long_term_memory, once the embedding is there. *)
Definition insert_memory (sessionId text : jsstring) (created : Z)
           (emb : Embedded num) (st : Store) : Store :=
  mkStore (messages st)
          (memories st ++ [mkMemory sessionId text created emb])
          (sessions st) (messageIdCounter st).

(** UPDATE messages SET is_summarized = 1 WHERE id = ?:
    [messages.find(m => m.id === id)] picks the first row with that
    id, and only that row is written. *)
Definition set_summarized (m : Message) : Message :=
  mkMessage (id m) (session_id m) (role m) (content m) (tokens m)
            (timestamp m) 1 (embedding m).

Fixpoint mark_first (i : Z) (rows : list Message) : list Message :=
  match rows with
  | [] => []
  | m :: rest =>
    if (id m =? i)%Z then set_summarized m :: rest
    else m :: mark_first i rest
  end.

Definition update_message (i : Z) (st : Store) : Store :=
  mkStore (mark_first i (messages st)) (memories st) (sessions st)
          (messageIdCounter st).

(** [db.transaction(fn)] calls [fn]: the loop
    [for (const id of ids) updateStmt.run(id)]. *)
Definition mark_summarized (ids : list Z) (st : Store) : Store :=
  fold_left (fun s i => update_message i s) ids st.

(** The ranking inside [semanticSearch], after the query has been
    embedded: the comparator is [(a, b) => b.similarity - a.similarity]. *)
Definition best_first (a b : SearchHit num) : bool :=
  js_pos (js_sub (similarity b) (similarity a)).

(** The callback of [sessionMessages.map]. *)
Definition score (queryEmbedding : Embedded num) (msg : Message)
  : Outcome (SearchHit num) :=
  match Embedding.cosineSimilarity_of queryEmbedding (embedding msg) with
  | Return x => Return (mkSearchHit (content msg) (role msg) x)
  | Throw e => Throw e
  end.

Definition rank (sessionId : jsstring) (queryEmbedding : Embedded num)
           (limit : Z) (st : Store) : Outcome (list (SearchHit num)) :=
  let sessionMessages := filter (in_session sessionId) (messages st) in
  match JsArray.map_throwing (score queryEmbedding) sessionMessages with
  | Return results =>
    Return (JsArray.slice0 (JsArray.sort best_first results) limit)
  | Throw e => Throw e
  end.
End Statements.
End Db.

(* ================================================================== *)
(** * The outside world and the machine *)

(** What a call of [callAPI] comes to: the reply's text, or the error it
    throws (a rejected [fetch], a response that is not ok, a body without
    [choices[0].message]). *)
Inductive Reply : Type :=
| Answer (text : jsstring)
| Failure (error : jsstring).

(** The collaborators. [now k] is the [k]-th reading of [Date.now()];
    [completion k request] is what the [k]-th call of [callAPI] comes to;
    [embeddings k text] is what the [k]-th call of the embeddings
    endpoint comes to: [None] when [fetch] rejects, the response is not
    ok, its body is not JSON or has no [data[0]]; otherwise the value of
    [data[0].embedding], unchecked. *)
Record World (num : Type) : Type := mkWorld {
  now : nat -> Z;
  completion : nat -> list ChatMsg -> Reply;
  embeddings : nat -> jsstring -> option (Embedded num)
}.

(** Lines written with [console.log] and [console.error]. *)
Inductive LogLine : Type :=
| Compressed (count : nat)
| SummaryFailed (error : jsstring)
| RequestFailed (error : jsstring)
| SearchFailed (error : jsstring).

Record Machine (num : Type) : Type := mkMachine {
  store : Store num;
  clock_reads : nat;
  completion_calls : nat;
  embedding_calls : nat;
  console : list LogLine
}.

Module Run.
Section Monad.
Context {num : Type} {NUM : Number num}.
Variable W : World num.

Definition M (A : Type) : Type := Machine num -> Outcome A * Machine num.

Definition ret {A} (a : A) : M A := fun m => (Return a, m).

Definition bind {A B} (c : M A) (k : A -> M B) : M B :=
  fun m => match c m with
           | (Return a, m') => k a m'
           | (Throw e, m') => (Throw e, m')
           end.

(** [try { c } catch (error) { h error }] *)
Definition try_catch {A} (c : M A) (h : jsstring -> M A) : M A :=
  fun m => match c m with
           | (Return a, m') => (Return a, m')
           | (Throw e, m') => h e m'
           end.

Definition query {A} (f : Store num -> A) : M A :=
  fun m => (Return (f (store m)), m).

Definition exec (f : Store num -> Store num) : M unit :=
  fun m => (Return tt,
            mkMachine (f (store m)) (clock_reads m) (completion_calls m)
                      (embedding_calls m) (console m)).

Definition log (line : LogLine) : M unit :=
  fun m => (Return tt,
            mkMachine (store m) (clock_reads m) (completion_calls m)
                      (embedding_calls m) (console m ++ [line])).

(** [Date.now()] *)
Definition Date_now : M Z :=
  fun m => (Return (now W (clock_reads m)),
            mkMachine (store m) (S (clock_reads m)) (completion_calls m)
                      (embedding_calls m) (console m)).

(** [callAPI(messages)] *)
Definition callAPI (request : list ChatMsg) : M jsstring :=
  fun m =>
    let m' := mkMachine (store m) (clock_reads m) (S (completion_calls m))
                        (embedding_calls m) (console m) in
    match completion W (completion_calls m) request with
    | Answer text => (Return text, m')
    | Failure e => (Throw e, m')
    end.

(** A computation on the tables that may throw. *)
Definition attempt {A} (f : Store num -> Outcome A) : M A :=
  fun m => (f (store m), m).

(** [getEmbedding(text)]: what the endpoint sent as [data[0].embedding],
    unchecked, or the local fallback on any failure; it never throws. *)
Definition embedding_of (k : nat) (text : jsstring) : Embedded num :=
  match embeddings W k text with
  | Some sent => sent
  | None => Vector (Embedding.simpleEmbedding text)
  end.

Definition getEmbedding (text : jsstring) : M (Embedded num) :=
  fun m =>
    (Return (embedding_of (embedding_calls m) text),
     mkMachine (store m) (clock_reads m) (completion_calls m)
               (S (embedding_calls m)) (console m)).
End Monad.
End Run.

Declare Scope run_scope.
Delimit Scope run_scope with run.
Notation "x <- c ;; k" := (Run.bind c (fun x => k))
  (at level 61, c at next level, right associativity) : run_scope.
Notation "c ;;; k" := (Run.bind c (fun _ => k))
  (at level 61, right associativity) : run_scope.

(* ================================================================== *)
(** * The server *)

(** Body of the reply of [/api/chat]: [res.json({reply, debug})] or
    [res.status(500).json({error})]. *)
Inductive ChatResponse : Type :=
| ChatOk (reply : jsstring) (totalMessages longTermMemory shortTermRounds : Z)
| ChatError (error : jsstring).

Inductive SearchResponse (num : Type) : Type :=
| SearchOk (results : list (SearchHit num))
| SearchError (error : jsstring).

Module Server.
Section Handlers.
Context {num : Type} {NUM : Number num}.
Variable W : World num.

Local Open Scope run_scope.
Local Abbreviation M := (@Run.M num).

Definition nl : jsstring := [10%N].

Definition SYSTEM_PROMPT : jsstring :=
  JsString.lit "你是一个友好、有记忆的助手。你能记住之前的对话内容，并根据历史信息提供连贯的回复。".

Definition SUMMARY_HEADER : jsstring :=
  JsString.lit "以下是之前对话的摘要信息：" ++ nl.

Definition SUMMARIZER_PROMPT : jsstring :=
  JsString.lit "你是一个对话摘要助手。请将对话内容压缩为简洁的摘要，保留关键信息。".

Definition SUMMARY_REQUEST (conversationText : jsstring) : jsstring :=
  JsString.lit "请总结以下对话，提取：" ++ nl
  ++ JsString.lit "1. 用户的基本信息（姓名、偏好、个人情况等）" ++ nl
  ++ JsString.lit "2. 讨论的主要话题" ++ nl
  ++ JsString.lit "3. 重要的决定或结论" ++ nl ++ nl
  ++ JsString.lit "对话内容：" ++ nl
  ++ conversationText ++ nl ++ nl
  ++ JsString.lit "请用简洁的中文总结：".

(** [text.match(/[\u4e00-\u9fa5]/g)]: the regular expression has no [u]
    flag, so it is tried on every code unit. *)
Definition is_chinese (c : N) : bool := (19968 <=? c)%N && (c <=? 40869)%N.

(** [Math.ceil(chineseChars / 1.5 + otherChars / 4)], which is the
    ceiling of [(8 * chineseChars + 3 * otherChars) / 12]. *)
Definition estimateTokens (text : jsstring) : Z :=
  let chineseChars := Z.of_nat (length (filter is_chinese text)) in
  let otherChars := (Z.of_nat (length text) - chineseChars)%Z in
  ((8 * chineseChars + 3 * otherChars + 11) / 12)%Z.

Definition ensureSession (sessionId : jsstring) : M unit :=
  t <- Run.Date_now W ;;
  Run.exec (Db.insert_session sessionId t t).

Definition saveMessage (sessionId : jsstring) (r : Role) (text : jsstring)
  : M unit :=
  t <- Run.Date_now W ;;
  let tok := estimateTokens text in
  emb <- Run.getEmbedding W text ;;
  Run.exec (Db.insert_message sessionId r text tok t emb) ;;;
  Run.exec (Db.update_session t sessionId).

Definition getMessageCount (sessionId : jsstring) (st : Store num) : Z :=
  Db.count_messages sessionId st.

Definition getRecentHistory (sessionId : jsstring) (limit : Z)
           (st : Store num) : list ChatMsg :=
  rev (Db.select_recent sessionId limit st).

Definition getLongTermMemory (sessionId : jsstring) (st : Store num)
  : list SummaryRow :=
  Db.select_summaries sessionId st.

Definition speaker (r : Role) : jsstring :=
  match r with
  | user => JsString.lit "用户"
  | _ => JsString.lit "助手"
  end.

Definition transcript (unsummarized : list IdRow) : jsstring :=
  JsString.join nl
    (map (fun msg => speaker (row_role msg) ++ JsString.lit ": "
                     ++ row_content msg)
         unsummarized).

Definition summaryMessages (unsummarized : list IdRow) : list ChatMsg :=
  [ mkChatMsg system SUMMARIZER_PROMPT;
    mkChatMsg user (SUMMARY_REQUEST (transcript unsummarized)) ].

(** The body of the [try] block of [generateSummary]. *)
Definition summarize (sessionId : jsstring) (unsummarized : list IdRow)
  : M unit :=
  text <- Run.callAPI W (summaryMessages unsummarized) ;;
  t <- Run.Date_now W ;;
  emb <- Run.getEmbedding W text ;;
  Run.exec (Db.insert_memory sessionId text t emb) ;;;
  Run.exec (Db.mark_summarized (map row_id unsummarized)) ;;;
  Run.log (Compressed (length unsummarized)).

Definition generateSummary (sessionId : jsstring) : M unit :=
  unsummarized <- Run.query (Db.select_unsummarized sessionId) ;;
  if (Z.of_nat (length unsummarized) <? 5)%Z then Run.ret tt
  else
    Run.try_catch (summarize sessionId unsummarized)
                  (fun error => Run.log (SummaryFailed error)).

Definition buildContext (sessionId : jsstring) (st : Store num)
  : list ChatMsg :=
  let messages := [mkChatMsg system SYSTEM_PROMPT] in
  let longTermMemory := getLongTermMemory sessionId st in
  let messages :=
    if (Z.of_nat (length longTermMemory) >? 0)%Z then
      let summaryText :=
        JsString.join (nl ++ nl) (map row_summary longTermMemory) in
      messages ++ [mkChatMsg system (SUMMARY_HEADER ++ summaryText)]
    else messages in
  let shortTermHistory :=
    getRecentHistory sessionId (Config.MAX_SHORT_TERM_ROUNDS * 2) st in
  messages ++ map (fun msg => mkChatMsg (cm_role msg) (cm_content msg))
                  shortTermHistory.

(** [messageCount > 0 && messageCount % config.SUMMARY_TRIGGER_ROUNDS === 0] *)
Definition summary_due (messageCount : Z) : bool :=
  (messageCount >? 0)%Z
  && (Z.rem messageCount Config.SUMMARY_TRIGGER_ROUNDS =? 0)%Z.

(** The handler from [buildContext] on. *)
Definition respond (sessionId : jsstring) (messageCount : Z)
  : M ChatResponse :=
  context <- Run.query (buildContext sessionId) ;;
  aiResponse <- Run.callAPI W context ;;
  saveMessage sessionId assistant aiResponse ;;;
  longTermCount <-
    Run.query (fun st => Z.of_nat (length (getLongTermMemory sessionId st))) ;;
  let shortTermRounds :=
    ((Z.of_nat (length context) - 1
      - (if (longTermCount >? 0)%Z then 1 else 0)) / 2)%Z in
  Run.ret (ChatOk aiResponse (messageCount + 1) longTermCount shortTermRounds).

(** The body of the [try] block of [app.post('/api/chat')]. *)
Definition chat_turn (message sessionId : jsstring) : M ChatResponse :=
  ensureSession sessionId ;;;
  saveMessage sessionId user message ;;;
  messageCount <- Run.query (getMessageCount sessionId) ;;
  (if summary_due messageCount then generateSummary sessionId
   else Run.ret tt) ;;;
  respond sessionId messageCount.

Definition default_session : jsstring := JsString.lit "default".

(** [app.post('/api/chat')]: [sessionId] defaults to ['default']. *)
Definition chat (message : jsstring) (sessionId : option jsstring)
  : M ChatResponse :=
  let sessionId := match sessionId with
                   | Some s => s
                   | None => default_session
                   end in
  Run.try_catch (chat_turn message sessionId)
    (fun error => Run.log (RequestFailed error) ;;; Run.ret (ChatError error)).

(** [semanticSearch(sessionId, query, limit)] *)
Definition semanticSearch (sessionId query : jsstring) (limit : Z)
  : M (list (SearchHit num)) :=
  queryEmbedding <- Run.getEmbedding W query ;;
  Run.attempt (Db.rank sessionId queryEmbedding limit).

(** [app.post('/api/search')]: [sessionId] defaults to ['default'],
    [limit] to 5. *)
Definition search (query : jsstring) (sessionId : option jsstring)
           (limit : option Z) : M (SearchResponse num) :=
  let sessionId := match sessionId with
                   | Some s => s
                   | None => default_session
                   end in
  let limit := match limit with Some n => n | None => 5%Z end in
  Run.try_catch
    (results <- semanticSearch sessionId query limit ;;
     Run.ret (SearchOk results))
    (fun error => Run.log (SearchFailed error) ;;;
                  Run.ret (SearchError num error)).

(** [n] requests to [/api/chat], one after the other. *)
Fixpoint chat_all (sessionId : jsstring) (inbox : list jsstring)
  : M (list ChatResponse) :=
  match inbox with
  | [] => Run.ret []
  | message :: later =>
    r <- chat message (Some sessionId) ;;
    rs <- chat_all sessionId later ;;
    Run.ret (r :: rs)
  end.
End Handlers.
End Server.

(** A machine that has just been started on empty files. *)
Definition boot {num : Type} : Machine num :=
  mkMachine (Db.load [] [] []) 0 0 0 [].

(* ================================================================== *)
(** * Notions the specification uses *)

Module Spec.
Section Notions.
Context {num : Type} {NUM : Number num}.

(** The messages of a session that are not summarized yet, in storage
    order. *)
Definition qualifying (sessionId : jsstring) (st : Store num)
  : list (Message num) :=
  filter (Db.unsummarized sessionId) (messages st).



(** What may happen to a stored message: nothing, or its flag is set. *)
Definition evolves (m m' : Message num) : Prop :=
  id m' = id m /\ session_id m' = session_id m /\ role m' = role m /\
  content m' = content m /\ tokens m' = tokens m /\
  timestamp m' = timestamp m /\ embedding m' = embedding m /\
  (is_summarized m' = is_summarized m \/ is_summarized m' = 1%Z).

(** What may happen to the table: rows evolve in place, rows are added
    at the end. *)
Definition history_evolves (before after : list (Message num)) : Prop :=
  exists kept added, after = kept ++ added /\ Forall2 evolves before kept.

(** The effect of [mark_summarized] on the table of messages. *)
Definition mark_rows (ids : list Z) (rows : list (Message num))
  : list (Message num) :=
  fold_left (fun r i => Db.mark_first i r) ids rows.

(** The first row with id [i], if any, carries the flag already. *)
Definition settled (i : Z) (rows : list (Message num)) : Prop :=
  forall m, find (fun r => (id r =? i)%Z) rows = Some m ->
            is_summarized m = 1%Z.

(** Set the flag of a row when its id is hit. *)
Definition mark_if (hit : Z -> bool) (m : Message num) : Message num :=
  if hit (id m) then Db.set_summarized m else m.

(** The batch a summarization pass reads. *)
Definition batch (sessionId : jsstring) (m : Machine num) : list IdRow :=
  Db.select_unsummarized sessionId (store m).

(** A computation under which the table of messages only evolves. *)
Definition steady {A : Type} (c : @Run.M num A) : Prop :=
  forall m : Machine num,
    history_evolves (messages (store m)) (messages (store (snd (c m)))).

(** Sum of the squares of the entries of a real vector. *)
Definition sumsq (v : list R) : R :=
  fold_right (fun x acc => x * x + acc)%R 0%R v.



(** The comparator of [semanticSearch] is consistent on the hits at
    hand: its positive results form a strict weak order on them. This is
    the case when no score is NaN. *)
Definition comparable (hits : list (SearchHit num)) : Prop :=
  (forall x y, In x hits -> In y hits ->
     Db.best_first x y = true -> Db.best_first y x = false) /\
  (forall x y z, In x hits -> In y hits -> In z hits ->
     Db.best_first x z = true ->
     Db.best_first x y = true \/ Db.best_first y z = true).

(** The long-term summaries of a session, in storage order. *)
Definition summaries_of (sessionId : jsstring) (st : Store num)
  : list (Memory num) :=
  filter (fun m => JsString.eqb (mem_session_id m) sessionId) (memories st).
(** The machine once a request has been received: the session is
    there and the user's message is appended. *)
Definition received (W : World num) (message sessionId : jsstring)
           (m : Machine num) : Machine num :=
  snd (Run.bind (Server.ensureSession W sessionId)
                (fun _ => Server.saveMessage W sessionId user message) m).

(** A completion endpoint that answers every request. *)
Definition always_answers (W : World num) : Prop :=
  forall (k : nat) (request : list ChatMsg),
    exists text, completion W k request = Answer text.

Definition is_ok (r : ChatResponse) : bool :=
  match r with
  | ChatOk _ _ _ _ => true
  | ChatError _ => false
  end.
End Notions.
End Spec.

(* ================================================================== *)
(** * Concrete runs *)

Module Scenario.

Definition s1 : jsstring := JsString.lit "s1".

Definition hi : jsstring := JsString.lit "Hi".

(** A world whose clock ticks once per reading, whose completion
    endpoint always answers, and which has no embeddings endpoint. *)
Definition world : World float :=
  mkWorld (fun k => Z.of_nat k)
          (fun _ _ => Answer (JsString.lit "ok"))
          (fun _ _ => None).

(** The same world with the completion endpoint down for its first
    call. *)
Definition outage : World float :=
  mkWorld (fun k => Z.of_nat k)
          (fun k _ => match k with
                      | O => Failure (JsString.lit "fetch failed")
                      | S _ => Answer (JsString.lit "ok")
                      end)
          (fun _ _ => None).

(** Row [k] of a table whose messages were stored at times 1, 2, ... *)
Definition row (k : Z) : Message float :=
  mkMessage k s1 (if Z.odd k then user else assistant) hi 1 k 0 (Vector []).

Definition table (rows : list Z) : Store float :=
  mkStore (map row rows) []
          [(s1, mkSession s1 0 (Z.of_nat (length rows)))]
          (Z.of_nat (length rows) + 1).

Definition five : Store float := table [1; 2; 3; 4; 5]%Z.

(** A machine whose session holds nine unsummarized messages. *)
Definition nine : Machine float :=
  mkMachine (table [1; 2; 3; 4; 5; 6; 7; 8; 9]%Z) 0 0 0 [].

Definition ten_requests : list jsstring := repeat hi 10.

(** The machine [nine] once a tenth message has been received, in the
    world [outage] and in the world [world]. *)
Definition tenth_in_outage : Machine float := Spec.received outage hi s1 nine.

Definition tenth : Machine float := Spec.received world hi s1 nine.

(** A table whose rows all carry the flag. *)
Definition archived : Store float :=
  mkStore (map Db.set_summarized (map row [1; 2; 3]%Z)) [] [] 4.

(** Three requests, the second with an empty message, and the machine
    they leave behind when started on empty files. *)
Definition with_empty : list jsstring :=
  [JsString.lit "a"; JsString.lit ""; JsString.lit "ab"].

Definition after_with_empty : Machine float :=
  snd (Server.chat_all world s1 with_empty boot).

(** Two requests with text, and the machine they leave behind. *)
Definition with_text : list jsstring :=
  [JsString.lit "a"; JsString.lit "ab"].

Definition after_with_text : Machine float :=
  snd (Server.chat_all world s1 with_text boot).

(** A world whose embeddings endpoint replies, without a vector, and
    the machine one request to [/api/chat] leaves behind in it when
    started on empty files: both rows are stored without an embedding. *)
Definition vectorless : World float :=
  mkWorld (fun k => Z.of_nat k)
          (fun _ _ => Answer (JsString.lit "ok"))
          (fun _ _ => Some Undefined).

Definition after_vectorless : Machine float :=
  snd (Server.chat vectorless hi (Some s1) boot).

(** The scores of a reply of [/api/search]. *)
Definition scores (r : Outcome (SearchResponse float)) : list float :=
  match r with
  | Return (SearchOk hits) => map (@similarity float) hits
  | _ => []
  end.

End Scenario.

(* ================================================================== *)
(** * The handlers, step by step *)

Module Step.
Section Steps.
Context {num : Type} {NUM : Number num}.
Variable W : World num.

(** The session a request names. *)
Definition session_of (sessionId : option jsstring) : jsstring :=
  match sessionId with
  | Some s => s
  | None => Server.default_session
  end.

(** The machine with one more call of the completion endpoint. *)
Definition called (m : Machine num) : Machine num :=
  mkMachine (store m) (clock_reads m) (S (completion_calls m))
            (embedding_calls m) (console m).

(** The row [saveMessage] appends for the user's message of a request
    received by [m]: [ensureSession] has read the clock once before. *)
Definition user_row (message sessionId : jsstring) (m : Machine num)
  : Message num :=
  mkMessage (messageIdCounter (store m)) sessionId user message
            (Server.estimateTokens message) (now W (S (clock_reads m))) 0
            (Run.embedding_of W (embedding_calls m) message).

(** The machine [generateSummary] leaves. *)
Definition after_pass (sessionId : jsstring) (m : Machine num)
  : Machine num :=
  let unsummarized := Spec.batch sessionId m in
  if (Z.of_nat (length unsummarized) <? 5)%Z then m
  else
    match completion W (completion_calls m)
                     (Server.summaryMessages unsummarized) with
    | Failure e =>
      mkMachine (store m) (clock_reads m) (S (completion_calls m))
                (embedding_calls m) (console m ++ [SummaryFailed e])
    | Answer text =>
      mkMachine
        (Db.mark_summarized (map row_id unsummarized)
           (Db.insert_memory sessionId text (now W (clock_reads m))
              (Run.embedding_of W (embedding_calls m) text) (store m)))
        (S (clock_reads m)) (S (completion_calls m))
        (S (embedding_calls m))
        (console m ++ [Compressed (length unsummarized)])
    end.

(** The machine once the trigger has been checked. *)
Definition checked (message sessionId : jsstring) (m : Machine num)
  : Machine num :=
  let m1 := Spec.received W message sessionId m in
  if Server.summary_due (Server.getMessageCount sessionId (store m1))
  then after_pass sessionId m1
  else m1.

(** The machine a request to [/api/chat] leaves. *)
Definition after_chat (message sessionId : jsstring) (m : Machine num)
  : Machine num :=
  let mc := checked message sessionId m in
  match completion W (completion_calls mc)
                   (Server.buildContext sessionId (store mc)) with
  | Answer reply =>
    snd (Server.saveMessage W sessionId assistant reply (called mc))
  | Failure e =>
    mkMachine (store mc) (clock_reads mc) (S (completion_calls mc))
              (embedding_calls mc) (console mc ++ [RequestFailed e])
  end.

(** The reply of [/api/chat]. *)
Definition reply_of (message sessionId : jsstring) (m : Machine num)
  : ChatResponse :=
  let mc := checked message sessionId m in
  let context := Server.buildContext sessionId (store mc) in
  match completion W (completion_calls mc) context with
  | Answer reply =>
    let after := after_chat message sessionId m in
    let longTermCount :=
      Z.of_nat (length (Server.getLongTermMemory sessionId (store after))) in
    ChatOk reply
      (Server.getMessageCount sessionId
         (store (Spec.received W message sessionId m)) + 1)
      longTermCount
      ((Z.of_nat (length context) - 1
        - (if (longTermCount >? 0)%Z then 1 else 0)) / 2)
  | Failure e => ChatError e
  end.

(** Requests, and a server that takes them one after the other. *)
Inductive Request : Type :=
| Chat (message : jsstring) (sessionId : option jsstring)
| Search (query : jsstring) (sessionId : option jsstring)
         (limit : option Z).

Definition handle (r : Request) (m : Machine num) : Machine num :=
  match r with
  | Chat message sessionId => snd (Server.chat W message sessionId m)
  | Search query sessionId limit =>
    snd (Server.search W query sessionId limit m)
  end.

Definition serve (requests : list Request) (m : Machine num)
  : Machine num :=
  fold_left (fun m r => handle r m) requests m.
End Steps.
End Step.

(* ================================================================== *)
(** * Invariants of the tables *)

Module Inv.
Section Invariants.
Context {num : Type} {NUM : Number num}.

(** Ids are distinct and below the counter. *)
Definition well_numbered (st : Store num) : Prop :=
  NoDup (map (@id num) (messages st)) /\
  Forall (fun r => (id r < messageIdCounter st)%Z) (messages st).

(** [sessions.get(sessionId)] *)
Definition get_session (sessionId : jsstring)
           (tbl : list (jsstring * Session)) : option Session :=
  option_map snd (find (fun kv => JsString.eqb (fst kv) sessionId) tbl).

(** One entry per key, as in a [Map]. *)
Definition keyed (st : Store num) : Prop := NoDup (map fst (sessions st)).

(** What a session sees of the tables: its messages and its summaries,
    in storage order. *)
Definition view (sessionId : jsstring) (st : Store num)
  : list (Message num) * list (Memory num) :=
  (filter (Db.in_session sessionId) (messages st),
   Spec.summaries_of sessionId st).

(** The rows of the batch of a session are flagged, the others kept. *)
Definition consume (sessionId : jsstring) (r : Message num) : Message num :=
  if Db.unsummarized sessionId r then Db.set_summarized r else r.

(** A change of the tables that another session does not see. *)
Definition unseen (sessionId : jsstring) (a b : Store num) : Prop :=
  well_numbered a -> well_numbered b /\ view sessionId b = view sessionId a.
End Invariants.
End Inv.

(* ================================================================== *)
(** * Rows that share an id *)

Module Shadow.
Section Shadows.
Context {num : Type} {NUM : Number num}.

(** The row [x] comes after a row that has its id. *)
Definition shadowed (x : Message num) (rows : list (Message num)) : Prop :=
  exists pre post, rows = pre ++ x :: post /\ In (id x) (map (@id num) pre).

(** A machine that has just read the saved files. *)
Definition restarted (saved_messages : list (Message num))
           (saved_memories : list (Memory num))
           (saved_sessions : list (jsstring * Session)) : Machine num :=
  mkMachine (Db.load saved_messages saved_memories saved_sessions) 0 0 0 [].
End Shadows.
End Shadow.

(* ================================================================== *)
(** * The in-memory store *)

(** The store that keeps its tables in memory only: the same statements,
    rows without an embedding, nothing written to disk. Its SELECTs
    return the rows as they are stored. *)
Module MemoryStorage.

Record Row : Type := mkRow {
  id : Z;
  session_id : jsstring;
  role : Role;
  content : jsstring;
  tokens : Z;
  timestamp : Z;
  is_summarized : Z
}.

(** A row of [longTermMemory]. *)
Record Summary : Type := mkSummary {
  ltm_session_id : jsstring;
  summary : jsstring;
  created_at : Z
}.

(** The module-level [sessions], [messages], [longTermMemory] and
    [messageIdCounter]. *)
Record Store : Type := mkStore {
  sessions : list (jsstring * Session);
  messages : list Row;
  longTermMemory : list Summary;
  messageIdCounter : Z
}.

Definition initial : Store := mkStore [] [] [] 1.

(** [m.session_id === sessionId && m.is_summarized === 0] *)
Definition unsummarized (sessionId : jsstring) (m : Row) : bool :=
  JsString.eqb (session_id m) sessionId && (is_summarized m =? 0)%Z.

(** INSERT OR IGNORE INTO sessions *)
Definition insert_session (sessionId : jsstring) (created updated : Z)
           (st : Store) : Store :=
  if existsb (fun kv => JsString.eqb (fst kv) sessionId) (sessions st)
  then st
  else mkStore
         (sessions st ++ [(sessionId, mkSession sessionId created updated)])
         (messages st) (longTermMemory st) (messageIdCounter st).

(** INSERT INTO messages *)
Definition insert_message (sessionId : jsstring) (r : Role)
           (text : jsstring) (tok ts : Z) (st : Store) : Store :=
  mkStore (sessions st)
          (messages st ++
             [mkRow (messageIdCounter st) sessionId r text tok ts 0])
          (longTermMemory st) (messageIdCounter st + 1).

(** UPDATE sessions SET updated_at *)
Definition update_session (updated : Z) (sessionId : jsstring)
           (st : Store) : Store :=
  mkStore
    (map (fun kv : jsstring * Session =>
            if JsString.eqb (fst kv) sessionId
            then (fst kv,
                  mkSession (ses_id (snd kv)) (createdAt (snd kv)) updated)
            else kv)
         (sessions st))
    (messages st) (longTermMemory st) (messageIdCounter st).

(** SELECT COUNT( * ) as count FROM messages *)
Definition count_messages (sessionId : jsstring) (st : Store) : Z :=
  Z.of_nat (length (filter (unsummarized sessionId) (messages st))).

(** SELECT role, content FROM messages ... ORDER BY timestamp DESC *)
Definition select_recent (sessionId : jsstring) (limit : Z) (st : Store)
  : list Row :=
  JsArray.slice0
    (JsArray.sort (fun a b => (timestamp b - timestamp a >? 0)%Z)
       (filter (unsummarized sessionId) (messages st)))
    limit.

(** SELECT summary FROM long_term_memory *)
Definition select_summaries (sessionId : jsstring) (st : Store)
  : list Summary :=
  JsArray.sort (fun a b => (created_at a - created_at b >? 0)%Z)
    (filter (fun m => JsString.eqb (ltm_session_id m) sessionId)
            (longTermMemory st)).

(** SELECT id, role, content FROM messages ... ORDER BY timestamp ASC *)
Definition select_unsummarized (sessionId : jsstring) (st : Store)
  : list Row :=
  JsArray.sort (fun a b => (timestamp a - timestamp b >? 0)%Z)
    (filter (unsummarized sessionId) (messages st)).

(** INSERT INTO long_term_memory *)
Definition insert_memory (sessionId text : jsstring) (created : Z)
           (st : Store) : Store :=
  mkStore (sessions st) (messages st)
          (longTermMemory st ++ [mkSummary sessionId text created])
          (messageIdCounter st).

(** UPDATE messages SET is_summarized = 1 WHERE id = ?: the row that
    [messages.find(m => m.id === id)] returns. *)
Fixpoint mark_first (i : Z) (rows : list Row) : list Row :=
  match rows with
  | [] => []
  | m :: rest =>
    if (id m =? i)%Z
    then mkRow (id m) (session_id m) (role m) (content m) (tokens m)
               (timestamp m) 1 :: rest
    else m :: mark_first i rest
  end.

Definition update_message (i : Z) (st : Store) : Store :=
  mkStore (sessions st) (mark_first i (messages st)) (longTermMemory st)
          (messageIdCounter st).

(** [db.transaction(fn)] calls [fn]. *)
Definition mark_summarized (ids : list Z) (st : Store) : Store :=
  fold_left (fun s i => update_message i s) ids st.

End MemoryStorage.

(** What a row and a table of the vector store are without their
    embeddings. *)
Module Forget.
Definition row_of {num : Type} (m : Message num) : MemoryStorage.Row :=
  MemoryStorage.mkRow (id m) (session_id m) (role m) (content m)
                      (tokens m) (timestamp m) (is_summarized m).

Definition summary_of {num : Type} (m : Memory num)
  : MemoryStorage.Summary :=
  MemoryStorage.mkSummary (mem_session_id m) (summary m) (created_at m).

Definition erase {num : Type} (st : Store num) : MemoryStorage.Store :=
  MemoryStorage.mkStore (sessions st) (map row_of (messages st))
                        (map summary_of (memories st))
                        (messageIdCounter st).
End Forget.

(* ================================================================== *)
(** * A server without an embeddings endpoint *)

Module Offline.
Section Offline.
Context {num : Type} {NUM : Number num}.

(** Every call of the embeddings endpoint fails. *)
Definition offline (W : World num) : Prop :=
  forall (k : nat) (text : jsstring), embeddings W k text = None.

(** Every stored message carries the local embedding of its content. *)
Definition local (st : Store num) : Prop :=
  Forall (fun r => embedding r
                   = Vector (Embedding.simpleEmbedding (content r)))
         (messages st).

(** The residues modulo 128 of the code units of a text. *)
Definition residues (text : jsstring) : list N :=
  map (fun c => (c mod 128)%N) text.
End Offline.
End Offline.

(* ================================================================== *)
(** * Doubles that are zero or NaN *)

Module Ieee.

(** The doubles JavaScript reads as false: [0], [-0] and [NaN]. *)
Definition null (x : spec_float) : bool :=
  match x with
  | S754_zero _ | S754_nan => true
  | _ => false
  end.

Definition falsy (x : float) : Prop := js_truthy x = false.

(** A double that is not [NaN]: the test [x === x]. *)
Definition number (x : float) : Prop := PrimFloat.eqb x x = true.

(** A specified double that is not [NaN]. *)
Definition defined (X : spec_float) : Prop := X <> S754_nan.

(** A specified double of sign [s] that is neither zero nor [NaN]. *)
Definition signed (s : bool) (X : spec_float) : Prop :=
  match X with
  | S754_finite s' _ _ | S754_infinity s' => s' = s
  | _ => False
  end.

(** The integer a finite double contributes to a sum at exponent [e']:
    its mantissa shifted to [e'], with its sign. *)
Definition aligned (s : bool) (m : positive) (e e' : Z) : Z :=
  cond_Zopp s (Z.pos (fst (shl_align m e e'))).
End Ieee.

(* ================================================================== *)
(** * Properties *)

Example lit_roles :
  JsString.lit "用户: a"%string = [29992; 25143; 58; 32; 97]%N.
Proof. reflexivity. Qed.

(* ------------------------------------------------------------------ *)
(** ** Sorting and slicing *)

Module SortFacts.
Section Consistent.
Variable A : Type.
Variable after : A -> A -> bool.

(** The comparator is consistent on the elements at hand, [dom]: its
    "positive" results form a strict weak order there. *)
Variable dom : list A.
Hypothesis after_asym :
  forall x y, In x dom -> In y dom -> after x y = true -> after y x = false.
Hypothesis after_cut :
  forall x y z, In x dom -> In y dom -> In z dom ->
    after x z = true -> after x y = true \/ after y z = true.

Local Abbreviation may_precede := (JsArray.may_precede after).
Local Abbreviation tie := (JsArray.tie after).

Lemma may_precede_trans x y z :
  In x dom -> In y dom -> In z dom ->
  may_precede x y -> may_precede y z -> may_precede x z.
Proof.
  unfold JsArray.may_precede; intros Hx Hy Hz Hxy Hyz.
  destruct (after x z) eqn:E; [| reflexivity].
  destruct (@after_cut x y z Hx Hy Hz E) as [H | H]; congruence.
Qed.

Lemma insert_behind x y l :
  after x y = true ->
  JsArray.insert after x (y :: l) = y :: JsArray.insert after x l.
Proof. intros H. simpl. now rewrite H. Qed.


Lemma insert_perm x l : Permutation (JsArray.insert after x l) (x :: l).
Proof.
  induction l as [| y l IH]; simpl; [reflexivity |].
  destruct (after x y); [| reflexivity].
  rewrite IH. apply perm_swap.
Qed.

Lemma sort_perm l : Permutation (JsArray.sort after l) l.
Proof.
  induction l as [| x l IH]; simpl; [constructor |].
  rewrite insert_perm. now constructor.
Qed.

Lemma sort_length l : length (JsArray.sort after l) = length l.
Proof. apply Permutation_length, sort_perm. Qed.

Lemma insert_sorted x l :
  In x dom -> incl l dom ->
  StronglySorted may_precede l ->
  StronglySorted may_precede (JsArray.insert after x l).
Proof.
  intros Hx Hl Hs. revert Hl.
  induction Hs as [| y l Hs IH Hy]; simpl; intros Hl.
  - repeat constructor.
  - assert (Hyd : In y dom) by (apply Hl; now left).
    assert (Hld : incl l dom) by (intros z Hz; apply Hl; now right).
    destruct (after x y) eqn:E.
    + constructor; [now apply IH |].
      apply (Permutation_Forall (Permutation_sym (insert_perm x l))).
      constructor; [now apply after_asym | exact Hy].
    + constructor; [now constructor |].
      constructor; [exact E |].
      rewrite Forall_forall in Hy. apply Forall_forall. intros z Hz.
      apply may_precede_trans with y; auto.
Qed.

Lemma sort_sorted l :
  incl l dom -> StronglySorted may_precede (JsArray.sort after l).
Proof.
  induction l as [| x l IH]; simpl; intros Hl; [constructor |].
  apply insert_sorted.
  - apply Hl. now left.
  - intros z Hz. apply Hl. right.
    now apply (Permutation_in _ (sort_perm l)).
  - apply IH. intros z Hz. apply Hl. now right.
Qed.

Lemma tie_cut a x y :
  In a dom -> In x dom -> In y dom ->
  tie a x = true -> tie a y = true -> after x y = false.
Proof.
  unfold JsArray.tie; intros Ha Hxd Hyd Hx Hy.
  apply andb_true_iff in Hx as [Hax Hxa], Hy as [Hay Hya].
  apply negb_true_iff in Hax, Hxa, Hay, Hya.
  destruct (after x y) eqn:E; [| reflexivity].
  destruct (@after_cut x a y Hxd Ha Hyd E); congruence.
Qed.

Lemma insert_stable a x l :
  In a dom -> In x dom -> incl l dom ->
  filter (tie a) (JsArray.insert after x l) = filter (tie a) (x :: l).
Proof.
  intros Ha Hx.
  induction l as [| y l IH]; intros Hl; [reflexivity |].
  simpl JsArray.insert. destruct (after x y) eqn:E; [| reflexivity].
  cbn [filter]. rewrite IH by (intros z Hz; apply Hl; now right).
  cbn [filter].
  destruct (tie a x) eqn:Tx, (tie a y) eqn:Ty; try reflexivity.
  assert (after x y = false)
    by (apply tie_cut with a; auto; apply Hl; now left).
  congruence.
Qed.

(** Stability: among the elements that tie with any given one, the sort
    keeps the order of its input. *)
Lemma sort_stable a l :
  In a dom -> incl l dom ->
  filter (tie a) (JsArray.sort after l) = filter (tie a) l.
Proof.
  intros Ha. induction l as [| x l IH]; intros Hl; [reflexivity |].
  simpl JsArray.sort. rewrite insert_stable.
  - simpl. rewrite IH; [reflexivity | intros z Hz; apply Hl; now right].
  - exact Ha.
  - apply Hl. now left.
  - intros z Hz. apply Hl. right.
    now apply (Permutation_in _ (sort_perm l)).
Qed.
End Consistent.

Section Ordered.
Variable A : Type.
Variable R : A -> A -> Prop.

Lemma sorted_app_inv (l1 l2 : list A) :
  StronglySorted R (l1 ++ l2) ->
  StronglySorted R l1 /\ StronglySorted R l2 /\
  (forall a b, In a l1 -> In b l2 -> R a b).
Proof.
  induction l1 as [| x l1 IH]; simpl; intros H.
  - repeat split; [constructor | exact H | intros a b []].
  - apply StronglySorted_inv in H as [Hs Hx].
    destruct (IH Hs) as (H1 & H2 & H12).
    apply Forall_app in Hx as [Hx1 Hx2].
    repeat split; [now constructor | exact H2 |].
    intros a b [<- | Ha] Hb; [| now apply H12].
    rewrite Forall_forall in Hx2. now apply Hx2.
Qed.


Lemma sorted_firstn (k : nat) (l : list A) :
  StronglySorted R l -> StronglySorted R (firstn k l).
Proof.
  intros H. rewrite <- (firstn_skipn k l) in H.
  now apply sorted_app_inv in H.
Qed.
End Ordered.




Lemma slice0_firstn (A : Type) (l : list A) (limit : Z) :
  (0 <= limit)%Z -> JsArray.slice0 l limit = firstn (Z.to_nat limit) l.
Proof.
  intros H. unfold JsArray.slice0.
  destruct (Z.ltb_spec limit 0); [lia |].
  destruct (Z.min_spec limit (Z.of_nat (length l))) as [[_ ->] | [Hl ->]];
    [reflexivity |].
  rewrite Nat2Z.id, firstn_all.
  symmetry. apply firstn_all2. lia.
Qed.

Lemma slice0_incl (A : Type) (l : list A) (limit : Z) (x : A) :
  In x (JsArray.slice0 l limit) -> In x l.
Proof.
  unfold JsArray.slice0.
  generalize (Z.to_nat (if (limit <? 0)%Z
                        then Z.max (Z.of_nat (length l) + limit) 0
                        else Z.min limit (Z.of_nat (length l)))).
  intros k H. rewrite <- (firstn_skipn k l). apply in_or_app. now left.
Qed.
End SortFacts.

(* ------------------------------------------------------------------ *)
(** ** Reading the tables *)

Module ReadFacts.
Section Reads.
Context {num : Type} {NUM : Number num}.
Implicit Types (st : Store num) (s : jsstring) (m : Message num).

Lemma eqb_eq (a b : jsstring) : JsString.eqb a b = true <-> a = b.
Proof.
  unfold JsString.eqb. destruct (JsString.eq_dec a b); split; congruence.
Qed.

Lemma eqb_refl (a : jsstring) : JsString.eqb a a = true.
Proof. now apply eqb_eq. Qed.

Lemma unsummarized_iff s m :
  Db.unsummarized s m = true <-> session_id m = s /\ is_summarized m = 0%Z.
Proof.
  unfold Db.unsummarized, Db.in_session.
  rewrite andb_true_iff, eqb_eq, Z.eqb_eq. tauto.
Qed.



Lemma oldest_first_asym (a b : Message num) :
  Db.oldest_first a b = true -> Db.oldest_first b a = false.
Proof. unfold Db.oldest_first. lia. Qed.

Lemma oldest_first_cut (a b c : Message num) :
  Db.oldest_first a c = true ->
  Db.oldest_first a b = true \/ Db.oldest_first b c = true.
Proof. unfold Db.oldest_first. lia. Qed.



Lemma history_rows s (limit : Z) st :
  Server.getRecentHistory s limit st
  = map Db.role_content (rev (Db.recent_rows s limit st)).
Proof.
  unfold Server.getRecentHistory, Db.select_recent. now rewrite map_rev.
Qed.


Lemma recent_rows_qualify s (limit : Z) st m :
  In m (Db.recent_rows s limit st) ->
  In m (messages st) /\ session_id m = s /\ is_summarized m = 0%Z.
Proof.
  unfold Db.recent_rows. intros H.
  apply SortFacts.slice0_incl in H.
  apply (Permutation_in _ (SortFacts.sort_perm Db.newest_first _)) in H.
  apply filter_In in H as [Hin Hq].
  apply unsummarized_iff in Hq. tauto.
Qed.

End Reads.
End ReadFacts.

(* ------------------------------------------------------------------ *)
(** ** The short-term window *)


(* ------------------------------------------------------------------ *)
(** ** Marking rows as summarized *)

Module MarkFacts.
Section Marking.
Context {num : Type} {NUM : Number num}.
Implicit Types (rows : list (Message num)) (m : Message num) (i : Z).

Lemma mark_summarized_rows (ids : list Z) (st : Store num) :
  Db.mark_summarized ids st
  = mkStore (Spec.mark_rows ids (messages st)) (memories st) (sessions st)
            (messageIdCounter st).
Proof.
  unfold Db.mark_summarized, Spec.mark_rows.
  revert st. induction ids as [| i ids IH]; intros st; simpl.
  - now destruct st.
  - rewrite IH. reflexivity.
Qed.

Lemma set_summarized_fixed m :
  is_summarized m = 1%Z -> Db.set_summarized m = m.
Proof. destruct m; simpl; intros ->; reflexivity. Qed.

Lemma set_summarized_twice m :
  Db.set_summarized (Db.set_summarized m) = Db.set_summarized m.
Proof. reflexivity. Qed.

Lemma mark_first_settled i rows :
  Spec.settled i rows -> Db.mark_first i rows = rows.
Proof.
  unfold Spec.settled. induction rows as [| m rows IH]; simpl; intros H.
  - reflexivity.
  - destruct (id m =? i)%Z.
    + now rewrite set_summarized_fixed by now apply H.
    + now rewrite IH.
Qed.

Lemma mark_first_settles i rows : Spec.settled i (Db.mark_first i rows).
Proof.
  unfold Spec.settled. induction rows as [| m rows IH]; simpl; intros r.
  - discriminate.
  - destruct (id m =? i)%Z eqn:E; simpl.
    + rewrite E. now intros [= <-].
    + rewrite E. apply IH.
Qed.

Lemma mark_first_keeps i j rows :
  Spec.settled i rows -> Spec.settled i (Db.mark_first j rows).
Proof.
  unfold Spec.settled. induction rows as [| m rows IH]; simpl; intros H r.
  - discriminate.
  - destruct (id m =? j)%Z eqn:Ej; simpl.
    + destruct (id m =? i)%Z eqn:Ei.
      * now intros [= <-].
      * intros Hr. apply H. exact Hr.
    + destruct (id m =? i)%Z eqn:Ei.
      * intros Hr. apply H. exact Hr.
      * apply IH. intros r' Hr'. apply H. exact Hr'.
Qed.

Lemma mark_rows_settled (ids : list Z) rows :
  (forall i, In i ids -> Spec.settled i rows) -> Spec.mark_rows ids rows = rows.
Proof.
  unfold Spec.mark_rows. induction ids as [| i ids IH]; simpl; intros H.
  - reflexivity.
  - rewrite mark_first_settled by (apply H; now left).
    apply IH. intros j Hj. apply H. now right.
Qed.

Lemma mark_rows_keeps i (ids : list Z) rows :
  Spec.settled i rows -> Spec.settled i (Spec.mark_rows ids rows).
Proof.
  unfold Spec.mark_rows. revert rows.
  induction ids as [| j ids IH]; simpl; intros rows H; [exact H |].
  apply IH. now apply mark_first_keeps.
Qed.

Lemma mark_rows_settles (ids : list Z) rows i :
  In i ids -> Spec.settled i (Spec.mark_rows ids rows).
Proof.
  unfold Spec.mark_rows. revert rows.
  induction ids as [| j ids IH]; simpl; intros rows []; subst.
  - apply mark_rows_keeps, mark_first_settles.
  - now apply IH.
Qed.

Lemma find_in_flagged i rows :
  (forall m, In m rows -> id m = i -> is_summarized m = 1%Z) ->
  Spec.settled i rows.
Proof.
  intros H m Hm. apply find_some in Hm as [Hin Hid].
  apply H; [exact Hin | lia].
Qed.

(** Rows only evolve under [mark_first]. *)
Lemma evolves_refl m : Spec.evolves m m.
Proof. unfold Spec.evolves. tauto. Qed.

Lemma evolves_trans m1 m2 m3 :
  Spec.evolves m1 m2 -> Spec.evolves m2 m3 -> Spec.evolves m1 m3.
Proof.
  unfold Spec.evolves.
  intros (a1 & a2 & a3 & a4 & a5 & a6 & a7 & a8)
         (b1 & b2 & b3 & b4 & b5 & b6 & b7 & b8).
  repeat split; try congruence.
  destruct b8 as [b8 | b8]; [rewrite b8; exact a8 | now right].
Qed.

Lemma evolves_set m : Spec.evolves m (Db.set_summarized m).
Proof. unfold Spec.evolves. simpl. tauto. Qed.

Lemma rows_evolve_refl rows : Forall2 Spec.evolves rows rows.
Proof. induction rows; constructor; [apply evolves_refl | assumption]. Qed.

Lemma rows_evolve_trans rows1 rows2 rows3 :
  Forall2 Spec.evolves rows1 rows2 -> Forall2 Spec.evolves rows2 rows3 ->
  Forall2 Spec.evolves rows1 rows3.
Proof.
  intros H. revert rows3.
  induction H as [| a b l1 l2 Hab _ IH]; intros rows3 H23; inversion H23; subst.
  - constructor.
  - constructor; [now apply evolves_trans with b | now apply IH].
Qed.

Lemma mark_first_evolves i rows :
  Forall2 Spec.evolves rows (Db.mark_first i rows).
Proof.
  induction rows as [| m rows IH]; simpl; [constructor |].
  destruct (id m =? i)%Z; constructor;
    auto using evolves_set, evolves_refl, rows_evolve_refl.
Qed.

Lemma mark_rows_evolve (ids : list Z) rows :
  Forall2 Spec.evolves rows (Spec.mark_rows ids rows).
Proof.
  unfold Spec.mark_rows. revert rows.
  induction ids as [| i ids IH]; simpl; intros rows.
  - apply rows_evolve_refl.
  - eapply rows_evolve_trans; [apply mark_first_evolves | apply IH].
Qed.

(** With distinct ids, [mark_first] writes the row that has the id. *)
Lemma mark_first_absent i rows :
  ~ In i (map (@id num) rows) -> Db.mark_first i rows = rows.
Proof.
  induction rows as [| m rows IH]; simpl; intros H; [reflexivity |].
  destruct (Z.eqb_spec (id m) i) as [E | E]; [tauto |].
  rewrite IH; tauto.
Qed.

Lemma mark_first_distinct i rows :
  NoDup (map (@id num) rows) ->
  Db.mark_first i rows = map (Spec.mark_if (fun k => (k =? i)%Z)) rows.
Proof.
  unfold Spec.mark_if. induction rows as [| m rows IH]; simpl; intros H.
  - reflexivity.
  - inversion H as [| ? ? Hnot Hrest]; subst.
    destruct (Z.eqb_spec (id m) i) as [E | E].
    + f_equal. rewrite <- IH by exact Hrest.
      symmetry. apply mark_first_absent. now rewrite <- E.
    + now rewrite IH.
Qed.

Lemma mark_if_id hit rows :
  map (@id num) (map (Spec.mark_if hit) rows) = map (@id num) rows.
Proof.
  rewrite map_map. apply map_ext. intros m. unfold Spec.mark_if.
  now destruct (hit (id m)).
Qed.

Lemma mark_rows_distinct (ids : list Z) rows :
  NoDup (map (@id num) rows) ->
  Spec.mark_rows ids rows
  = map (Spec.mark_if (fun k => existsb (fun i => (k =? i)%Z) ids)) rows.
Proof.
  unfold Spec.mark_rows. revert rows.
  induction ids as [| i ids IH]; simpl; intros rows H.
  - unfold Spec.mark_if. simpl. now rewrite map_id.
  - rewrite mark_first_distinct by exact H.
    rewrite IH by now rewrite mark_if_id.
    rewrite map_map. apply map_ext. intros m. unfold Spec.mark_if.
    destruct (id m =? i)%Z eqn:E; simpl; [| reflexivity].
    now destruct (existsb _ ids).
Qed.
End Marking.
End MarkFacts.

(* ------------------------------------------------------------------ *)
(** ** Running a summarization pass *)

Module PassFacts.
Section Pass.
Context {num : Type} {NUM : Number num}.
Variable W : World num.
Implicit Types (m : Machine num) (s : jsstring).

Lemma batch_length s m :
  Z.of_nat (length (Spec.batch s m)) = Server.getMessageCount s (store m).
Proof.
  unfold Spec.batch, Db.select_unsummarized, Db.unsummarized_rows,
    Server.getMessageCount, Db.count_messages.
  now rewrite length_map, SortFacts.sort_length.
Qed.

Lemma batch_ids s m :
  Permutation (map row_id (Spec.batch s m))
              (map (@id num) (Spec.qualifying s (store m))).
Proof.
  unfold Spec.batch, Db.select_unsummarized, Db.unsummarized_rows.
  rewrite map_map. simpl.
  apply Permutation_map, SortFacts.sort_perm.
Qed.

Lemma pass_skipped s m :
  (length (Spec.batch s m) < 5)%nat ->
  Server.generateSummary W s m = (Return tt, m).
Proof.
  intros H. unfold Server.generateSummary, Run.bind, Run.query.
  fold (Spec.batch s m).
  destruct (Z.ltb_spec (Z.of_nat (length (Spec.batch s m))) 5); [| lia].
  reflexivity.
Qed.

Lemma pass_failed s m (e : jsstring) :
  (5 <= length (Spec.batch s m))%nat ->
  completion W (completion_calls m) (Server.summaryMessages (Spec.batch s m))
  = Failure e ->
  Server.generateSummary W s m
  = (Return tt,
     mkMachine (store m) (clock_reads m) (S (completion_calls m))
               (embedding_calls m) (console m ++ [SummaryFailed e])).
Proof.
  intros H He. unfold Server.generateSummary, Run.bind, Run.query.
  fold (Spec.batch s m).
  destruct (Z.ltb_spec (Z.of_nat (length (Spec.batch s m))) 5); [lia |].
  unfold Run.try_catch, Server.summarize, Run.bind, Run.callAPI.
  rewrite He. reflexivity.
Qed.

Lemma pass_succeeded s m (text : jsstring) :
  (5 <= length (Spec.batch s m))%nat ->
  completion W (completion_calls m) (Server.summaryMessages (Spec.batch s m))
  = Answer text ->
  Server.generateSummary W s m
  = (Return tt,
     mkMachine
       (Db.mark_summarized (map row_id (Spec.batch s m))
          (Db.insert_memory s text (now W (clock_reads m))
             (Run.embedding_of W (embedding_calls m) text) (store m)))
       (S (clock_reads m)) (S (completion_calls m))
       (S (embedding_calls m))
       (console m ++ [Compressed (length (Spec.batch s m))])).
Proof.
  intros H He. unfold Server.generateSummary, Run.bind, Run.query.
  fold (Spec.batch s m).
  destruct (Z.ltb_spec (Z.of_nat (length (Spec.batch s m))) 5); [lia |].
  unfold Run.try_catch, Server.summarize, Run.bind, Run.callAPI.
  rewrite He. reflexivity.
Qed.

(** With distinct ids, a pass that succeeds leaves no message of the
    session unsummarized. *)
Lemma marked_batch_consumed s (st : Store num) (ids : list Z) :
  NoDup (map (@id num) (messages st)) ->
  (forall r, In r (Spec.qualifying s st) -> In (id r) ids) ->
  filter (Db.unsummarized s) (Spec.mark_rows ids (messages st)) = [].
Proof.
  intros Hnd Hids. rewrite MarkFacts.mark_rows_distinct by exact Hnd.
  unfold Spec.qualifying in Hids.
  induction (messages st) as [| r rows IH]; [reflexivity |].
  simpl. inversion Hnd; subst.
  assert (Hr : Db.unsummarized s
                 (Spec.mark_if (fun k => existsb (fun i => (k =? i)%Z) ids) r)
               = false).
  { unfold Spec.mark_if.
    destruct (existsb _ ids) eqn:Ex.
    - unfold Db.unsummarized. simpl. apply andb_false_r.
    - destruct (Db.unsummarized s r) eqn:Hu; [| reflexivity].
      assert (Hin : In (id r) ids).
      { apply Hids. simpl. rewrite Hu. now left. }
      assert (existsb (fun i => (id r =? i)%Z) ids = true).
      { apply existsb_exists. exists (id r). split; [exact Hin | lia]. }
      congruence. }
  rewrite Hr. apply IH; [assumption |].
  intros r' Hr'. apply Hids. simpl.
  destruct (Db.unsummarized s r); [now right | exact Hr'].
Qed.
End Pass.
End PassFacts.

(** C10. The rows behind the result of [getRecentHistory] are stored
    messages of the session whose flag is 0, whatever the limit and
    however recent the summarized messages are; the assembled context is
    system messages followed by the role and content of such rows; when
    every message of the session is summarized the window is empty; and
    that is the case right after a pass that succeeds on a table with
    distinct ids. *)
Theorem summarized_never_in_window
        {num : Type} {NUM : Number num} (W : World num) :
  (forall (st : Store num) (s : jsstring) (limit : Z),
     exists rows,
       Server.getRecentHistory s limit st = map Db.role_content rows /\
       Forall (fun r => In r (messages st) /\ session_id r = s /\
                        is_summarized r = 0%Z) rows)
  /\
  (forall (st : Store num) (s : jsstring),
     exists preamble rows,
       Server.buildContext s st = preamble ++ map Db.role_content rows /\
       Forall (fun c => cm_role c = system) preamble /\
       Forall (fun r => In r (messages st) /\ session_id r = s /\
                        is_summarized r = 0%Z) rows)
  /\
  (forall (st : Store num) (s : jsstring) (limit : Z),
     (forall r, In r (messages st) -> session_id r = s ->
                is_summarized r <> 0%Z) ->
     Server.getRecentHistory s limit st = [])
  /\
  (forall (m : Machine num) (s text : jsstring) (limit : Z),
     NoDup (map (@id num) (messages (store m))) ->
     (5 <= length (Spec.batch s m))%nat ->
     completion W (completion_calls m)
                (Server.summaryMessages (Spec.batch s m)) = Answer text ->
     Server.getRecentHistory s limit
       (store (snd (Server.generateSummary W s m))) = []).
Proof.
  assert (Hrows : forall (st : Store num) s limit,
             Forall (fun r => In r (messages st) /\ session_id r = s /\
                              is_summarized r = 0%Z)
                    (rev (Db.recent_rows s limit st))).
  { intros st s limit. apply Forall_forall. intros r Hr.
    apply in_rev in Hr. now apply ReadFacts.recent_rows_qualify in Hr. }
  assert (Hnone : forall (st : Store num) s limit,
             Spec.qualifying s st = [] ->
             Server.getRecentHistory s limit st = []).
  { intros st s limit HQ. rewrite ReadFacts.history_rows.
    unfold Db.recent_rows. fold (Spec.qualifying s st). rewrite HQ.
    unfold JsArray.slice0. simpl. now rewrite firstn_nil. }
  repeat split.
  - intros st s limit. exists (rev (Db.recent_rows s limit st)).
    split; [apply ReadFacts.history_rows | apply Hrows].
  - intros st s.
    exists (if (Z.of_nat (length (Server.getLongTermMemory s st)) >? 0)%Z
            then [mkChatMsg system Server.SYSTEM_PROMPT;
                  mkChatMsg system
                    (Server.SUMMARY_HEADER ++
                     JsString.join (Server.nl ++ Server.nl)
                       (map row_summary (Server.getLongTermMemory s st)))]
            else [mkChatMsg system Server.SYSTEM_PROMPT]),
           (rev (Db.recent_rows s (Config.MAX_SHORT_TERM_ROUNDS * 2) st)).
    repeat split; [| | apply Hrows].
    + unfold Server.buildContext. rewrite ReadFacts.history_rows.
      rewrite map_map.
      destruct (Z.of_nat (length (Server.getLongTermMemory s st)) >? 0)%Z;
        reflexivity.
    + destruct (Z.of_nat (length (Server.getLongTermMemory s st)) >? 0)%Z;
        repeat constructor.
  - intros st s limit Hall. apply Hnone.
    unfold Spec.qualifying.
    induction (messages st) as [| r rows IH]; [reflexivity |].
    simpl. destruct (Db.unsummarized s r) eqn:Hu.
    + apply ReadFacts.unsummarized_iff in Hu as [Hs H0].
      exfalso. apply (Hall r); [now left | exact Hs | exact H0].
    + apply IH. intros r' Hr'. apply Hall. now right.
  - intros m s text limit Hnd H5 Hok. apply Hnone.
    rewrite (PassFacts.pass_succeeded W s m H5 Hok). simpl.
    rewrite MarkFacts.mark_summarized_rows. unfold Spec.qualifying. simpl.
    apply PassFacts.marked_batch_consumed; [exact Hnd |].
    intros r Hr.
    apply (Permutation_in _ (Permutation_sym (PassFacts.batch_ids s m))).
    now apply in_map.
Qed.

(* ------------------------------------------------------------------ *)
(** ** The assembled context *)


(* ------------------------------------------------------------------ *)
(** ** Stored messages only evolve *)

Module InvariantFacts.
Section Invariant.
Context {num : Type} {NUM : Number num}.
Variable W : World num.
Implicit Types (rows : list (Message num)) (st : Store num).

Lemma history_kept rows rows' :
  Forall2 Spec.evolves rows rows' -> Spec.history_evolves rows rows'.
Proof. intros H. exists rows', []. now rewrite app_nil_r. Qed.

Lemma history_refl rows : Spec.history_evolves rows rows.
Proof. apply history_kept, MarkFacts.rows_evolve_refl. Qed.

Lemma history_added rows added : Spec.history_evolves rows (rows ++ added).
Proof.
  exists rows, added. split; [reflexivity | apply MarkFacts.rows_evolve_refl].
Qed.

Lemma history_trans rows1 rows2 rows3 :
  Spec.history_evolves rows1 rows2 -> Spec.history_evolves rows2 rows3 ->
  Spec.history_evolves rows1 rows3.
Proof.
  intros (k & a & -> & Hk) (k' & a' & -> & Hk').
  apply Forall2_app_inv_l in Hk' as (k1 & k2 & H1 & H2 & ->).
  exists k1, (k2 ++ a'). split; [now rewrite app_assoc |].
  now apply MarkFacts.rows_evolve_trans with k.
Qed.

(** The statements. *)
Lemma insert_session_keeps st s (c u : Z) :
  messages (Db.insert_session s c u st) = messages st.
Proof. unfold Db.insert_session. now destruct (Db.has_session s _). Qed.

Lemma mark_summarized_evolves (ids : list Z) st :
  Spec.history_evolves (messages st) (messages (Db.mark_summarized ids st)).
Proof.
  rewrite MarkFacts.mark_summarized_rows. simpl.
  apply history_kept, MarkFacts.mark_rows_evolve.
Qed.

(** The monad. *)
Lemma steady_ret A (a : A) : Spec.steady (@Run.ret num A a).
Proof. intros m. apply history_refl. Qed.

Lemma steady_bind A B (c : @Run.M num A) (k : A -> @Run.M num B) :
  Spec.steady c -> (forall a, Spec.steady (k a)) -> Spec.steady (Run.bind c k).
Proof.
  intros Hc Hk m. unfold Run.bind. specialize (Hc m).
  destruct (c m) as [[a | e] m']; simpl in *; [| exact Hc].
  eapply history_trans; [exact Hc | apply Hk].
Qed.

Lemma steady_try_catch A (c : @Run.M num A) (h : jsstring -> @Run.M num A) :
  Spec.steady c -> (forall e, Spec.steady (h e)) ->
  Spec.steady (Run.try_catch c h).
Proof.
  intros Hc Hh m. unfold Run.try_catch. specialize (Hc m).
  destruct (c m) as [[a | e] m']; simpl in *; [exact Hc |].
  eapply history_trans; [exact Hc | apply Hh].
Qed.

Lemma steady_query A (f : Store num -> A) : Spec.steady (Run.query f).
Proof. intros m. apply history_refl. Qed.

Lemma steady_attempt A (f : Store num -> Outcome A) :
  Spec.steady (Run.attempt f).
Proof. intros m. apply history_refl. Qed.

Lemma steady_exec (f : Store num -> Store num) :
  (forall st, Spec.history_evolves (messages st) (messages (f st))) ->
  Spec.steady (Run.exec f).
Proof. intros H m. apply H. Qed.

Lemma steady_log (line : LogLine) : Spec.steady (Run.log (num := num) line).
Proof. intros m. apply history_refl. Qed.

Lemma steady_now : Spec.steady (Run.Date_now W).
Proof. intros m. apply history_refl. Qed.

Lemma steady_callAPI request : Spec.steady (Run.callAPI W request).
Proof.
  intros m. unfold Run.callAPI.
  destruct (completion W _ request); apply history_refl.
Qed.

Lemma steady_getEmbedding text : Spec.steady (Run.getEmbedding W text).
Proof. intros m. apply history_refl. Qed.

(** The server. *)
Lemma steady_ensureSession s : Spec.steady (Server.ensureSession W s).
Proof.
  apply steady_bind; [apply steady_now | intros t].
  apply steady_exec. intros st. rewrite insert_session_keeps.
  apply history_refl.
Qed.

Lemma steady_saveMessage s (r : Role) text :
  Spec.steady (Server.saveMessage W s r text).
Proof.
  apply steady_bind; [apply steady_now | intros t].
  apply steady_bind; [apply steady_getEmbedding | intros emb].
  apply steady_bind; [| intros _].
  - apply steady_exec. intros st. apply history_added.
  - apply steady_exec. intros st. apply history_refl.
Qed.

Lemma steady_generateSummary s : Spec.steady (Server.generateSummary W s).
Proof.
  apply steady_bind; [apply steady_query | intros rows].
  destruct (_ <? 5)%Z; [apply steady_ret |].
  apply steady_try_catch; [| intros e; apply steady_log].
  apply steady_bind; [apply steady_callAPI | intros text].
  apply steady_bind; [apply steady_now | intros t].
  apply steady_bind; [apply steady_getEmbedding | intros emb].
  apply steady_bind; [| intros _].
  - apply steady_exec. intros st. apply history_refl.
  - apply steady_bind; [| intros _; apply steady_log].
    apply steady_exec. intros st. apply mark_summarized_evolves.
Qed.

Lemma steady_chat message sessionId :
  Spec.steady (Server.chat W message sessionId).
Proof.
  apply steady_try_catch.
  - apply steady_bind; [apply steady_ensureSession | intros _].
    apply steady_bind; [apply steady_saveMessage | intros _].
    apply steady_bind; [apply steady_query | intros n].
    apply steady_bind; [| intros _].
    + destruct (Server.summary_due n);
        [apply steady_generateSummary | apply steady_ret].
    + apply steady_bind; [apply steady_query | intros context].
      apply steady_bind; [apply steady_callAPI | intros reply].
      apply steady_bind; [apply steady_saveMessage | intros _].
      apply steady_bind; [apply steady_query | intros k].
      apply steady_ret.
  - intros e. apply steady_bind; [apply steady_log | intros _].
    apply steady_ret.
Qed.

Lemma steady_search query sessionId (limit : option Z) :
  Spec.steady (Server.search W query sessionId limit).
Proof.
  apply steady_try_catch.
  - apply steady_bind; [| intros hits; apply steady_ret].
    apply steady_bind; [apply steady_getEmbedding | intros q].
    apply steady_attempt.
  - intros e. apply steady_bind; [apply steady_log | intros _].
    apply steady_ret.
Qed.
End Invariant.
End InvariantFacts.

(** C9. Under every statement of the store and under every request
    handler, each stored message keeps its id, session, role, content,
    tokens, timestamp and embedding, and its flag either stays or becomes
    1 (so a flag that is 1 stays 1); rows are only added at the end.
    Marking ids whose rows all carry the flag already changes nothing,
    and marking twice is marking once. *)
Theorem messages_only_evolve {num : Type} {NUM : Number num} :
  (forall m m' : Message num,
     Spec.evolves m m' -> is_summarized m = 1%Z -> is_summarized m' = 1%Z)
  /\
  (forall (st : Store num) (s text : jsstring) (r : Role)
          (c u tok ts i : Z) (emb : Embedded num) (ids : list Z),
     let stays st' :=
       Spec.history_evolves (messages st) (messages st') in
     stays (Db.insert_session s c u st) /\
     stays (Db.insert_message s r text tok ts emb st) /\
     stays (Db.update_session u s st) /\
     stays (Db.insert_memory s text ts emb st) /\
     stays (Db.update_message i st) /\
     stays (Db.mark_summarized ids st))
  /\
  (forall (W : World num) (message query s : jsstring)
          (sessionId : option jsstring) (limit : option Z),
     Spec.steady (Server.chat W message sessionId) /\
     Spec.steady (Server.search W query sessionId limit) /\
     Spec.steady (Server.generateSummary W s))
  /\
  (forall (ids : list Z) (st : Store num),
     (forall r, In r (messages st) -> In (id r) ids ->
                is_summarized r = 1%Z) ->
     Db.mark_summarized ids st = st)
  /\
  (forall (ids : list Z) (st : Store num),
     Db.mark_summarized ids (Db.mark_summarized ids st)
     = Db.mark_summarized ids st).
Proof.
  split; [| split; [| split; [| split]]].
  - intros m m' (_ & _ & _ & _ & _ & _ & _ & [H | H]) H1; congruence.
  - intros st s text r c u tok ts i emb ids stays. unfold stays.
    repeat split.
    + rewrite InvariantFacts.insert_session_keeps.
      apply InvariantFacts.history_refl.
    + apply InvariantFacts.history_added.
    + apply InvariantFacts.history_refl.
    + apply InvariantFacts.history_refl.
    + apply InvariantFacts.history_kept, MarkFacts.mark_first_evolves.
    + apply InvariantFacts.mark_summarized_evolves.
  - intros W message query s sessionId limit. repeat split.
    + apply InvariantFacts.steady_chat.
    + apply InvariantFacts.steady_search.
    + apply InvariantFacts.steady_generateSummary.
  - intros ids st H. rewrite MarkFacts.mark_summarized_rows.
    rewrite MarkFacts.mark_rows_settled; [now destruct st |].
    intros i Hi. apply MarkFacts.find_in_flagged.
    intros r Hr <-. now apply H.
  - intros ids st. rewrite !MarkFacts.mark_summarized_rows. simpl.
    f_equal. apply MarkFacts.mark_rows_settled.
    intros i Hi. now apply MarkFacts.mark_rows_settles.
Qed.

(* ------------------------------------------------------------------ *)
(** ** Running a turn *)

Module TurnFacts.
Section Turn.
Context {num : Type} {NUM : Number num}.
Variable W : World num.
Implicit Types (m : Machine num) (s : jsstring) (st : Store num).

Lemma ensureSession_run s m :
  Server.ensureSession W s m
  = (Return tt,
     mkMachine
       (Db.insert_session s (now W (clock_reads m)) (now W (clock_reads m))
          (store m))
       (S (clock_reads m)) (completion_calls m) (embedding_calls m)
       (console m)).
Proof. reflexivity. Qed.

Lemma saveMessage_run s (r : Role) text m :
  Server.saveMessage W s r text m
  = (Return tt,
     mkMachine
       (Db.update_session (now W (clock_reads m)) s
          (Db.insert_message s r text (Server.estimateTokens text)
             (now W (clock_reads m))
             (Run.embedding_of W (embedding_calls m) text) (store m)))
       (S (clock_reads m)) (completion_calls m) (S (embedding_calls m))
       (console m)).
Proof. reflexivity. Qed.

Lemma received_run message s m :
  Spec.received W message s m
  = snd (Server.saveMessage W s user message
           (snd (Server.ensureSession W s m))).
Proof. reflexivity. Qed.

Lemma count_insert_session s s' (c u : Z) st :
  Server.getMessageCount s (Db.insert_session s' c u st)
  = Server.getMessageCount s st.
Proof.
  unfold Server.getMessageCount, Db.count_messages.
  now rewrite InvariantFacts.insert_session_keeps.
Qed.

Lemma count_after_save s (r : Role) text m :
  Server.getMessageCount s (store (snd (Server.saveMessage W s r text m)))
  = (Server.getMessageCount s (store m) + 1)%Z.
Proof.
  rewrite saveMessage_run. simpl.
  unfold Server.getMessageCount, Db.count_messages. simpl.
  rewrite filter_app, length_app. simpl.
  unfold Db.unsummarized at 2, Db.in_session. simpl.
  rewrite ReadFacts.eqb_refl. simpl. lia.
Qed.

Lemma count_nonneg s st : (0 <= Server.getMessageCount s st)%Z.
Proof. unfold Server.getMessageCount, Db.count_messages. lia. Qed.

Lemma count_received message s m :
  Server.getMessageCount s (store (Spec.received W message s m))
  = (Server.getMessageCount s (store m) + 1)%Z.
Proof.
  rewrite received_run, count_after_save, ensureSession_run. simpl.
  now rewrite count_insert_session.
Qed.

Lemma memories_received message s m :
  memories (store (Spec.received W message s m)) = memories (store m).
Proof.
  rewrite received_run, saveMessage_run, ensureSession_run. simpl.
  unfold Db.insert_session. now destruct (Db.has_session s _).
Qed.


Lemma odd_never_due (count : Z) :
  Z.odd count = true -> Server.summary_due count = false.
Proof.
  intros Hodd. unfold Server.summary_due, Config.SUMMARY_TRIGGER_ROUNDS.
  destruct (Z.gtb_spec count 0) as [Hpos |]; [| reflexivity].
  simpl. apply Z.eqb_neq. rewrite Z.rem_mod_nonneg by lia.
  intros H0. rewrite Zodd_mod in Hodd. apply Z.eqb_eq in Hodd.
  pose proof (Z.div_mod count 10 ltac:(lia)) as Hd.
  rewrite H0 in Hd.
  assert (count mod 2 = 0)%Z; [| lia].
  rewrite Hd, Z.add_0_r.
  replace (10 * (count / 10))%Z with ((5 * (count / 10)) * 2)%Z by lia.
  apply Z.mod_mul. lia.
Qed.

Lemma generateSummary_returns s m :
  fst (Server.generateSummary W s m) = Return tt.
Proof.
  unfold Server.generateSummary, Run.bind, Run.query.
  destruct (_ <? 5)%Z; [reflexivity |].
  unfold Run.try_catch, Server.summarize, Run.bind, Run.callAPI.
  destruct (completion W _ _); reflexivity.
Qed.

Lemma bind_received B (k : @Run.M num B) message s m :
  Run.bind (Server.ensureSession W s)
    (fun _ => Run.bind (Server.saveMessage W s user message) (fun _ => k)) m
  = k (Spec.received W message s m).
Proof. reflexivity. Qed.

(** The turn, once the request has been received. *)
Lemma chat_turn_run message s m :
  Server.chat_turn W message s m
  = let m1 := Spec.received W message s m in
    let count := Server.getMessageCount s (store m1) in
    Server.respond W s count
      (if Server.summary_due count
       then snd (Server.generateSummary W s m1) else m1).
Proof.
  cbv zeta. unfold Server.chat_turn. rewrite bind_received.
  generalize (Spec.received W message s m). intros m1.
  unfold Run.bind at 1. unfold Run.query at 1. cbn iota.
  destruct (Server.summary_due _); [| reflexivity].
  unfold Run.bind at 1.
  pose proof (generateSummary_returns s m1) as Hr.
  destruct (Server.generateSummary W s m1) as [[[] | e] m2]; simpl in Hr;
    [reflexivity | discriminate].
Qed.

Lemma respond_answered s (count : Z) m (reply : jsstring) :
  completion W (completion_calls m) (Server.buildContext s (store m))
  = Answer reply ->
  exists total ltm rounds,
    Server.respond W s count m
    = (Return (ChatOk reply total ltm rounds),
       snd (Server.saveMessage W s assistant reply
              (mkMachine (store m) (clock_reads m) (S (completion_calls m))
                         (embedding_calls m) (console m)))).
Proof.
  intros H. unfold Server.respond, Run.bind, Run.query, Run.callAPI.
  rewrite H. rewrite saveMessage_run. cbn [fst snd].
  eexists _, _, _. reflexivity.
Qed.
End Turn.
End TurnFacts.

(* ------------------------------------------------------------------ *)
(** ** The summarization trigger *)


(** C3. When the completion call of a pass fails, [generateSummary]
    returns normally and leaves the tables as they were: no summary is
    stored, no flag is changed; only the console has one more line (and
    the endpoint has been called once). The turn that triggered the pass
    goes on: when its own completion call is answered, the handler
    replies with that answer and appends it as the assistant's message. *)
Theorem failed_summary_is_harmless
        {num : Type} {NUM : Number num} (W : World num)
        (s e : jsstring) (m : Machine num) :
  (5 <= length (Spec.batch s m))%nat ->
  completion W (completion_calls m)
             (Server.summaryMessages (Spec.batch s m)) = Failure e ->
  Server.generateSummary W s m
  = (Return tt,
     mkMachine (store m) (clock_reads m) (S (completion_calls m))
               (embedding_calls m) (console m ++ [SummaryFailed e]))
  /\
  (forall (message reply : jsstring) (m0 : Machine num),
     m = Spec.received W message s m0 ->
     Server.summary_due (Server.getMessageCount s (store m)) = true ->
     completion W (S (completion_calls m))
                (Server.buildContext s (store m)) = Answer reply ->
     exists total ltm rounds m' a,
       Server.chat W message (Some s) m0
       = (Return (ChatOk reply total ltm rounds), m') /\
       memories (store m') = memories (store m) /\
       messages (store m') = messages (store m) ++ [a] /\
       role a = assistant /\ content a = reply /\ is_summarized a = 0%Z).
Proof.
  intros H5 Hfail.
  pose proof (PassFacts.pass_failed W s m H5 Hfail) as Hpass.
  split; [exact Hpass |].
  intros message reply m0 Hm Hdue Hreply.
  unfold Server.chat, Run.try_catch.
  rewrite TurnFacts.chat_turn_run. cbv zeta. rewrite <- Hm, Hdue, Hpass.
  cbn [snd].
  destruct (TurnFacts.respond_answered W s
              (Server.getMessageCount s (store m))
              (mkMachine (store m) (clock_reads m) (S (completion_calls m))
                         (embedding_calls m)
                         (console m ++ [SummaryFailed e]))
              Hreply) as (total & ltm & rounds & Hrun).
  rewrite Hrun, TurnFacts.saveMessage_run. cbn [snd].
  eexists total, ltm, rounds, _, _.
  split; [reflexivity |]. simpl. repeat split.
Qed.

(* ------------------------------------------------------------------ *)
(** ** Round trips on a fresh session *)

Module RoundTripFacts.
Section RoundTrips.
Context {num : Type} {NUM : Number num}.
Variable W : World num.
Hypothesis answers : Spec.always_answers W.
Implicit Types (m : Machine num) (s : jsstring).

(** A turn that starts on an even count checks the trigger on an odd
    one: no pass is run, and the turn adds two messages. *)
Lemma turn_on_even message s m :
  Z.even (Server.getMessageCount s (store m)) = true ->
  exists r m',
    Server.chat W message (Some s) m = (Return r, m') /\
    Spec.is_ok r = true /\
    memories (store m') = memories (store m) /\
    Server.getMessageCount s (store m')
    = (Server.getMessageCount s (store m) + 2)%Z.
Proof.
  intros Heven.
  unfold Server.chat, Run.try_catch.
  rewrite TurnFacts.chat_turn_run. cbv zeta.
  pose proof (TurnFacts.count_received W message s m) as Hcount.
  pose proof (TurnFacts.memories_received W message s m) as Hmem.
  set (m1 := Spec.received W message s m) in *.
  rewrite TurnFacts.odd_never_due
    by (rewrite Hcount, Z.add_1_r, Z.odd_succ; exact Heven).
  destruct (answers (completion_calls m1)
                    (Server.buildContext s (store m1))) as [reply Hreply].
  destruct (TurnFacts.respond_answered W s
              (Server.getMessageCount s (store m1)) m1 Hreply)
    as (total & ltm & rounds & Hrun).
  rewrite Hrun. eexists _, _. split; [reflexivity |].
  split; [reflexivity |]. split.
  - rewrite TurnFacts.saveMessage_run. simpl. exact Hmem.
  - rewrite TurnFacts.count_after_save. cbn [store]. lia.
Qed.

Lemma turns_on_even s (inbox : list jsstring) m :
  Z.even (Server.getMessageCount s (store m)) = true ->
  exists rs m',
    Server.chat_all W s inbox m = (Return rs, m') /\
    length rs = length inbox /\
    forallb Spec.is_ok rs = true /\
    memories (store m') = memories (store m) /\
    Server.getMessageCount s (store m')
    = (Server.getMessageCount s (store m) + 2 * Z.of_nat (length inbox))%Z.
Proof.
  revert m. induction inbox as [| message later IH]; intros m Heven.
  - exists [], m. simpl. rewrite Z.add_0_r. auto.
  - destruct (turn_on_even message s m Heven)
      as (r & m1 & Hrun & Hok & Hmem & Hcount).
    destruct (IH m1) as (rs & m2 & Hrun2 & Hlen & Hoks & Hmem2 & Hcount2).
    { rewrite Hcount, Z.even_add, Heven. reflexivity. }
    exists (r :: rs), m2. simpl.
    unfold Run.bind at 1. rewrite Hrun.
    unfold Run.bind at 1. rewrite Hrun2.
    split; [reflexivity |]. split; [simpl; now rewrite Hlen |].
    split; [simpl; now rewrite Hok, Hoks |].
    split; [congruence |].
    rewrite Hcount2, Hcount. simpl length. lia.
Qed.
End RoundTrips.
End RoundTripFacts.

(** C1 (what the code does). However many requests a session that
    starts with no unsummarized message sends, each answered by the
    completion endpoint, every round trip succeeds, no long-term memory is
    stored, and the count of unsummarized messages is twice the number of
    round trips: the trigger reads the count after the user's message,
    where it is odd, and so never fires. *)
Theorem trigger_never_fires
        {num : Type} {NUM : Number num} (W : World num)
        (s : jsstring) (inbox : list jsstring) (m : Machine num) :
  Spec.always_answers W ->
  Server.getMessageCount s (store m) = 0%Z ->
  exists replies m',
    Server.chat_all W s inbox m = (Return replies, m') /\
    length replies = length inbox /\
    forallb Spec.is_ok replies = true /\
    memories (store m') = memories (store m) /\
    Server.getMessageCount s (store m')
    = (2 * Z.of_nat (length inbox))%Z.
Proof.
  intros Hans H0.
  destruct (RoundTripFacts.turns_on_even Hans s inbox m)
    as (rs & m' & Hrun & Hlen & Hok & Hmem & Hcount).
  { now rewrite H0. }
  exists rs, m'. rewrite H0 in Hcount. auto.
Qed.

(* ------------------------------------------------------------------ *)
(** ** The fallback embedding *)

Module EmbeddingFacts.
Section AnyArithmetic.
Context {num : Type} {NUM : Number num}.
Implicit Types (vector : list num) (text : jsstring).

Lemma increment_length i vector :
  length (Embedding.increment i vector) = length vector.
Proof.
  revert i. induction vector as [| v vector IH]; intros [| i]; simpl;
    auto.
Qed.

Lemma increment_here i vector d :
  (i < length vector)%nat ->
  nth i (Embedding.increment i vector) d = Embedding.bump (nth i vector d).
Proof.
  revert i. induction vector as [| v vector IH]; intros [| i]; simpl;
    try lia; auto.
  intros H. apply IH. lia.
Qed.

Lemma increment_elsewhere i b vector d :
  b <> i -> nth b (Embedding.increment i vector) d = nth b vector d.
Proof.
  revert i b. induction vector as [| v vector IH]; intros [| i] [| b] H;
    simpl; auto; try contradiction.
Qed.

Lemma fold_step_length text vector :
  length (fold_left Embedding.step text vector) = length vector.
Proof.
  revert vector. induction text as [| c text IH]; intros vector; simpl;
    [reflexivity |].
  rewrite IH. apply increment_length.
Qed.

Lemma bucket_in_range (c : N) : (N.to_nat (c mod 128) < 128)%nat.
Proof.
  pose proof (N.mod_lt c 128 ltac:(discriminate)). lia.
Qed.

(** After the loop, bucket [b] has been bumped once per occurrence. *)
Lemma fold_step_bucket text vector b d :
  length vector = 128%nat -> (b < 128)%nat ->
  nth b (fold_left Embedding.step text vector) d
  = Nat.iter (Embedding.occurrences b text) Embedding.bump (nth b vector d).
Proof.
  revert vector. induction text as [| c text IH]; intros vector Hlen Hb.
  - reflexivity.
  - simpl fold_left.
    rewrite IH; [| unfold Embedding.step; now rewrite increment_length | exact Hb].
    unfold Embedding.occurrences, Embedding.step. simpl map. simpl count_occ.
    destruct (Nat.eq_dec (N.to_nat (c mod 128)) b) as [E | E].
    + rewrite E, increment_here by lia.
      now rewrite <- Nat.iter_succ_r.
    + rewrite increment_elsewhere by congruence. reflexivity.
Qed.

Lemma nth_map_seq (f : nat -> num) (n b : nat) (d : num) :
  (b < n)%nat -> nth b (map f (seq 0 n)) d = f b.
Proof.
  intros H.
  rewrite (nth_indep _ d (f 0%nat)) by (rewrite length_map, length_seq; lia).
  rewrite map_nth. now rewrite seq_nth.
Qed.

Lemma histogram_length text : length (Embedding.histogram text) = 128%nat.
Proof.
  unfold Embedding.histogram.
  now rewrite fold_step_length, repeat_length.
Qed.

Lemma histogram_counts text :
  Embedding.histogram text = Embedding.histogram_spec text.
Proof.
  apply nth_ext with (d := js_zero) (d' := js_zero).
  - rewrite histogram_length. unfold Embedding.histogram_spec.
    now rewrite length_map, length_seq.
  - rewrite histogram_length. intros b Hb.
    unfold Embedding.histogram.
    rewrite fold_step_bucket by (auto using repeat_length).
    rewrite nth_repeat.
    unfold Embedding.histogram_spec.
    now rewrite nth_map_seq by exact Hb.
Qed.

Lemma simpleEmbedding_length text :
  length (Embedding.simpleEmbedding text) = 128%nat.
Proof.
  unfold Embedding.simpleEmbedding. now rewrite length_map, histogram_length.
Qed.

Lemma histogram_empty : Embedding.histogram [] = repeat js_zero 128.
Proof. reflexivity. Qed.
End AnyArithmetic.
End EmbeddingFacts.

Module ExactFacts.
Local Open Scope R_scope.

Ltac exact_ops :=
  cbn [js_add js_sub js_mul js_div js_sqrt js_zero js_one js_nan
       js_truthy js_pos Exact] in *.

Lemma fold_left_sumsq (v : list R) (a : R) :
  fold_left (fun sum val => sum + val * val) v a = a + Spec.sumsq v.
Proof.
  revert a. induction v as [| x v IH]; intros a; simpl; [ring |].
  rewrite IH. ring.
Qed.

Lemma magnitude_exact (v : list R) :
  Embedding.magnitude v = sqrt (Spec.sumsq v).
Proof.
  unfold Embedding.magnitude. exact_ops.
  rewrite fold_left_sumsq. f_equal. ring.
Qed.

Lemma norm_spec_exact (v : list R) :
  Embedding.norm_spec v = sqrt (Spec.sumsq v).
Proof. reflexivity. Qed.

Lemma sumsq_nonneg (v : list R) : 0 <= Spec.sumsq v.
Proof.
  induction v as [| x v IH]; simpl; [lra |].
  pose proof (Rle_0_sqr x) as Hx. unfold Rsqr in Hx. lra.
Qed.

Lemma sumsq_zeros (n : nat) : Spec.sumsq (repeat 0 n) = 0.
Proof. induction n as [| n IH]; simpl; [reflexivity | rewrite IH; ring]. Qed.

Lemma truthy_exact (x : R) : js_truthy x = false <-> x = 0.
Proof. exact_ops. destruct (Req_dec_T x 0); split; congruence. Qed.

Lemma over_one (v : list R) : map (fun x => x / 1) v = v.
Proof.
  rewrite <- (map_id v) at 2. apply map_ext. intros x. field.
Qed.

Lemma divisor_nonzero (v : list R) : Embedding.divisor v <> 0.
Proof.
  unfold Embedding.divisor.
  destruct (js_truthy (Embedding.magnitude v)) eqn:E; exact_ops.
  - destruct (Req_dec_T (Embedding.magnitude v) 0); [discriminate | assumption].
  - lra.
Qed.

Lemma simpleEmbedding_exact (text : jsstring) :
  Embedding.simpleEmbedding (num := R) text = Embedding.fallback_spec text.
Proof.
  unfold Embedding.simpleEmbedding, Embedding.fallback_spec,
    Embedding.divisor.
  rewrite <- EmbeddingFacts.histogram_counts.
  rewrite magnitude_exact, norm_spec_exact.
  destruct (js_truthy (sqrt (Spec.sumsq (Embedding.histogram text))));
    [reflexivity |].
  exact_ops. apply over_one.
Qed.

Lemma simpleEmbedding_empty_exact :
  Embedding.simpleEmbedding (num := R) [] = repeat 0 128.
Proof.
  unfold Embedding.simpleEmbedding, Embedding.divisor.
  rewrite EmbeddingFacts.histogram_empty, magnitude_exact.
  exact_ops. rewrite sumsq_zeros, sqrt_0.
  destruct (Req_dec_T 0 0); [| congruence].
  apply over_one.
Qed.
End ExactFacts.

(* ------------------------------------------------------------------ *)
(** ** Cosine similarity *)

Module CosineFacts.
Section AnyArithmetic.
Context {num : Type} {NUM : Number num}.
Hypothesis mul_comm : forall x y : num, js_mul x y = js_mul y x.


End AnyArithmetic.


Section Self.
Context {num : Type} {NUM : Number num}.



End Self.
End CosineFacts.

(** C4, as stated, fails on a character outside the Basic Multilingual
    Plane. The text made of the one code point U+1F600 is the two code
    units D83D DE00; the loop increments bucket 61 and bucket 0, the
    claim's function bucket 0 alone. *)
Lemma astral_character_counts_twice :
  let text := flat_map JsString.units_of_point [128512%N] in
  text = [55357; 56832]%N /\
  nth 61 (Embedding.simpleEmbedding (num := float) text) 0%float
  = 0x1.6a09e667f3bccp-1%float /\
  nth 61 (Embedding.fallback_by_code_point (num := float) [128512%N]) 0%float
  = 0%float /\
  Embedding.simpleEmbedding (num := float) text
  <> Embedding.fallback_by_code_point [128512%N].
Proof.
  cbv zeta. split; [reflexivity |].
  split; [vm_compute; reflexivity |].
  split; [vm_compute; reflexivity |].
  intros H.
  apply (f_equal (fun v => PrimFloat.eqb (nth 61 v 0%float) 0%float)) in H.
  vm_compute in H. discriminate.
Qed.

(** C4 (as amended). In any arithmetic, the vector the loop of [simpleEmbedding]
    builds has 128 buckets, bucket [b] having been incremented once per
    UTF-16 code unit of the text that is [b] modulo 128, and the result
    is that vector divided entry by entry by [magnitude || 1], which in
    exact arithmetic is never zero. In exact arithmetic the result is the
    histogram divided by its Euclidean norm, and the histogram itself
    when the norm is zero. The embedding is a function of the text alone.
    On the empty string it is the zero vector of length 128, in exact
    arithmetic and in binary64, where no entry is NaN. *)
Theorem fallback_embedding_is_normalised_histogram :
  (forall (num : Type) (NUM : Number num) (text : jsstring),
     Embedding.histogram text = Embedding.histogram_spec text /\
     length (Embedding.simpleEmbedding text) = 128%nat /\
     Embedding.simpleEmbedding text
     = map (fun v => js_div v (Embedding.divisor (Embedding.histogram text)))
           (Embedding.histogram text))
  /\
  (forall text : jsstring,
     Embedding.simpleEmbedding (num := R) text = Embedding.fallback_spec text
     /\ Embedding.divisor (num := R) (Embedding.histogram text) <> 0%R)
  /\
  (forall (num : Type) (NUM : Number num) (text1 text2 : jsstring),
     text1 = text2 ->
     Embedding.simpleEmbedding text1 = Embedding.simpleEmbedding text2)
  /\ Embedding.simpleEmbedding (num := R) [] = repeat 0%R 128
  /\ Embedding.simpleEmbedding (num := float) [] = repeat 0%float 128
  /\ forallb (fun x => PrimFloat.eqb x x)
             (Embedding.simpleEmbedding (num := float) []) = true.
Proof.
  split; [| split; [| split; [| split; [| split]]]].
  - intros num NUM text. split; [apply EmbeddingFacts.histogram_counts |].
    split; [apply EmbeddingFacts.simpleEmbedding_length | reflexivity].
  - intros text. split;
      [apply ExactFacts.simpleEmbedding_exact | apply ExactFacts.divisor_nonzero].
  - intros num NUM text1 text2 ->. reflexivity.
  - apply ExactFacts.simpleEmbedding_empty_exact.
  - vm_compute. reflexivity.
  - vm_compute. reflexivity.
Qed.

(** The fallback on "hello" in binary64: buckets e, h, l, o. *)
Example embedding_hello_binary64 :
  let v := Embedding.simpleEmbedding (num := float) (JsString.lit "hello") in
  nth 101 v 0%float = PrimFloat.div 1 (PrimFloat.sqrt 7) /\
  nth 104 v 0%float = PrimFloat.div 1 (PrimFloat.sqrt 7) /\
  nth 108 v 0%float = PrimFloat.div 2 (PrimFloat.sqrt 7) /\
  nth 111 v 0%float = PrimFloat.div 1 (PrimFloat.sqrt 7) /\
  nth 0 v 0%float = 0%float.
Proof. vm_compute. repeat split. Qed.



(* ------------------------------------------------------------------ *)
(** ** The order of doubles *)

(** The comparator of [semanticSearch] subtracts two scores and [sort]
    tests the sign of the difference. In binary64 that sign is the
    order of the two scores: a difference of two doubles is rounded,
    but never to zero unless they are equal, and never across zero. *)
Module FloatFacts.
Local Open Scope Z_scope.

(** ** Digits *)

Lemma digits_size (p : positive) : digits2_pos p = Pos.size p.
Proof. induction p; simpl; congruence. Qed.

Lemma digits_bounds (p : positive) :
  2 ^ (Z.pos (digits2_pos p) - 1) <= Z.pos p < 2 ^ Z.pos (digits2_pos p).
Proof.
  rewrite digits_size.
  pose proof (Pos.size_gt p) as Hgt. pose proof (Pos.size_le p) as Hle.
  apply Pos2Z.pos_lt_pos in Hgt. apply Pos2Z.pos_le_pos in Hle.
  rewrite Pos2Z.inj_xO in Hle. rewrite Pos2Z.inj_pow in Hgt, Hle.
  set (k := Z.pos (Pos.size p)) in *.
  assert (Hk : 2 ^ k = 2 * 2 ^ (k - 1)).
  { rewrite <- Z.pow_succ_r by (unfold k; lia). f_equal. lia. }
  lia.
Qed.

(** ** Valid finite floats *)

Lemma bounded_shape (m : positive) (e : Z) :
  SpecFloat.bounded prec emax m e = true ->
  emin <= e /\ Z.pos (digits2_pos m) <= prec /\
  (emin < e -> Z.pos (digits2_pos m) = prec).
Proof.
  unfold SpecFloat.bounded, canonical_mantissa, fexp. intros H.
  apply andb_prop in H as [H _]. apply Z.eqb_eq in H. lia.
Qed.

(** ** Shifts *)

Lemma iter_xO (m d : positive) :
  Z.pos (Pos.iter xO m d) = Z.pos m * 2 ^ Z.pos d.
Proof.
  induction d as [| d IH] using Pos.peano_ind.
  - simpl Pos.iter. rewrite Pos2Z.inj_xO. change (2 ^ 1) with 2. lia.
  - rewrite Pos.iter_succ, Pos2Z.inj_succ, Z.pow_succ_r by lia.
    rewrite Pos2Z.inj_xO, IH. lia.
Qed.

Lemma shl_align_value (m : positive) (e e' : Z) :
  e' <= e ->
  Z.pos (fst (shl_align m e e')) = Z.pos m * 2 ^ (e - e').
Proof.
  intros H. unfold shl_align.
  destruct (e' - e) as [| d | d] eqn:E; try lia.
  - replace (e - e') with 0 by lia. cbn [fst].
    now rewrite Z.pow_0_r, Z.mul_1_r.
  - cbn [fst]. rewrite iter_xO. f_equal. f_equal. lia.
Qed.

Lemma shr_1_half (r : shr_record) :
  0 <= shr_m r -> shr_m (shr_1 r) = shr_m r / 2.
Proof.
  destruct r as [m r s]. cbn [shr_m]. intros H.
  destruct m as [| [p | p |] | p]; unfold shr_1; cbn [shr_m];
    try reflexivity; try lia.
  - rewrite Pos2Z.inj_xI. apply Z.div_unique with 1; lia.
  - rewrite Pos2Z.inj_xO. apply Z.div_unique with 0; lia.
Qed.

Lemma iter_pos_iter (A : Type) (f : A -> A) (n : positive) (x : A) :
  SpecFloat.iter_pos f n x = Pos.iter f x n.
Proof.
  revert x. induction n as [n IH | n IH |]; intros x; simpl.
  - now rewrite !IH, !Pos.iter_swap.
  - now rewrite !IH.
  - reflexivity.
Qed.

Lemma iter_shr_1 (r : shr_record) (q : positive) :
  0 <= shr_m r ->
  shr_m (SpecFloat.iter_pos shr_1 q r) = shr_m r / 2 ^ Z.pos q.
Proof.
  intros H. rewrite iter_pos_iter.
  induction q as [| q IH] using Pos.peano_ind.
  - simpl. rewrite shr_1_half by exact H. reflexivity.
  - rewrite Pos.iter_succ, shr_1_half, IH.
    + rewrite Pos2Z.inj_succ, Z.pow_succ_r by lia.
      rewrite Z.div_div by lia. f_equal. lia.
    + rewrite IH. apply Z.div_pos; lia.
Qed.

(** ** Rounding keeps a positive mantissa positive *)

Lemma shr_fexp_positive (p : positive) (e : Z) (l : location) :
  emin <= e ->
  exists p', shr_m (fst (shr_fexp prec emax (Z.pos p) e l)) = Z.pos p' /\
             emin <= snd (shr_fexp prec emax (Z.pos p) e l).
Proof.
  intros He. unfold shr_fexp, shr.
  cbn [Zdigits2].
  pose proof (digits_bounds p) as [Hlo Hhi].
  set (d := Z.pos (digits2_pos p)) in *.
  assert (Hm : shr_m (shr_record_of_loc (Z.pos p) l) = Z.pos p)
    by (destruct l as [| []]; reflexivity).
  destruct (fexp prec emax (d + e) - e) as [| q | q] eqn:E;
    cbn [fst snd]; try (exists p; split; [exact Hm | exact He]).
  assert (Hq : Z.pos q = d - prec) by (unfold fexp in E; lia).
  rewrite iter_shr_1 by (rewrite Hm; lia). rewrite Hm.
  assert (Hpow : 2 ^ Z.pos q <= Z.pos p).
  { apply Z.le_trans with (2 ^ (d - 1)); [| exact Hlo].
    apply Z.pow_le_mono_r; unfold prec in Hq; lia. }
  assert (0 < 2 ^ Z.pos q) by (apply Z.pow_pos_nonneg; lia).
  assert (Hdiv : 1 <= Z.pos p / 2 ^ Z.pos q)
    by (apply Z.div_le_lower_bound; lia).
  destruct (Z.pos p / 2 ^ Z.pos q) as [| p' | p'] eqn:E'; try lia.
  exists p'. split; [reflexivity | lia].
Qed.

Lemma round_positive (p : positive) (l : location) :
  exists p', round_nearest_even (Z.pos p) l = Z.pos p'.
Proof.
  unfold round_nearest_even.
  destruct l as [| []]; try destruct (Z.even _);
    try (exists p; reflexivity); exists (p + 1)%positive; reflexivity.
Qed.

Lemma round_aux_signed (s : bool) (p : positive) (e : Z) (l : location) :
  emin <= e -> Ieee.signed s (binary_round_aux prec emax s (Z.pos p) e l).
Proof.
  intros He. unfold binary_round_aux.
  destruct (@shr_fexp_positive p e l He) as (p1 & H1 & He1).
  destruct (shr_fexp prec emax (Z.pos p) e l) as [mrs1 e1].
  cbn [fst snd] in H1, He1. rewrite H1.
  destruct (round_positive p1 (loc_of_shr_record mrs1)) as (p2 & ->).
  destruct (@shr_fexp_positive p2 e1 loc_Exact He1) as (p3 & H3 & _).
  destruct (shr_fexp prec emax (Z.pos p2) e1 loc_Exact) as [mrs2 e2].
  cbn [fst] in H3. rewrite H3.
  destruct (e2 <=? emax - prec); reflexivity.
Qed.

Lemma round_signed (s : bool) (m : positive) (e : Z) :
  emin <= e -> Ieee.signed s (binary_round prec emax s m e).
Proof.
  intros He. unfold binary_round.
  destruct (shl_align m e _) as [mz ez] eqn:E.
  apply round_aux_signed.
  unfold shl_align in E.
  destruct (fexp prec emax (Z.pos (digits2_pos m) + e) - e) eqn:E';
    injection E as <- <-; unfold fexp in *; lia.
Qed.


(** ** The order of valid finite floats *)

Lemma lower_exponent (m1 m2 : positive) (e1 e2 : Z) :
  SpecFloat.bounded prec emax m1 e1 = true -> SpecFloat.bounded prec emax m2 e2 = true ->
  e1 < e2 -> Z.pos m1 < Z.pos m2 * 2 ^ (e2 - e1).
Proof.
  intros H1 H2 He.
  destruct (@bounded_shape m1 e1 H1) as (Hmin1 & Hd1 & _).
  destruct (@bounded_shape m2 e2 H2) as (_ & _ & Hd2).
  specialize (Hd2 ltac:(lia)).
  pose proof (digits_bounds m1) as [_ Hhi].
  pose proof (digits_bounds m2) as [Hlo _]. rewrite Hd2 in Hlo.
  assert (Z.pos m1 < 2 ^ prec).
  { apply Z.lt_le_trans with (1 := Hhi). apply Z.pow_le_mono_r; lia. }
  assert (2 ^ 1 <= 2 ^ (e2 - e1)) by (apply Z.pow_le_mono_r; lia).
  change (2 ^ 1) with 2 in *.
  assert (2 ^ prec = 2 * 2 ^ (prec - 1)) by reflexivity.
  nia.
Qed.

Lemma difference_sign (sx sy : bool) (mx my : positive) (ex ey : Z) :
  SpecFloat.bounded prec emax mx ex = true -> SpecFloat.bounded prec emax my ey = true ->
  let ez := Z.min ey ex in
  (0 <? Ieee.aligned sy my ey ez - Ieee.aligned sx mx ex ez)
  = SFltb (S754_finite sx mx ex) (S754_finite sy my ey).
Proof.
  intros Hx Hy ez. unfold Ieee.aligned.
  rewrite !shl_align_value by (unfold ez; lia).
  unfold SFltb, SFcompare.
  change (Pos.compare_cont Eq mx my) with (Pos.compare mx my).
  assert (Hpx : 0 < 2 ^ (ex - ez)) by (apply Z.pow_pos_nonneg; unfold ez; lia).
  assert (Hpy : 0 < 2 ^ (ey - ez)) by (apply Z.pow_pos_nonneg; unfold ez; lia).
  destruct (Z.compare_spec ex ey) as [E | E | E].
  - subst ey. replace (ex - ez) with 0 in * by (unfold ez; lia).
    rewrite Z.pow_0_r, !Z.mul_1_r.
    rewrite (Pos.compare_antisym my mx).
    destruct (Pos.compare_spec my mx) as [E | E | E];
      destruct sx, sy; cbn [cond_Zopp CompOpp]; cbv beta iota;
      match goal with |- (0 <? ?M) = _ => destruct (Z.ltb_spec 0 M) end;
      try reflexivity; exfalso; lia.
  - pose proof (@lower_exponent mx my ex ey Hx Hy E) as H.
    replace (ex - ez) with 0 by (unfold ez; lia).
    replace (ey - ez) with (ey - ex) by (unfold ez; lia).
    rewrite Z.pow_0_r, Z.mul_1_r.
    destruct sx, sy; cbn [cond_Zopp CompOpp]; cbv beta iota;
      match goal with |- (0 <? ?M) = _ => destruct (Z.ltb_spec 0 M) end;
      try reflexivity; exfalso; lia.
  - pose proof (@lower_exponent my mx ey ex Hy Hx E) as H.
    replace (ey - ez) with 0 by (unfold ez; lia).
    replace (ex - ez) with (ex - ey) by (unfold ez; lia).
    rewrite Z.pow_0_r, Z.mul_1_r.
    destruct sx, sy; cbn [cond_Zopp CompOpp]; cbv beta iota;
      match goal with |- (0 <? ?M) = _ => destruct (Z.ltb_spec 0 M) end;
      try reflexivity; exfalso; lia.
Qed.

Lemma normalize_sign (m e : Z) :
  emin <= e ->
  SFltb (S754_zero false) (binary_normalize prec emax m e false) = (0 <? m).
Proof.
  intros He. unfold binary_normalize. destruct m as [| p | p].
  - reflexivity.
  - pose proof (@round_signed false p e He) as H.
    destruct (binary_round prec emax false p e); simpl in H;
      try contradiction; subst; reflexivity.
  - unfold binary_round. destruct (shl_align p e _) as [mz ez'].
    unfold binary_round_aux.
    destruct (shr_fexp prec emax (Z.pos mz) ez' loc_Exact) as [mrs1 e1].
    destruct (shr_fexp prec emax _ e1 loc_Exact) as [mrs2 e2].
    destruct (shr_m mrs2); try reflexivity.
    destruct (e2 <=? emax - prec); reflexivity.
Qed.

(** The sign of a difference is the order of its terms. *)
Lemma sub_sign (X Y : spec_float) :
  valid_binary X = true -> valid_binary Y = true ->
  SFltb (S754_zero false) (SF64sub Y X) = SFltb X Y.
Proof.
  intros HX HY.
  destruct X as [sx | sx | | sx mx ex], Y as [sy | sy | | sy my ey];
    try reflexivity;
    try (destruct sx; reflexivity);
    try (destruct sy; reflexivity);
    try (destruct sx, sy; reflexivity).
  unfold SF64sub, SFsub. cbv zeta.
  simpl in HX, HY.
  rewrite normalize_sign.
  - apply (@difference_sign sx sy mx my ex ey HX HY).
  - destruct (@bounded_shape mx ex HX) as [? _], (@bounded_shape my ey HY) as [? _]. lia.
Qed.

(** ** The order of floats *)

Lemma compare_swap (X Y : spec_float) :
  SFcompare Y X = option_map CompOpp (SFcompare X Y).
Proof.
  destruct X as [sx | sx | | sx mx ex], Y as [sy | sy | | sy my ey];
    try reflexivity;
    try (destruct sx; reflexivity);
    try (destruct sy; reflexivity);
    try (destruct sx, sy; reflexivity).
  unfold SFcompare, option_map.
  change (Pos.compare_cont Eq my mx) with (Pos.compare my mx).
  change (Pos.compare_cont Eq mx my) with (Pos.compare mx my).
  rewrite (Z.compare_antisym ex ey), (Pos.compare_antisym mx my).
  destruct sx, sy, (ex ?= ey), (mx ?= my)%positive; reflexivity.
Qed.

Lemma compare_numbers (X Y : spec_float) :
  Ieee.defined X -> Ieee.defined Y -> exists c, SFcompare X Y = Some c.
Proof.
  unfold Ieee.defined. destruct X, Y; simpl; eauto; congruence.
Qed.

(** [>=] is transitive. *)
Lemma not_below_trans (X Y Z : spec_float) :
  Ieee.defined Y ->
  SFltb X Y = false -> SFltb Y Z = false -> SFltb X Z = false.
Proof.
  unfold Ieee.defined, SFltb. intros HY.
  destruct X as [sx | sx | | sx mx ex]; try reflexivity;
  destruct Z as [sz | sz | | sz mz ez];
    try (destruct Y as [sy | sy | | sy my ey]; simpl;
         repeat match goal with s : bool |- _ => destruct s end;
         simpl; congruence);
  destruct Y as [sy | sy | | sy my ey]; try congruence; unfold SFcompare;
    repeat match goal with s : bool |- _ => destruct s end;
    try congruence;
    change (Pos.compare_cont Eq) with Pos.compare;
    repeat match goal with
           | |- context [(?a ?= ?b)%Z] => destruct (Z.compare_spec a b)
           | |- context [(?a ?= ?b)%positive] =>
             destruct (Pos.compare_spec a b)
           end;
    simpl; try congruence; try lia.
Qed.

Lemma compare_finite s m e :
  SFcompare (S754_finite s m e) (S754_finite s m e) = Some Eq.
Proof.
  simpl. destruct s; rewrite Z.compare_refl;
    try rewrite Pos.compare_cont_refl; reflexivity.
Qed.

Lemma number_defined (x : float) :
  Ieee.number x <-> Ieee.defined (Prim2SF x).
Proof.
  unfold Ieee.number, Ieee.defined. rewrite FloatAxioms.eqb_spec.
  unfold SFeqb.
  destruct (Prim2SF x) as [s | s | | s m e].
  - split; [discriminate | reflexivity].
  - destruct s; (split; [discriminate | reflexivity]).
  - split; [discriminate | congruence].
  - rewrite compare_finite. split; [discriminate | reflexivity].
Qed.

(** [0 < y - x] exactly when [x < y], for all doubles. *)
Lemma ltb_sub (x y : float) :
  PrimFloat.ltb 0 (PrimFloat.sub y x) = PrimFloat.ltb x y.
Proof.
  rewrite !FloatAxioms.ltb_spec, FloatAxioms.sub_spec.
  change (Prim2SF 0) with (S754_zero false).
  apply sub_sign; apply Prim2SF_valid.
Qed.

Lemma ltb_asym (x y : float) :
  PrimFloat.ltb x y = true -> PrimFloat.ltb y x = false.
Proof.
  rewrite !FloatAxioms.ltb_spec. unfold SFltb.
  rewrite (compare_swap (Prim2SF x) (Prim2SF y)).
  destruct (SFcompare (Prim2SF x) (Prim2SF y)) as [[] |];
    simpl; congruence.
Qed.

Lemma ltb_cut (x y z : float) :
  Ieee.number y -> PrimFloat.ltb x z = true ->
  PrimFloat.ltb x y = true \/ PrimFloat.ltb y z = true.
Proof.
  intros Hy Hxz. apply number_defined in Hy.
  rewrite !FloatAxioms.ltb_spec in *.
  destruct (SFltb (Prim2SF x) (Prim2SF y)) eqn:Hxy; [now left |].
  destruct (SFltb (Prim2SF y) (Prim2SF z)) eqn:Hyz; [now right |].
  rewrite (@not_below_trans (Prim2SF x) (Prim2SF y) (Prim2SF z) Hy Hxy Hyz)
    in Hxz.
  discriminate.
Qed.

Lemma leb_of_not_ltb (x y : float) :
  Ieee.number x -> Ieee.number y ->
  PrimFloat.ltb x y = false -> PrimFloat.leb y x = true.
Proof.
  intros Hx Hy. apply number_defined in Hx, Hy.
  rewrite FloatAxioms.ltb_spec, FloatAxioms.leb_spec. unfold SFltb, SFleb.
  rewrite (compare_swap (Prim2SF x) (Prim2SF y)).
  destruct (@compare_numbers (Prim2SF x) (Prim2SF y) Hx Hy) as [c ->].
  destruct c; simpl; congruence.
Qed.

Lemma eqb_of_neither (x y : float) :
  Ieee.number x -> Ieee.number y ->
  PrimFloat.eqb y x
  = negb (PrimFloat.ltb x y) && negb (PrimFloat.ltb y x).
Proof.
  intros Hx Hy. apply number_defined in Hx, Hy.
  rewrite !FloatAxioms.ltb_spec, FloatAxioms.eqb_spec. unfold SFltb, SFeqb.
  rewrite (compare_swap (Prim2SF x) (Prim2SF y)).
  destruct (@compare_numbers (Prim2SF x) (Prim2SF y) Hx Hy) as [c ->].
  destruct c; reflexivity.
Qed.
End FloatFacts.

(* ------------------------------------------------------------------ *)
(** ** Semantic retrieval *)

Module RankFacts.
Section Ranking.
Context {num : Type} {NUM : Number num}.

Lemma in_session_iff (s : jsstring) (r : Message num) :
  Db.in_session s r = true <-> session_id r = s.
Proof. unfold Db.in_session. apply ReadFacts.eqb_eq. Qed.

(** What [map] returns when no call of the callback throws. *)
Lemma map_returned (A B : Type) (f : A -> Outcome B) (l : list A)
      (ys : list B) :
  JsArray.map_throwing f l = Return ys ->
  Forall2 (fun x y => f x = Return y) l ys.
Proof.
  revert ys. induction l as [| x l IH]; intros ys; simpl.
  - intros E. injection E as <-. constructor.
  - destruct (f x) as [y | e] eqn:Ex; [| discriminate].
    destruct (JsArray.map_throwing f l) as [zs | e]; [| discriminate].
    intros E. injection E as <-. constructor; [exact Ex | now apply IH].
Qed.

(** ... and when one does: the first error. *)
Lemma map_thrown (A B : Type) (f : A -> Outcome B) (l : list A)
      (e : jsstring) :
  JsArray.map_throwing f l = Throw e <->
  exists before x after,
    l = before ++ x :: after /\ f x = Throw e /\
    Forall (fun y => exists z, f y = Return z) before.
Proof.
  induction l as [| x l IH]; simpl.
  - split; [discriminate |]. intros ([| ? ?] & ? & ? & E & _); discriminate.
  - destruct (f x) as [y | e'] eqn:Ex.
    + destruct (JsArray.map_throwing f l) as [zs | e''].
      * split; [discriminate |].
        intros ([| b before] & x' & after & E & Hx & Hb).
        -- injection E as -> ->. congruence.
        -- injection E as -> ->.
           assert (H : Throw e = @Return (list B) zs); [| discriminate].
           symmetry. apply IH. exists before, x', after.
           split; [reflexivity |]. split; [exact Hx |]. now inversion Hb.
      * split.
        -- intros E. apply IH in E as (before & x' & after & -> & Hx & Hb).
           exists (x :: before), x', after.
           split; [reflexivity |]. split; [exact Hx |].
           constructor; [eauto | exact Hb].
        -- intros ([| b before] & x' & after & E & Hx & Hb).
           ++ injection E as -> ->. congruence.
           ++ injection E as -> ->. apply IH. exists before, x', after.
              split; [reflexivity |]. split; [exact Hx |]. now inversion Hb.
    + split.
      * intros E. injection E as ->. exists [], x, l.
        split; [reflexivity |]. split; [exact Ex | constructor].
      * intros ([| b before] & x' & after & E & Hx & Hb).
        -- injection E as -> ->. congruence.
        -- injection E as -> ->. inversion Hb as [| ? ? [z Hz] ?]. congruence.
Qed.

Lemma scored (q : Embedded num) (r : Message num) (h : SearchHit num) :
  Db.score q r = Return h <->
  hit_content h = content r /\ hit_role h = role r /\
  Embedding.cosineSimilarity_of q (embedding r) = Return (similarity h).
Proof.
  unfold Db.score.
  destruct (Embedding.cosineSimilarity_of q (embedding r)) as [x | e].
  - split.
    + intros E. injection E as <-. auto.
    + intros (Hc & Hr & Hx). destruct h as [c ro x']. simpl in *.
      injection Hx as ->. now subst.
  - split; [discriminate |]. intros (_ & _ & H). discriminate.
Qed.

Lemma related_source (A B : Type) (R : A -> B -> Prop) (l : list A)
      (l' : list B) (y : B) :
  Forall2 R l l' -> In y l' -> exists x, In x l /\ R x y.
Proof.
  induction 1 as [| x y' l l' Hxy _ IH]; intros Hin; [destruct Hin |].
  destruct Hin as [<- | Hin].
  - exists x. split; [now left | exact Hxy].
  - destruct (IH Hin) as (x' & Hx' & HR). exists x'. split; [now right | exact HR].
Qed.

Lemma map_all_returned (A B : Type) (f : A -> Outcome B) (l : list A) :
  Forall (fun x => exists y, f x = Return y) l ->
  exists ys, JsArray.map_throwing f l = Return ys.
Proof.
  induction 1 as [| x l [y Hy] _ [ys IH]]; simpl; [eauto |].
  rewrite Hy, IH. eauto.
Qed.

Lemma score_thrown (q : Embedded num) (r : Message num) (e : jsstring) :
  Db.score q r = Throw e <->
  Embedding.cosineSimilarity_of q (embedding r) = Throw e.
Proof.
  unfold Db.score.
  destruct (Embedding.cosineSimilarity_of q (embedding r));
    split; congruence.
Qed.

Lemma score_returned (q : Embedded num) (r : Message num) :
  (exists h, Db.score q r = Return h) <->
  exists x, Embedding.cosineSimilarity_of q (embedding r) = Return x.
Proof.
  unfold Db.score.
  destruct (Embedding.cosineSimilarity_of q (embedding r)) as [x | e].
  - split; eauto.
  - split; intros [? ?]; discriminate.
Qed.

(** When [cosineSimilarity] throws. *)
Lemma cosine_thrown (q emb : Embedded num) :
  (exists e, Embedding.cosineSimilarity_of q emb = Throw e) <->
  Embedding.missing q \/ (Embedding.missing emb /\ q <> Vector []).
Proof.
  split.
  - intros [e H].
    destruct q as [[| x v] | |]; try (left; exact I);
      destruct emb as [w | |]; simpl in H; try discriminate;
      right; (split; [exact I | discriminate]).
  - intros [Hq | [He Hq]].
    + destruct q; simpl in Hq; try contradiction; simpl; eauto.
    + destruct emb; simpl in He; try contradiction;
        destruct q as [[| x v] | |]; try congruence; simpl; eauto.
Qed.

Lemma sorted_related (A : Type) (R R' : A -> A -> Prop) (l : list A) :
  (forall a b, In a l -> In b l -> R a b -> R' a b) ->
  StronglySorted R l -> StronglySorted R' l.
Proof.
  intros H Hs. induction Hs as [| a l Hs IH Ha]; constructor.
  - apply IH. intros x y Hx Hy. apply H; now right.
  - apply Forall_forall. intros b Hb.
    apply H; [now left | now right |].
    exact (proj1 (Forall_forall _ _) Ha b Hb).
Qed.
End Ranking.

(** In binary64 the comparator puts [a] after [b] exactly when the
    score of [a] is below the score of [b]. *)
Lemma best_first_below (a b : SearchHit float) :
  Db.best_first a b = PrimFloat.ltb (similarity a) (similarity b).
Proof. apply FloatFacts.ltb_sub. Qed.

(** It is consistent on hits whose scores are numbers. *)
Lemma comparable_numbers (hits : list (SearchHit float)) :
  Forall (fun h => Ieee.number (similarity h)) hits ->
  Spec.comparable hits.
Proof.
  intros H. rewrite Forall_forall in H. split.
  - intros x y _ _. rewrite !best_first_below. apply FloatFacts.ltb_asym.
  - intros x y z _ Hy _. rewrite !best_first_below.
    apply FloatFacts.ltb_cut. now apply H.
Qed.

Lemma precedes_descending (a b : SearchHit float) :
  Ieee.number (similarity a) -> Ieee.number (similarity b) ->
  JsArray.may_precede Db.best_first a b ->
  PrimFloat.leb (similarity b) (similarity a) = true.
Proof.
  unfold JsArray.may_precede. rewrite best_first_below.
  apply FloatFacts.leb_of_not_ltb.
Qed.

Lemma tie_equal (a h : SearchHit float) :
  Ieee.number (similarity a) -> Ieee.number (similarity h) ->
  JsArray.tie Db.best_first a h
  = PrimFloat.eqb (similarity h) (similarity a).
Proof.
  intros Ha Hh. unfold JsArray.tie. rewrite !best_first_below.
  symmetry. now apply FloatFacts.eqb_of_neither.
Qed.
End RankFacts.

(** C7, as stated, fails when a score is NaN. With a message whose
    embedding is the zero vector, here the empty message under the
    fallback embedding, the ranking is no longer in descending order:
    the hit with score 1 comes fourth. *)
Lemma search_unordered_with_nan :
  Scenario.scores
    (fst (Server.search Scenario.world (JsString.lit "ab")
            (Some Scenario.s1) None Scenario.after_with_empty))
  = [0x1.6a09e667f3bcdp-1; 0; PrimFloat.nan; 1; 0]%float
  /\ PrimFloat.ltb 0x1.6a09e667f3bcdp-1 1 = true.
Proof. vm_compute. split; reflexivity. Qed.

(** C7 (as amended), in the doubles of the program. [semanticSearch]
    embeds the query and ranks. The candidates are exactly the messages
    of the session, summarized or not; each is scored by the cosine
    similarity of the query embedding and its own. When every candidate
    is scored (no embedding is missing) and no score is NaN, the
    ranking is a rearrangement of the scored candidates in which no hit
    has a lower score than a later one, and in which the hits of equal
    score keep their storage order; a limit [>= 0] keeps the first
    [limit] hits of it, and all of them when there are no more than
    [limit]. *)
Theorem semantic_ranking
        (st : Store float) (s : jsstring) (q : Embedded float) (limit : Z)
        (hits : list (SearchHit float)) :
  let candidates := filter (Db.in_session s) (messages st) in
  JsArray.map_throwing (Db.score q) candidates = Return hits ->
  Forall (fun h => Ieee.number (similarity h)) hits ->
  (forall (W : World float) (query : jsstring) (m : Machine float),
     store m = st ->
     q = Run.embedding_of W (embedding_calls m) query ->
     fst (Server.semanticSearch W s query limit m) = Db.rank s q limit st) /\
  (forall r, In r candidates <-> In r (messages st) /\ session_id r = s) /\
  Forall2 (fun r h =>
             hit_content h = content r /\ hit_role h = role r /\
             Embedding.cosineSimilarity_of q (embedding r)
             = Return (similarity h))
          candidates hits /\
  exists ranked,
    Permutation ranked hits /\
    StronglySorted
      (fun a b => PrimFloat.leb (similarity b) (similarity a) = true)
      ranked /\
    (forall a, In a hits ->
       filter (fun h => PrimFloat.eqb (similarity h) (similarity a)) ranked
       = filter (fun h => PrimFloat.eqb (similarity h) (similarity a)) hits)
    /\
    ((0 <= limit)%Z ->
       Db.rank s q limit st = Return (firstn (Z.to_nat limit) ranked)) /\
    ((Z.of_nat (length hits) <= limit)%Z ->
       Db.rank s q limit st = Return ranked).
Proof.
  intros candidates Hmap Hnum.
  pose proof (RankFacts.comparable_numbers Hnum) as [Hasym Hcut].
  assert (Hin : forall h, In h hits -> Ieee.number (similarity h))
    by (apply Forall_forall; exact Hnum).
  split; [| split; [| split]].
  - intros W query m <- ->. reflexivity.
  - intros r. unfold candidates. rewrite filter_In, RankFacts.in_session_iff.
    tauto.
  - eapply Forall2_impl; [| apply RankFacts.map_returned; exact Hmap].
    intros r h Hrh. now apply RankFacts.scored.
  - set (ranked := JsArray.sort Db.best_first hits).
    assert (Hperm : Permutation ranked hits) by apply SortFacts.sort_perm.
    assert (Hrank : Db.rank s q limit st
                    = Return (JsArray.slice0 ranked limit)).
    { unfold Db.rank. cbv zeta. fold candidates. now rewrite Hmap. }
    assert (Hslice : (0 <= limit)%Z ->
              Db.rank s q limit st = Return (firstn (Z.to_nat limit) ranked)).
    { intros H. rewrite Hrank. f_equal. now apply SortFacts.slice0_firstn. }
    exists ranked. split; [exact Hperm |]. split; [| split; [| split]].
    + apply RankFacts.sorted_related
        with (R := JsArray.may_precede Db.best_first).
      * intros a b Ha Hb. apply RankFacts.precedes_descending;
          apply Hin; eapply Permutation_in; eauto.
      * apply (SortFacts.sort_sorted Db.best_first (dom := hits));
          auto using incl_refl.
    + intros a Ha.
      rewrite <- (filter_ext_in (JsArray.tie Db.best_first a)
                    (fun h => PrimFloat.eqb (similarity h) (similarity a))
                    ranked)
        by (intros h Hh; apply RankFacts.tie_equal;
            apply Hin; [exact Ha | eapply Permutation_in; eauto]).
      rewrite <- (filter_ext_in (JsArray.tie Db.best_first a)
                    (fun h => PrimFloat.eqb (similarity h) (similarity a))
                    hits)
        by (intros h Hh; apply RankFacts.tie_equal; now apply Hin).
      apply (SortFacts.sort_stable Db.best_first (dom := hits));
        auto using incl_refl.
    + exact Hslice.
    + intros Hall. rewrite Hslice by lia. f_equal.
      apply firstn_all2. unfold ranked. rewrite SortFacts.sort_length. lia.
Qed.

(* ------------------------------------------------------------------ *)
(** ** The theorems at concrete inputs *)

(** Ten round trips on empty files: ten replies, no long-term memory,
    twenty unsummarized messages, and the tenth trigger check reads 19. *)
Example ten_round_trips :
  let run := Server.chat_all Scenario.world Scenario.s1
               Scenario.ten_requests boot in
  memories (store (snd run)) = [] /\
  Server.getMessageCount Scenario.s1 (store (snd run)) = 20%Z /\
  console (snd run) = [] /\
  completion_calls (snd run) = 10%nat /\
  Server.getMessageCount Scenario.s1
    (store (Spec.received Scenario.world Scenario.hi Scenario.s1
              (snd (Server.chat_all Scenario.world Scenario.s1
                      (repeat Scenario.hi 9) boot)))) = 19%Z /\
  Server.summary_due 19 = false.
Proof. vm_compute. repeat split. Qed.

(** Three Chinese characters and five others: 3 / 1.5 + 5 / 4 = 3.25. *)
Example tokens_of_mixed_text :
  Server.estimateTokens (JsString.lit "你好吗 abcd") = 4%Z.
Proof. reflexivity. Qed.

(** After a restart the counter starts again at 1: ids repeat. *)
Example ids_repeat_after_restart :
  map (@id float)
      (messages (Db.insert_message Scenario.s1 user Scenario.hi 1 6
                   (Vector [])
                   (Db.load (messages Scenario.five) [] [])))
  = [1; 2; 3; 4; 5; 1]%Z.
Proof. reflexivity. Qed.

Lemma trigger_never_fires_witness :
  exists replies m',
    Server.chat_all Scenario.world Scenario.s1 Scenario.ten_requests boot
    = (Return replies, m') /\
    length replies = length Scenario.ten_requests /\
    forallb Spec.is_ok replies = true /\
    memories (store m') = memories (store (boot (num := float))) /\
    Server.getMessageCount Scenario.s1 (store m')
    = (2 * Z.of_nat (length Scenario.ten_requests))%Z.
Proof.
  apply trigger_never_fires.
  - intros k request. eexists. reflexivity.
  - reflexivity.
Defined.


Lemma failed_summary_witness :
  Server.generateSummary Scenario.outage Scenario.s1 Scenario.tenth_in_outage
  = (Return tt,
     mkMachine (store Scenario.tenth_in_outage)
               (clock_reads Scenario.tenth_in_outage)
               (S (completion_calls Scenario.tenth_in_outage))
               (embedding_calls Scenario.tenth_in_outage)
               (console Scenario.tenth_in_outage
                ++ [SummaryFailed (JsString.lit "fetch failed")])).
Proof.
  apply (@failed_summary_is_harmless _ _ Scenario.outage Scenario.s1
           (JsString.lit "fetch failed") Scenario.tenth_in_outage).
  - vm_compute. lia.
  - reflexivity.
Defined.

(** The turn that meets the outage replies all the same. *)
Example turn_survives_outage :
  let run := Server.chat Scenario.outage Scenario.hi (Some Scenario.s1)
               Scenario.nine in
  fst run = Return (ChatOk (JsString.lit "ok") 11 0 5) /\
  memories (store (snd run)) = [] /\
  Server.getMessageCount Scenario.s1 (store (snd run)) = 11%Z /\
  console (snd run) = [SummaryFailed (JsString.lit "fetch failed")].
Proof. vm_compute. repeat split. Qed.


Lemma window_empty_witness :
  Server.getRecentHistory Scenario.s1 12
    (store (snd (Server.generateSummary Scenario.world Scenario.s1
                   Scenario.tenth))) = [].
Proof.
  apply (proj2 (proj2 (proj2 (summarized_never_in_window Scenario.world)))
           Scenario.tenth Scenario.s1 (JsString.lit "ok") 12%Z).
  - vm_compute.
    repeat (constructor; [simpl; intuition discriminate |]). constructor.
  - vm_compute. lia.
  - reflexivity.
Defined.

Lemma mark_idempotent_witness :
  Db.mark_summarized [1; 2; 3]%Z Scenario.archived = Scenario.archived.
Proof.
  apply (proj1 (proj2 (proj2 (proj2 messages_only_evolve)))).
  intros r Hr _. simpl in Hr.
  destruct Hr as [<- | [<- | [<- | []]]]; reflexivity.
Defined.

Lemma fallback_embedding_witness :
  Embedding.simpleEmbedding (num := R) (JsString.lit "hello")
  = Embedding.fallback_spec (JsString.lit "hello") /\
  Embedding.simpleEmbedding (num := float) (JsString.lit "hello")
  = Embedding.simpleEmbedding (JsString.lit "hello").
Proof.
  split.
  - apply (proj1 (proj2 fallback_embedding_is_normalised_histogram)).
  - apply (proj1 (proj2 (proj2 fallback_embedding_is_normalised_histogram))).
    reflexivity.
Defined.


Lemma semantic_ranking_witness :
  exists ranked,
    StronglySorted
      (fun a b => PrimFloat.leb (similarity b) (similarity a) = true)
      ranked /\
    Db.rank Scenario.s1
      (Vector (Embedding.simpleEmbedding (JsString.lit "ab"))) 5
      (store Scenario.after_with_text) = Return ranked.
Proof.
  destruct (@semantic_ranking (store Scenario.after_with_text) Scenario.s1
              (Vector (Embedding.simpleEmbedding (JsString.lit "ab"))) 5
              (match JsArray.map_throwing
                       (Db.score
                          (Vector (Embedding.simpleEmbedding
                                     (JsString.lit "ab"))))
                       (filter (Db.in_session Scenario.s1)
                               (messages (store Scenario.after_with_text)))
               with
               | Return scored => scored
               | Throw _ => []
               end))
    as (_ & _ & _ & ranked & _ & Hsorted & _ & _ & Hall).
  - vm_compute. reflexivity.
  - vm_compute. repeat constructor.
  - exists ranked. split; [exact Hsorted |].
    apply Hall. vm_compute. discriminate.
Defined.

(* ================================================================== *)
(** * Further properties of the code *)

(* ------------------------------------------------------------------ *)
(** ** The token estimate *)

Module TokenFacts.

Lemma chinese_split (a b : jsstring) :
  length (filter Server.is_chinese (a ++ b))
  = (length (filter Server.is_chinese a)
     + length (filter Server.is_chinese b))%nat.
Proof. now rewrite filter_app, length_app. Qed.

Lemma chinese_at_most (a : jsstring) :
  (length (filter Server.is_chinese a) <= length a)%nat.
Proof. apply filter_length_le. Qed.

End TokenFacts.

(** X1. The token estimate is 0 exactly on the empty text and otherwise
    lies between a quarter of the number of code units (rounded up) and
    that number; it never decreases when text is appended, and the
    estimate of a concatenation is at most the sum of the estimates. *)
Theorem token_estimate_bounds (a b : jsstring) :
  (Server.estimateTokens a = 0%Z <-> a = []) /\
  ((Z.of_nat (length a) + 3) / 4 <= Server.estimateTokens a
   <= Z.of_nat (length a))%Z /\
  (Server.estimateTokens a <= Server.estimateTokens (a ++ b))%Z /\
  (Server.estimateTokens (a ++ b)
   <= Server.estimateTokens a + Server.estimateTokens b)%Z.
Proof.
  unfold Server.estimateTokens.
  rewrite TokenFacts.chinese_split, length_app.
  pose proof (TokenFacts.chinese_at_most a) as Ha.
  pose proof (TokenFacts.chinese_at_most b) as Hb.
  set (ca := length (filter Server.is_chinese a)) in *.
  set (cb := length (filter Server.is_chinese b)) in *.
  repeat split.
  - intros H. destruct a as [| c a]; [reflexivity |]. exfalso.
    simpl length in *. Z.div_mod_to_equations. lia.
  - intros ->. reflexivity.
  - Z.div_mod_to_equations. lia.
  - Z.div_mod_to_equations. lia.
  - Z.div_mod_to_equations. lia.
  - Z.div_mod_to_equations. lia.
Qed.

(* ------------------------------------------------------------------ *)
(** ** The handlers as machines *)

Module StepFacts.
Section Steps.
Context {num : Type} {NUM : Number num}.
Variable W : World num.
Implicit Types (m : Machine num) (s : jsstring).

Lemma generateSummary_run s m :
  Server.generateSummary W s m = (Return tt, Step.after_pass W s m).
Proof.
  unfold Step.after_pass. cbv zeta.
  destruct (Z.ltb_spec (Z.of_nat (length (Spec.batch s m))) 5) as [H | H].
  - apply PassFacts.pass_skipped. lia.
  - destruct (completion W (completion_calls m)
                (Server.summaryMessages (Spec.batch s m))) as [text | e] eqn:E.
    + apply PassFacts.pass_succeeded; [lia | exact E].
    + apply PassFacts.pass_failed; [lia | exact E].
Qed.

Lemma checked_run message s m :
  Server.chat_turn W message s m
  = Server.respond W s
      (Server.getMessageCount s (store (Spec.received W message s m)))
      (Step.checked W message s m).
Proof.
  rewrite TurnFacts.chat_turn_run. cbv zeta. unfold Step.checked. cbv zeta.
  destruct (Server.summary_due _); [| reflexivity].
  now rewrite generateSummary_run.
Qed.

Lemma chat_run message (sessionId : option jsstring) m :
  Server.chat W message sessionId m
  = (Return (Step.reply_of W message (Step.session_of sessionId) m),
     Step.after_chat W message (Step.session_of sessionId) m).
Proof.
  unfold Server.chat. fold (Step.session_of sessionId).
  set (s := Step.session_of sessionId).
  unfold Run.try_catch. rewrite checked_run.
  unfold Step.reply_of, Step.after_chat. cbv zeta.
  set (mc := Step.checked W message s m).
  unfold Server.respond, Run.bind at 1, Run.query at 1.
  unfold Run.bind at 1, Run.callAPI.
  destruct (completion W (completion_calls mc)
              (Server.buildContext s (store mc))) as [reply | e];
    reflexivity.
Qed.

Lemma search_run query (sessionId : option jsstring) (limit : option Z) m :
  Server.search W query sessionId limit m
  = match Db.rank (Step.session_of sessionId)
            (Run.embedding_of W (embedding_calls m) query)
            (match limit with Some n => n | None => 5%Z end) (store m)
    with
    | Return hits =>
      (Return (SearchOk hits),
       mkMachine (store m) (clock_reads m) (completion_calls m)
                 (S (embedding_calls m)) (console m))
    | Throw e =>
      (Return (SearchError num e),
       mkMachine (store m) (clock_reads m) (completion_calls m)
                 (S (embedding_calls m)) (console m ++ [SearchFailed e]))
    end.
Proof.
  unfold Server.search, Server.semanticSearch, Run.try_catch, Run.bind,
    Run.getEmbedding, Run.attempt. cbn [store].
  fold (Step.session_of sessionId).
  destruct (Db.rank _ _ _ _); reflexivity.
Qed.

Lemma search_store query (sessionId : option jsstring) (limit : option Z) m :
  store (snd (Server.search W query sessionId limit m)) = store m.
Proof. rewrite search_run. destruct (Db.rank _ _ _ _); reflexivity. Qed.
End Steps.
End StepFacts.

(* ------------------------------------------------------------------ *)
(** ** What a turn does to the tables *)

Module RelFacts.
Section Related.
Context {num : Type} {NUM : Number num}.
Variable W : World num.
Variable s : jsstring.

(** A relation between tables that every statement a turn on session [s]
    runs respects. *)
Variable R : Store num -> Store num -> Prop.
Hypothesis R_refl : forall st, R st st.
Hypothesis R_trans : forall a b c, R a b -> R b c -> R a c.
Hypothesis R_session :
  forall (c u : Z) st, R st (Db.insert_session s c u st).
Hypothesis R_message :
  forall (r : Role) (text : jsstring) (tok ts : Z) (emb : Embedded num) st,
    R st (Db.insert_message s r text tok ts emb st).
Hypothesis R_touch : forall (u : Z) st, R st (Db.update_session u s st).
Hypothesis R_memory :
  forall (text : jsstring) (ts : Z) (emb : Embedded num) st,
    R st (Db.insert_memory s text ts emb st).
Hypothesis R_mark :
  forall st,
    R st (Db.mark_summarized (map row_id (Db.select_unsummarized s st)) st).

Lemma saved_related (r : Role) (text : jsstring) (m : Machine num) :
  R (store m) (store (snd (Server.saveMessage W s r text m))).
Proof.
  rewrite TurnFacts.saveMessage_run. cbn [snd store].
  eapply R_trans; [apply R_message | apply R_touch].
Qed.

Lemma received_related (message : jsstring) (m : Machine num) :
  R (store m) (store (Spec.received W message s m)).
Proof.
  rewrite TurnFacts.received_run.
  eapply R_trans; [| apply saved_related].
  rewrite TurnFacts.ensureSession_run. cbn [snd store]. apply R_session.
Qed.

Lemma after_pass_related (m : Machine num) :
  R (store m) (store (Step.after_pass W s m)).
Proof.
  unfold Step.after_pass. cbv zeta.
  destruct (_ <? 5)%Z; [apply R_refl |].
  destruct (completion W _ _) as [text | e]; cbn [store]; [| apply R_refl].
  eapply R_trans; [apply R_memory |].
  unfold Spec.batch.
  change (Db.select_unsummarized s (store m))
    with (Db.select_unsummarized s
            (Db.insert_memory s text (now W (clock_reads m))
               (Run.embedding_of W (embedding_calls m) text) (store m))).
  apply R_mark.
Qed.

Lemma checked_related (message : jsstring) (m : Machine num) :
  R (store m) (store (Step.checked W message s m)).
Proof.
  unfold Step.checked. cbv zeta.
  destruct (Server.summary_due _); [| apply received_related].
  eapply R_trans; [apply received_related | apply after_pass_related].
Qed.

Lemma after_chat_related (message : jsstring) (m : Machine num) :
  R (store m) (store (Step.after_chat W message s m)).
Proof.
  unfold Step.after_chat. cbv zeta.
  destruct (completion W _ _) as [reply | e].
  - eapply R_trans; [apply checked_related |].
    apply (saved_related assistant reply
             (Step.called (Step.checked W message s m))).
  - apply checked_related.
Qed.
End Related.
End RelFacts.

(* ------------------------------------------------------------------ *)
(** ** Message ids *)

Module NumberFacts.
Section Numbering.
Context {num : Type} {NUM : Number num}.
Implicit Types (st : Store num) (rows : list (Message num)).

Lemma mark_first_ids (i : Z) rows :
  map (@id num) (Db.mark_first i rows) = map (@id num) rows.
Proof.
  induction rows as [| r rows IH]; simpl; [reflexivity |].
  destruct (id r =? i)%Z; simpl; [reflexivity | now rewrite IH].
Qed.

Lemma mark_rows_ids (ids : list Z) rows :
  map (@id num) (Spec.mark_rows ids rows) = map (@id num) rows.
Proof.
  unfold Spec.mark_rows. revert rows.
  induction ids as [| i ids IH]; intros rows; simpl; [reflexivity |].
  now rewrite IH, mark_first_ids.
Qed.

Lemma well_numbered_ids st :
  Inv.well_numbered st <->
  NoDup (map (@id num) (messages st)) /\
  Forall (fun i => (i < messageIdCounter st)%Z) (map (@id num) (messages st)).
Proof. unfold Inv.well_numbered. now rewrite Forall_map. Qed.

Lemma numbered_session (s : jsstring) (c u : Z) st :
  Inv.well_numbered st -> Inv.well_numbered (Db.insert_session s c u st).
Proof. unfold Db.insert_session. now destruct (Db.has_session s _). Qed.

Lemma numbered_message (s text : jsstring) (r : Role) (tok ts : Z)
      (emb : Embedded num) st :
  Inv.well_numbered st ->
  Inv.well_numbered (Db.insert_message s r text tok ts emb st).
Proof.
  rewrite !well_numbered_ids. intros [Hnd Hlt]. simpl.
  rewrite map_app. simpl. split.
  - apply NoDup_app; [exact Hnd | repeat constructor; intros [] |].
    intros i Hi [<- | []]. rewrite Forall_forall in Hlt.
    specialize (Hlt _ Hi). lia.
  - apply Forall_app. split.
    + eapply Forall_impl; [| exact Hlt]. intros i Hi. simpl in Hi. lia.
    + repeat constructor. lia.
Qed.

Lemma numbered_marked (ids : list Z) st :
  Inv.well_numbered st -> Inv.well_numbered (Db.mark_summarized ids st).
Proof.
  rewrite !well_numbered_ids, MarkFacts.mark_summarized_rows. simpl.
  now rewrite mark_rows_ids.
Qed.

Lemma numbered_boot : Inv.well_numbered (store (boot (num := num))).
Proof. split; constructor. Qed.

Lemma numbered_after_chat (W : World num) (message s : jsstring)
      (m : Machine num) :
  Inv.well_numbered (store m) ->
  Inv.well_numbered (store (Step.after_chat W message s m)).
Proof.
  apply RelFacts.after_chat_related
    with (R := fun a b => Inv.well_numbered a -> Inv.well_numbered b);
    auto using numbered_session, numbered_message, numbered_marked.
Qed.

Lemma numbered_handled (W : World num) (r : Step.Request) (m : Machine num) :
  Inv.well_numbered (store m) ->
  Inv.well_numbered (store (Step.handle W r m)).
Proof.
  destruct r as [message sid | query sid limit]; unfold Step.handle.
  - rewrite StepFacts.chat_run. apply numbered_after_chat.
  - rewrite StepFacts.search_store. auto.
Qed.

Lemma numbered_served (W : World num) (requests : list Step.Request)
      (m : Machine num) :
  Inv.well_numbered (store m) ->
  Inv.well_numbered (store (Step.serve W requests m)).
Proof.
  unfold Step.serve. revert m.
  induction requests as [| r requests IH]; intros m H; simpl; [exact H |].
  apply IH. now apply numbered_handled.
Qed.
End Numbering.
End NumberFacts.

(** X3. Every request handler keeps the ids of the stored messages
    distinct and below [messageIdCounter]; so they are on every machine
    that was started on empty files, whatever requests it has served. *)
Theorem ids_stay_distinct {num : Type} {NUM : Number num} (W : World num) :
  (forall (r : Step.Request) (m : Machine num),
     Inv.well_numbered (store m) ->
     Inv.well_numbered (store (Step.handle W r m))) /\
  (forall requests : list Step.Request,
     Inv.well_numbered (store (Step.serve W requests boot))).
Proof.
  split.
  - intros r m. apply NumberFacts.numbered_handled.
  - intros requests. apply NumberFacts.numbered_served.
    apply NumberFacts.numbered_boot.
Qed.

(* ------------------------------------------------------------------ *)
(** ** What a pass consumes *)

Module ConsumeFacts.
Section Consuming.
Context {num : Type} {NUM : Number num}.
Implicit Types (st : Store num) (rows : list (Message num)) (s : jsstring).

Lemma id_decides rows (a b : Message num) :
  NoDup (map (@id num) rows) -> In a rows -> In b rows ->
  id a = id b -> a = b.
Proof.
  induction rows as [| r rows IH]; simpl; intros Hnd Ha Hb Hid; [easy |].
  inversion Hnd as [| ? ? Hnot Hrest]; subst.
  destruct Ha as [<- | Ha], Hb as [<- | Hb]; auto.
  - exfalso. apply Hnot. rewrite Hid. now apply in_map.
  - exfalso. apply Hnot. rewrite <- Hid. now apply in_map.
Qed.

Lemma filter_both (A : Type) (f g : A -> bool) (l : list A) :
  filter (fun x => f x && g x) l = filter g (filter f l).
Proof.
  induction l as [| x l IH]; simpl; [reflexivity |].
  destruct (f x); simpl; [destruct (g x) |]; now rewrite IH.
Qed.

Lemma qualifying_of_session s rows :
  filter (Db.unsummarized s) rows
  = filter (fun r => (is_summarized r =? 0)%Z)
           (filter (Db.in_session s) rows).
Proof. apply filter_both. Qed.

(** With distinct ids, marking the ids of the batch of [s] flags the
    rows of the batch and no other. *)
Lemma batch_marked s st :
  NoDup (map (@id num) (messages st)) ->
  Spec.mark_rows (map row_id (Db.select_unsummarized s st)) (messages st)
  = map (Inv.consume s) (messages st).
Proof.
  intros Hnd. rewrite MarkFacts.mark_rows_distinct by exact Hnd.
  apply map_ext_in. intros r Hr. unfold Spec.mark_if, Inv.consume.
  replace (existsb (fun i => (id r =? i)%Z)
             (map row_id (Db.select_unsummarized s st)))
    with (Db.unsummarized s r); [reflexivity |].
  assert (Hids : forall i,
             In i (map row_id (Db.select_unsummarized s st)) <->
             In i (map (@id num) (Spec.qualifying s st))).
  { intros i. unfold Db.select_unsummarized, Db.unsummarized_rows.
    rewrite map_map. simpl. fold (Spec.qualifying s st).
    split; intro H;
      [apply (Permutation_in _ (Permutation_map _
                (SortFacts.sort_perm Db.oldest_first _))) in H
      |apply (Permutation_in _ (Permutation_sym (Permutation_map _
                (SortFacts.sort_perm Db.oldest_first _))))];
      exact H. }
  destruct (Db.unsummarized s r) eqn:Hu; symmetry.
  - apply existsb_exists. exists (id r). split; [| lia].
    apply Hids. apply in_map. unfold Spec.qualifying.
    apply filter_In. now split.
  - apply not_true_iff_false. intros Hex.
    apply existsb_exists in Hex as (i & Hi & Heq).
    apply Z.eqb_eq in Heq. subst i.
    apply Hids in Hi. apply in_map_iff in Hi as (r' & Hid & Hr').
    unfold Spec.qualifying in Hr'. apply filter_In in Hr' as [Hin Hq].
    assert (r' = r) by (apply (id_decides (messages st)); auto).
    subst r'. congruence.
Qed.

Lemma consume_elsewhere s s' rows :
  s' <> s ->
  filter (Db.in_session s') (map (Inv.consume s) rows)
  = filter (Db.in_session s') rows.
Proof.
  intros Hne. induction rows as [| r rows IH]; simpl; [reflexivity |].
  rewrite IH. unfold Inv.consume, Db.unsummarized.
  destruct (Db.in_session s r) eqn:Hs; simpl.
  - apply RankFacts.in_session_iff in Hs.
    assert (Hno : forall x : Message num,
               session_id x = s -> Db.in_session s' x = false).
    { intros x Hx. apply not_true_iff_false. intros H.
      apply RankFacts.in_session_iff in H. congruence. }
    destruct (is_summarized r =? 0)%Z; rewrite !Hno; auto.
  - reflexivity.
Qed.

Lemma consume_here s rows :
  filter (Db.unsummarized s) (map (Inv.consume s) rows) = [].
Proof.
  induction rows as [| r rows IH]; simpl; [reflexivity |].
  rewrite IH. unfold Inv.consume.
  destruct (Db.unsummarized s r) eqn:Hu; [| now rewrite Hu].
  unfold Db.unsummarized. simpl. now rewrite andb_false_r.
Qed.
End Consuming.
End ConsumeFacts.

(** X6. On a table with distinct ids, a pass whose completion call is
    answered flags exactly the unsummarized messages of its session and
    leaves every other row as it is, appends one summary holding the
    answer, and touches neither the sessions nor the counter; the
    session's count of unsummarized messages is 0 afterwards and the
    messages of every other session are untouched. *)
Theorem pass_consumes_exactly_the_batch
        {num : Type} {NUM : Number num} (W : World num)
        (s text : jsstring) (m : Machine num) :
  NoDup (map (@id num) (messages (store m))) ->
  (5 <= length (Spec.batch s m))%nat ->
  completion W (completion_calls m)
             (Server.summaryMessages (Spec.batch s m)) = Answer text ->
  let st' := store (snd (Server.generateSummary W s m)) in
  messages st' = map (Inv.consume s) (messages (store m)) /\
  memories st'
  = memories (store m)
    ++ [mkMemory s text (now W (clock_reads m))
          (Run.embedding_of W (embedding_calls m) text)] /\
  sessions st' = sessions (store m) /\
  messageIdCounter st' = messageIdCounter (store m) /\
  Server.getMessageCount s st' = 0%Z /\
  (forall s', s' <> s ->
     filter (Db.in_session s') (messages st')
     = filter (Db.in_session s') (messages (store m))).
Proof.
  intros Hnd H5 Hok st'. unfold st'.
  rewrite (PassFacts.pass_succeeded W s m H5 Hok).
  cbn [snd store]. rewrite MarkFacts.mark_summarized_rows.
  unfold Server.getMessageCount, Db.count_messages, Spec.batch,
    Db.insert_memory.
  cbn [messages memories sessions messageIdCounter].
  rewrite (ConsumeFacts.batch_marked s (store m) Hnd).
  repeat split.
  - now rewrite ConsumeFacts.consume_here.
  - intros s' Hne. now apply ConsumeFacts.consume_elsewhere.
Qed.

(* ------------------------------------------------------------------ *)
(** ** Sessions do not see each other *)

Module IsolationFacts.
Section Isolation.
Context {num : Type} {NUM : Number num}.
Implicit Types (st a b : Store num) (s : jsstring).

Lemma other_session s s' (r : Message num) :
  s' <> s -> session_id r = s -> Db.in_session s' r = false.
Proof.
  intros Hne Hs. apply not_true_iff_false. intros H.
  apply RankFacts.in_session_iff in H. congruence.
Qed.

Lemma view_qualifying s a b :
  Inv.view s a = Inv.view s b -> Spec.qualifying s a = Spec.qualifying s b.
Proof.
  unfold Inv.view, Spec.qualifying. intros [= Hrows _].
  now rewrite !ConsumeFacts.qualifying_of_session, Hrows.
Qed.

(** Everything the server reads for a session is read off its view. *)
Lemma view_reads s a b :
  Inv.view s a = Inv.view s b ->
  Server.getMessageCount s a = Server.getMessageCount s b /\
  (forall limit : Z,
     Server.getRecentHistory s limit a = Server.getRecentHistory s limit b) /\
  Server.getLongTermMemory s a = Server.getLongTermMemory s b /\
  Db.select_unsummarized s a = Db.select_unsummarized s b /\
  Server.buildContext s a = Server.buildContext s b /\
  (forall (q : Embedded num) (limit : Z),
     Db.rank s q limit a = Db.rank s q limit b).
Proof.
  intros Hview. pose proof (view_qualifying Hview) as HQ.
  unfold Spec.qualifying in HQ.
  injection Hview as Hrows Hmem. unfold Spec.summaries_of in Hmem.
  assert (Hrecent : forall limit : Z,
             Server.getRecentHistory s limit a
             = Server.getRecentHistory s limit b).
  { intros limit.
    unfold Server.getRecentHistory, Db.select_recent, Db.recent_rows.
    now rewrite HQ. }
  assert (Hlong : Server.getLongTermMemory s a
                  = Server.getLongTermMemory s b).
  { unfold Server.getLongTermMemory, Db.select_summaries, Db.memory_rows.
    now rewrite Hmem. }
  repeat split.
  - unfold Server.getMessageCount, Db.count_messages. now rewrite HQ.
  - exact Hrecent.
  - exact Hlong.
  - unfold Db.select_unsummarized, Db.unsummarized_rows. now rewrite HQ.
  - unfold Server.buildContext. now rewrite Hlong, Hrecent.
  - intros q limit. unfold Db.rank. now rewrite Hrows.
Qed.

Lemma unseen_after_chat (W : World num) (message s s' : jsstring)
      (m : Machine num) :
  s' <> s ->
  Inv.unseen s' (store m) (store (Step.after_chat W message s m)).
Proof.
  intros Hne. apply RelFacts.after_chat_related with (R := Inv.unseen s');
    unfold Inv.unseen.
  - auto.
  - intros a b c Hab Hbc Ha. destruct (Hab Ha) as [Hb Hv1].
    destruct (Hbc Hb) as [Hc Hv2]. split; [exact Hc | congruence].
  - intros c u st H. split; [now apply NumberFacts.numbered_session |].
    unfold Inv.view, Spec.summaries_of, Db.insert_session.
    now destruct (Db.has_session s _).
  - intros r text tok ts emb st H.
    split; [now apply NumberFacts.numbered_message |].
    unfold Inv.view, Spec.summaries_of. simpl. rewrite filter_app. simpl.
    rewrite (other_session (s := s)) by auto. now rewrite app_nil_r.
  - intros u st H. split; [exact H | reflexivity].
  - intros text ts emb st H. split; [exact H |].
    unfold Inv.view, Spec.summaries_of. simpl. rewrite filter_app. simpl.
    replace (JsString.eqb s s') with false; [now rewrite app_nil_r |].
    symmetry. apply not_true_iff_false. intros E.
    apply ReadFacts.eqb_eq in E. congruence.
  - intros st H. split; [now apply NumberFacts.numbered_marked |].
    rewrite MarkFacts.mark_summarized_rows.
    unfold Inv.view, Spec.summaries_of. cbn [messages memories].
    rewrite ConsumeFacts.batch_marked by apply H.
    now rewrite ConsumeFacts.consume_elsewhere.
Qed.
End Isolation.
End IsolationFacts.

(** X7. On a table with distinct ids below the counter, a request to
    [/api/chat] for one session, whatever its outcome, leaves the
    messages and the summaries of every other session as they were, and
    with them everything the server reads for that session: its count of
    unsummarized messages, its short-term window, its summaries, its
    context and its search results. *)
Theorem sessions_are_isolated
        {num : Type} {NUM : Number num} (W : World num)
        (message : jsstring) (sessionId : option jsstring)
        (m : Machine num) (s' : jsstring) :
  Inv.well_numbered (store m) ->
  s' <> Step.session_of sessionId ->
  let st := store m in
  let st' := store (snd (Server.chat W message sessionId m)) in
  Inv.view s' st' = Inv.view s' st /\
  Server.getMessageCount s' st' = Server.getMessageCount s' st /\
  (forall limit : Z,
     Server.getRecentHistory s' limit st'
     = Server.getRecentHistory s' limit st) /\
  Server.getLongTermMemory s' st' = Server.getLongTermMemory s' st /\
  Server.buildContext s' st' = Server.buildContext s' st /\
  (forall (q : Embedded num) (limit : Z),
     Db.rank s' q limit st' = Db.rank s' q limit st).
Proof.
  intros Hwn Hne st st'.
  assert (Hview : Inv.view s' st' = Inv.view s' st).
  { unfold st', st. rewrite StepFacts.chat_run. cbn [snd].
    now apply IsolationFacts.unseen_after_chat. }
  split; [exact Hview |].
  destruct (IsolationFacts.view_reads Hview)
    as (H1 & H2 & H3 & _ & H5 & H6).
  auto.
Qed.

(* ------------------------------------------------------------------ *)
(** ** What a request leaves behind *)

Module OutcomeFacts.
Section Outcomes.
Context {num : Type} {NUM : Number num}.
Variable W : World num.
Implicit Types (m : Machine num) (s : jsstring).

Lemma after_pass_rows s m :
  Forall2 Spec.evolves (messages (store m))
          (messages (store (Step.after_pass W s m))).
Proof.
  unfold Step.after_pass. cbv zeta.
  destruct (_ <? 5)%Z; [apply MarkFacts.rows_evolve_refl |].
  destruct (completion W _ _) as [text | e]; cbn [store];
    [| apply MarkFacts.rows_evolve_refl].
  rewrite MarkFacts.mark_summarized_rows. cbn [messages].
  apply MarkFacts.mark_rows_evolve.
Qed.

Lemma received_rows message s m :
  messages (store (Spec.received W message s m))
  = messages (store m) ++ [Step.user_row W message s m].
Proof.
  unfold Step.user_row.
  rewrite TurnFacts.received_run, TurnFacts.saveMessage_run,
    TurnFacts.ensureSession_run.
  cbn [snd store messages Db.update_session Db.insert_message clock_reads
       embedding_calls messageIdCounter].
  unfold Db.insert_session. now destruct (Db.has_session s _).
Qed.

Lemma checked_rows message s m :
  exists kept u,
    messages (store (Step.checked W message s m)) = kept ++ [u] /\
    Forall2 Spec.evolves (messages (store m)) kept /\
    Spec.evolves (Step.user_row W message s m) u.
Proof.
  assert (H : Forall2 Spec.evolves
                (messages (store (Spec.received W message s m)))
                (messages (store (Step.checked W message s m)))).
  { unfold Step.checked. cbv zeta.
    destruct (Server.summary_due _);
      [apply after_pass_rows | apply MarkFacts.rows_evolve_refl]. }
  rewrite received_rows in H.
  apply Forall2_app_inv_l in H as (kept & last & Hkept & Hlast & ->).
  inversion Hlast as [| u0 u l0 l Hu Hnil]; subst.
  inversion Hnil; subst.
  exists kept, u. auto.
Qed.

Lemma after_pass_memories s m :
  exists added,
    memories (store (Step.after_pass W s m)) = memories (store m) ++ added /\
    (length added <= 1)%nat /\
    Forall (fun x => mem_session_id x = s) added.
Proof.
  unfold Step.after_pass. cbv zeta.
  destruct (_ <? 5)%Z;
    [exists []; rewrite app_nil_r; simpl; auto |].
  destruct (completion W _ _) as [text | e]; cbn [store].
  - rewrite MarkFacts.mark_summarized_rows. cbn [memories Db.insert_memory].
    eexists [_]. split; [reflexivity |]. split; [simpl; lia |].
    repeat constructor.
  - exists []. rewrite app_nil_r. simpl. auto.
Qed.

Lemma after_chat_memories message s m :
  memories (store (Step.after_chat W message s m))
  = memories (store (Step.checked W message s m)).
Proof.
  unfold Step.after_chat. cbv zeta.
  destruct (completion W _ _) as [reply | e]; [| reflexivity].
  now rewrite TurnFacts.saveMessage_run.
Qed.
End Outcomes.

Lemma slice0_length (A : Type) (l : list A) (limit : Z) :
  Z.of_nat (length (JsArray.slice0 l limit))
  = if (limit <? 0)%Z then Z.max (Z.of_nat (length l) + limit) 0
    else Z.min limit (Z.max (Z.of_nat (length l)) 0).
Proof.
  unfold JsArray.slice0. rewrite length_firstn.
  destruct (Z.ltb_spec limit 0); lia.
Qed.
End OutcomeFacts.

(** X5. A request to [/api/chat] always gets a reply: the handler never
    throws. Afterwards the table of messages is the rows it held, each
    kept or flagged, then the user's message, then the assistant's reply
    exactly when the completion call for the reply was answered. The
    trigger check writes at most one line to the console, and none when
    the trigger does not fire. When the call for the reply fails, the
    reply is its error, no assistant row is stored, the user's message
    stays, and the error is the one line written after those of the
    check; when it answers, nothing is written after them. *)
Theorem chat_replies_and_keeps_the_message
        {num : Type} {NUM : Number num} (W : World num)
        (message : jsstring) (sessionId : option jsstring)
        (m : Machine num) :
  let s := Step.session_of sessionId in
  let m1 := Spec.received W message s m in
  let mc := Step.checked W message s m in
  let run := Server.chat W message sessionId m in
  exists r kept u rest lines,
    fst run = Return r /\
    messages (store (snd run)) = kept ++ u :: rest /\
    Forall2 Spec.evolves (messages (store m)) kept /\
    session_id u = s /\ role u = user /\ content u = message /\
    tokens u = Server.estimateTokens message /\
    console mc = console m ++ lines /\
    (length lines <= 1)%nat /\
    (Server.summary_due (Server.getMessageCount s (store m1)) = false ->
     lines = []) /\
    match r with
    | ChatError e =>
      completion W (completion_calls mc)
                 (Server.buildContext s (store mc)) = Failure e /\
      rest = [] /\
      console (snd run) = console m ++ lines ++ [RequestFailed e]
    | ChatOk reply _ _ _ =>
      completion W (completion_calls mc)
                 (Server.buildContext s (store mc)) = Answer reply /\
      console (snd run) = console m ++ lines /\
      exists a,
        rest = [a] /\ session_id a = s /\ role a = assistant /\
        content a = reply /\ is_summarized a = 0%Z
    end.
Proof.
  intros s m1 mc run. unfold run. rewrite StepFacts.chat_run. fold s.
  cbn [fst snd].
  destruct (OutcomeFacts.checked_rows W message s m)
    as (kept & u & Hrows & Hkept & Hu).
  destruct Hu as (_ & Hs & Hr & Hc & Ht & _). simpl in Hs, Hr, Hc, Ht.
  assert (Hlines : exists lines,
             console mc = console m ++ lines /\ (length lines <= 1)%nat /\
             (Server.summary_due (Server.getMessageCount s (store m1)) = false
              -> lines = [])).
  { assert (H1 : console m1 = console m).
    { unfold m1. rewrite TurnFacts.received_run, TurnFacts.saveMessage_run,
        TurnFacts.ensureSession_run. reflexivity. }
    unfold mc, Step.checked. cbv zeta. fold m1.
    destruct (Server.summary_due _).
    - unfold Step.after_pass. cbv zeta.
      destruct (_ <? 5)%Z;
        [exists []; rewrite app_nil_r; repeat split; auto; discriminate |].
      destruct (completion W _ _) as [text | e]; cbn [console]; rewrite H1;
        eexists; (split; [reflexivity |]); split; simpl; auto; discriminate.
    - exists []. rewrite app_nil_r. repeat split; auto. }
  destruct Hlines as (lines & Hconsole & Hlen & Hquiet).
  unfold Step.reply_of, Step.after_chat. cbv zeta. fold mc.
  destruct (completion W (completion_calls mc) _) as [reply | e] eqn:Hcall.
  - eexists _, kept, u, [_], lines. split; [reflexivity |].
    rewrite TurnFacts.saveMessage_run.
    cbn [snd store messages console Db.update_session Db.insert_message
         Step.called].
    fold mc in Hrows. rewrite Hrows, <- app_assoc. split; [reflexivity |].
    repeat (split; [assumption |]).
    split; [reflexivity |]. split; [exact Hconsole |].
    eexists. repeat split.
  - exists (ChatError e), kept, u, [], lines. split; [reflexivity |].
    cbn [store console]. split; [exact Hrows |].
    repeat (split; [assumption |]).
    split; [reflexivity |]. split; [reflexivity |].
    now rewrite Hconsole, <- app_assoc.
Qed.

(** X8. The long-term store only grows, and by at most one summary per
    request: after a request to [/api/chat] it is what it was followed by
    at most one summary, of the session of the request, and by none when
    the trigger was not due; a request to [/api/search] changes no
    table at all. *)
Theorem summaries_only_grow
        {num : Type} {NUM : Number num} (W : World num) (m : Machine num) :
  (forall (message : jsstring) (sessionId : option jsstring),
     let s := Step.session_of sessionId in
     exists added,
       memories (store (snd (Server.chat W message sessionId m)))
       = memories (store m) ++ added /\
       (length added <= 1)%nat /\
       Forall (fun x => mem_session_id x = s) added /\
       (Server.summary_due
          (Server.getMessageCount s
             (store (Spec.received W message s m))) = false ->
        added = [])) /\
  (forall (query : jsstring) (sessionId : option jsstring)
          (limit : option Z),
     store (snd (Server.search W query sessionId limit m)) = store m).
Proof.
  split.
  - intros message sessionId s. rewrite StepFacts.chat_run. fold s.
    cbn [snd]. rewrite OutcomeFacts.after_chat_memories.
    unfold Step.checked. cbv zeta.
    rewrite <- (TurnFacts.memories_received W message s m).
    destruct (Server.summary_due _).
    + destruct (OutcomeFacts.after_pass_memories W s
                  (Spec.received W message s m))
        as (added & Hmem & Hlen & Hses).
      exists added. repeat split; auto. discriminate.
    + exists []. rewrite app_nil_r. repeat split; auto.
  - intros query sessionId limit. now rewrite StepFacts.search_store.
Qed.

(** X9. A request to [/api/search] is always answered, changes no
    table and calls no completion endpoint. [cosineSimilarity] throws
    exactly when the query embedding is [undefined] or [null], or a
    stored embedding is and the query vector is not empty. When every message
    of the session is scored, the answer is a list of hits and nothing
    is written to the console: every hit is the content and role of a
    stored message of the session and, with [n] messages in the
    session, a limit [k >= 0] returns [min k n] hits, a missing limit
    counts as 5, and a negative limit [-k] returns [n - k] hits (none
    when [k > n]). When a message of the session is not, the answer is
    the error of the first such message in storage order, and that
    error is written to the console. *)
Theorem search_is_read_only
        {num : Type} {NUM : Number num} (W : World num)
        (query : jsstring) (sessionId : option jsstring)
        (limit : option Z) (m : Machine num) :
  let s := Step.session_of sessionId in
  let k := match limit with Some k => k | None => 5%Z end in
  let q := Run.embedding_of W (embedding_calls m) query in
  let candidates := filter (Db.in_session s) (messages (store m)) in
  let n := Z.of_nat (length candidates) in
  let scored r :=
    exists x, Embedding.cosineSimilarity_of q (embedding r) = Return x in
  let run := Server.search W query sessionId limit m in
  (store (snd run) = store m /\
   completion_calls (snd run) = completion_calls m /\
   exists response, fst run = Return response) /\
  (forall emb,
     (exists e, Embedding.cosineSimilarity_of q emb = Throw e) <->
     Embedding.missing q \/ (Embedding.missing emb /\ q <> Vector [])) /\
  (Forall scored candidates ->
   exists hits,
     fst run = Return (SearchOk hits) /\
     console (snd run) = console m /\
     Z.of_nat (length hits)
     = (if (k <? 0)%Z then Z.max (n + k) 0 else Z.min k n) /\
     (forall h, In h hits ->
        exists r, In r (messages (store m)) /\ session_id r = s /\
                  hit_content h = content r /\ hit_role h = role r)) /\
  (forall before r after e,
     candidates = before ++ r :: after ->
     Forall scored before ->
     Embedding.cosineSimilarity_of q (embedding r) = Throw e ->
     fst run = Return (SearchError num e) /\
     console (snd run) = console m ++ [SearchFailed e]).
Proof.
  intros s k q candidates n scored run.
  assert (Hrun : run
                 = match Db.rank s q k (store m) with
                   | Return hits =>
                     (Return (SearchOk hits),
                      mkMachine (store m) (clock_reads m)
                                (completion_calls m)
                                (S (embedding_calls m)) (console m))
                   | Throw e =>
                     (Return (SearchError num e),
                      mkMachine (store m) (clock_reads m)
                                (completion_calls m)
                                (S (embedding_calls m))
                                (console m ++ [SearchFailed e]))
                   end)
    by apply StepFacts.search_run.
  split; [| split; [| split]].
  - rewrite Hrun. destruct (Db.rank s q k (store m)); cbn; eauto.
  - intros emb. apply RankFacts.cosine_thrown.
  - intros Hall.
    assert (Hall' : Forall (fun r => exists h, Db.score q r = Return h)
                           candidates).
    { eapply Forall_impl; [| exact Hall]. intros r Hr.
      now apply RankFacts.score_returned. }
    destruct (@RankFacts.map_all_returned _ _ _ _ Hall') as [results Hres].
    pose proof (@RankFacts.map_returned _ _ _ _ _ Hres) as Hrel.
    rewrite Hrun. unfold Db.rank. cbv zeta. fold candidates. rewrite Hres.
    eexists. split; [reflexivity |]. split; [reflexivity |]. split.
    + rewrite OutcomeFacts.slice0_length, SortFacts.sort_length.
      rewrite <- (Forall2_length Hrel). fold n.
      destruct (k <? 0)%Z; lia.
    + intros h Hh. apply SortFacts.slice0_incl in Hh.
      apply (Permutation_in _ (SortFacts.sort_perm Db.best_first _)) in Hh.
      destruct (@RankFacts.related_source _ _ _ _ _ h Hrel Hh)
        as (r & Hr & Hscore).
      apply RankFacts.scored in Hscore as (Hc & Hro & _).
      apply filter_In in Hr as [Hin Hs].
      apply RankFacts.in_session_iff in Hs.
      exists r. auto.
  - intros before r after e Hsplit Hbefore Hthrow.
    assert (Hres : JsArray.map_throwing (Db.score q) candidates = Throw e).
    { apply RankFacts.map_thrown. exists before, r, after.
      split; [exact Hsplit |]. split; [now apply RankFacts.score_thrown |].
      eapply Forall_impl; [| exact Hbefore]. intros r' Hr'.
      now apply RankFacts.score_returned. }
    rewrite Hrun. unfold Db.rank. cbv zeta. fold candidates. rewrite Hres.
    split; reflexivity.
Qed.

(* ------------------------------------------------------------------ *)
(** ** The table of sessions *)

Module SessionFacts.
Section Sessions.
Context {num : Type} {NUM : Number num}.
Implicit Types (s : jsstring) (tbl : list (jsstring * Session))
         (st : Store num).

Lemma eqb_neq (a b : jsstring) : a <> b -> JsString.eqb a b = false.
Proof.
  intros H. apply not_true_iff_false. intros E.
  apply ReadFacts.eqb_eq in E. contradiction.
Qed.

Lemma has_session_iff s tbl :
  Db.has_session s tbl = true <-> In s (map fst tbl).
Proof.
  unfold Db.has_session. rewrite existsb_exists, in_map_iff. split.
  - intros (kv & Hin & E). apply ReadFacts.eqb_eq in E. now exists kv.
  - intros (kv & E & Hin). exists kv. split; [exact Hin |].
    now apply ReadFacts.eqb_eq.
Qed.

Lemma has_session_get s tbl :
  Db.has_session s tbl = false <-> Inv.get_session s tbl = None.
Proof.
  unfold Db.has_session, Inv.get_session.
  induction tbl as [| kv tbl IH]; simpl; [tauto |].
  destruct (JsString.eqb (fst kv) s); simpl; [split; discriminate | exact IH].
Qed.

Lemma touch_keys s (t : Z) tbl :
  map fst (map (Db.touch s t) tbl) = map fst tbl.
Proof.
  rewrite map_map. apply map_ext. intros kv. unfold Db.touch.
  now destruct (JsString.eqb (fst kv) s).
Qed.

Lemma get_touched s (t : Z) tbl :
  Inv.get_session s (map (Db.touch s t) tbl)
  = option_map (fun x => mkSession (ses_id x) (createdAt x) t)
               (Inv.get_session s tbl).
Proof.
  unfold Inv.get_session.
  induction tbl as [| kv tbl IH]; simpl; [reflexivity |].
  assert (Hk : fst (Db.touch s t kv) = fst kv)
    by (unfold Db.touch; now destruct (JsString.eqb (fst kv) s)).
  rewrite Hk.
  destruct (JsString.eqb (fst kv) s) eqn:E; simpl; [| exact IH].
  unfold Db.touch. now rewrite E.
Qed.

Lemma get_untouched s s' (t : Z) tbl :
  s' <> s ->
  Inv.get_session s' (map (Db.touch s t) tbl) = Inv.get_session s' tbl.
Proof.
  intros Hne. unfold Inv.get_session.
  induction tbl as [| kv tbl IH]; simpl; [reflexivity |].
  assert (Hk : fst (Db.touch s t kv) = fst kv)
    by (unfold Db.touch; now destruct (JsString.eqb (fst kv) s)).
  rewrite Hk.
  destruct (JsString.eqb (fst kv) s') eqn:E'; simpl; [| exact IH].
  unfold Db.touch. apply ReadFacts.eqb_eq in E'.
  now rewrite eqb_neq by congruence.
Qed.

Lemma get_appended s s' (x : Session) tbl :
  Inv.get_session s' (tbl ++ [(s, x)])
  = match Inv.get_session s' tbl with
    | Some old => Some old
    | None => if JsString.eqb s s' then Some x else None
    end.
Proof.
  unfold Inv.get_session.
  induction tbl as [| kv tbl IH]; simpl.
  - now destruct (JsString.eqb s s').
  - destruct (JsString.eqb (fst kv) s'); [reflexivity | exact IH].
Qed.

Lemma get_inserted s s' (c u : Z) st :
  Inv.get_session s' (sessions (Db.insert_session s c u st))
  = match Inv.get_session s' (sessions st) with
    | Some old => Some old
    | None => if JsString.eqb s s' then Some (mkSession s c u) else None
    end.
Proof.
  unfold Db.insert_session.
  destruct (Db.has_session s (sessions st)) eqn:H; cbn [sessions].
  - destruct (Inv.get_session s' (sessions st)) eqn:G; [reflexivity |].
    destruct (JsString.eqb s s') eqn:E; [| reflexivity].
    apply ReadFacts.eqb_eq in E. subst s'.
    apply has_session_get in G. congruence.
  - apply get_appended.
Qed.

Lemma keyed_session s (c u : Z) st :
  Inv.keyed st -> Inv.keyed (Db.insert_session s c u st).
Proof.
  unfold Inv.keyed, Db.insert_session. intros H.
  destruct (Db.has_session s (sessions st)) eqn:E; [exact H |].
  cbn [sessions]. rewrite map_app. simpl.
  apply NoDup_app; [exact H | repeat constructor; intros [] |].
  intros k Hk [<- | []].
  apply has_session_iff in Hk. congruence.
Qed.

Lemma keyed_touch s (t : Z) st :
  Inv.keyed st -> Inv.keyed (Db.update_session t s st).
Proof.
  unfold Inv.keyed, Db.update_session. cbn [sessions].
  now rewrite touch_keys.
Qed.

Lemma insert_session_once s (c u c' u' : Z) st :
  Db.insert_session s c' u' (Db.insert_session s c u st)
  = Db.insert_session s c u st.
Proof.
  unfold Db.insert_session at 1.
  replace (Db.has_session s (sessions (Db.insert_session s c u st)))
    with true; [reflexivity |].
  symmetry. unfold Db.insert_session.
  destruct (Db.has_session s (sessions st)) eqn:E; [exact E |].
  cbn [sessions]. apply has_session_iff. rewrite map_app.
  apply in_or_app. right. now left.
Qed.

Lemma after_pass_sessions (W : World num) s (m : Machine num) :
  sessions (store (Step.after_pass W s m)) = sessions (store m).
Proof.
  apply RelFacts.after_pass_related
    with (R := fun a b : Store num => sessions b = sessions a); auto.
  - intros a b c Hab Hbc. congruence.
  - intros st. now rewrite MarkFacts.mark_summarized_rows.
Qed.

Lemma checked_sessions (W : World num) message s (m : Machine num) :
  sessions (store (Step.checked W message s m))
  = map (Db.touch s (now W (S (clock_reads m))))
        (sessions (Db.insert_session s (now W (clock_reads m))
                     (now W (clock_reads m)) (store m))).
Proof.
  unfold Step.checked. cbv zeta.
  destruct (Server.summary_due _); [rewrite after_pass_sessions |];
    reflexivity.
Qed.
End Sessions.
End SessionFacts.

(** X2. [INSERT OR IGNORE] creates a session once: a second insert
    under the same id changes nothing. After a request to [/api/chat] the
    session of the request exists; its [createdAt] is the one it had, or
    the time of the request when it was new; its [updatedAt] is the
    timestamp of the message stored last; every other session is as it
    was; and the keys of the table stay distinct. *)
Theorem sessions_are_created_once
        {num : Type} {NUM : Number num} (W : World num)
        (message : jsstring) (sessionId : option jsstring)
        (m : Machine num) :
  let s := Step.session_of sessionId in
  let st' := store (snd (Server.chat W message sessionId m)) in
  (forall (c u c' u' : Z) (st : Store num),
     Db.insert_session s c' u' (Db.insert_session s c u st)
     = Db.insert_session s c u st) /\
  (Inv.keyed (store m) -> Inv.keyed st') /\
  (forall s', s' <> s ->
     Inv.get_session s' (sessions st')
     = Inv.get_session s' (sessions (store m))) /\
  exists ses rows r,
    Inv.get_session s (sessions st') = Some ses /\
    createdAt ses
    = match Inv.get_session s (sessions (store m)) with
      | Some old => createdAt old
      | None => now W (clock_reads m)
      end /\
    messages st' = rows ++ [r] /\
    updatedAt ses = timestamp r.
Proof.
  intros s st'.
  split; [intros; apply SessionFacts.insert_session_once |].
  unfold st'. rewrite StepFacts.chat_run. fold s. cbn [snd].
  pose proof (SessionFacts.checked_sessions W message s m) as Hses.
  destruct (OutcomeFacts.checked_rows W message s m)
    as (kept & u & Hrows & _ & Hu).
  destruct Hu as (_ & _ & _ & _ & _ & Hts & _). simpl in Hts.
  set (t0 := now W (clock_reads m)) in *.
  set (t1 := now W (S (clock_reads m))) in *.
  assert (Hget1 :
            Inv.get_session s
              (sessions (store (Step.checked W message s m)))
            = Some (mkSession
                      (match Inv.get_session s (sessions (store m)) with
                       | Some old => ses_id old
                       | None => s
                       end)
                      (match Inv.get_session s (sessions (store m)) with
                       | Some old => createdAt old
                       | None => t0
                       end) t1)).
  { rewrite Hses, SessionFacts.get_touched, SessionFacts.get_inserted.
    destruct (Inv.get_session s (sessions (store m))); simpl;
      [reflexivity |].
    now rewrite ReadFacts.eqb_refl. }
  assert (Hkeys : map fst (sessions (store (Step.checked W message s m)))
                  = map fst (sessions (Db.insert_session s t0 t0 (store m))))
    by now rewrite Hses, SessionFacts.touch_keys.
  assert (Hother : forall s', s' <> s ->
             Inv.get_session s'
               (sessions (store (Step.checked W message s m)))
             = Inv.get_session s' (sessions (store m))).
  { intros s' Hne. rewrite Hses, SessionFacts.get_untouched by exact Hne.
    rewrite SessionFacts.get_inserted.
    destruct (Inv.get_session s' (sessions (store m))); [reflexivity |].
    now rewrite SessionFacts.eqb_neq by congruence. }
  unfold Step.after_chat. cbv zeta.
  destruct (completion W _ _) as [reply | e].
  - rewrite TurnFacts.saveMessage_run.
    unfold Db.update_session, Db.insert_message, Step.called.
    cbn [snd store sessions messages clock_reads].
    split; [| split].
    + intros Hk. unfold Inv.keyed. cbn [sessions].
      rewrite SessionFacts.touch_keys, Hkeys.
      now apply SessionFacts.keyed_session.
    + intros s' Hne. rewrite SessionFacts.get_untouched by exact Hne.
      now apply Hother.
    + rewrite SessionFacts.get_touched, Hget1. simpl.
      eexists _, _, _. split; [reflexivity |].
      split; [| split; reflexivity].
      simpl. reflexivity.
  - cbn [store]. split; [| split].
    + intros Hk. unfold Inv.keyed. rewrite Hkeys.
      now apply SessionFacts.keyed_session.
    + exact Hother.
    + rewrite Hget1. eexists _, kept, u.
      split; [reflexivity |]. split; [reflexivity |].
      split; [exact Hrows |]. simpl. now rewrite Hts.
Qed.

(* ------------------------------------------------------------------ *)
(** ** Ids after a restart *)

Module ShadowFacts.
Section Shadows.
Context {num : Type} {NUM : Number num}.
Implicit Types (rows pre post : list (Message num)) (x : Message num).

Lemma mark_first_found (i : Z) pre post :
  In i (map (@id num) pre) ->
  Db.mark_first i (pre ++ post) = Db.mark_first i pre ++ post.
Proof.
  induction pre as [| r pre IH]; simpl; [intros [] |].
  intros H. destruct (Z.eqb_spec (id r) i) as [E | E]; [reflexivity |].
  destruct H as [H | H]; [contradiction |]. now rewrite IH.
Qed.

Lemma mark_first_beyond (i : Z) pre post :
  ~ In i (map (@id num) pre) ->
  Db.mark_first i (pre ++ post) = pre ++ Db.mark_first i post.
Proof.
  induction pre as [| r pre IH]; simpl; [reflexivity |].
  intros H. destruct (Z.eqb_spec (id r) i) as [E | E]; [tauto |].
  rewrite IH; tauto.
Qed.

(** [UPDATE ... WHERE id = ?] never writes a row that comes after
    another row with its id. *)
Lemma shadowed_first (i : Z) x rows :
  Shadow.shadowed x rows -> Shadow.shadowed x (Db.mark_first i rows).
Proof.
  intros (pre & post & -> & Hin).
  destruct (in_dec Z.eq_dec i (map (@id num) pre)) as [Hi | Hi].
  - rewrite mark_first_found by exact Hi.
    exists (Db.mark_first i pre), post. split; [reflexivity |].
    now rewrite NumberFacts.mark_first_ids.
  - rewrite mark_first_beyond by exact Hi. simpl.
    destruct (Z.eqb_spec (id x) i) as [E | E]; [congruence |].
    exists pre, (Db.mark_first i post). auto.
Qed.

Lemma shadowed_marked (ids : list Z) x (st : Store num) :
  Shadow.shadowed x (messages st) ->
  Shadow.shadowed x (messages (Db.mark_summarized ids st)).
Proof.
  rewrite MarkFacts.mark_summarized_rows. cbn [messages].
  unfold Spec.mark_rows. generalize (messages st).
  induction ids as [| i ids IH]; intros rows H; simpl; [exact H |].
  apply IH. now apply shadowed_first.
Qed.

Lemma shadowed_appended x rows (added : list (Message num)) :
  Shadow.shadowed x rows -> Shadow.shadowed x (rows ++ added).
Proof.
  intros (pre & post & -> & Hin). exists pre, (post ++ added).
  split; [now rewrite <- app_assoc | exact Hin].
Qed.

Lemma shadowed_after_chat (W : World num) (message s : jsstring) x
      (m : Machine num) :
  Shadow.shadowed x (messages (store m)) ->
  Shadow.shadowed x (messages (store (Step.after_chat W message s m))).
Proof.
  apply RelFacts.after_chat_related
    with (R := fun a b : Store num =>
                 Shadow.shadowed x (messages a) ->
                 Shadow.shadowed x (messages b)); auto.
  - intros c u st. now rewrite InvariantFacts.insert_session_keeps.
  - intros r text tok ts emb st. apply shadowed_appended.
  - intros st. apply shadowed_marked.
Qed.

Lemma shadowed_served (W : World num) (requests : list Step.Request) x
      (m : Machine num) :
  Shadow.shadowed x (messages (store m)) ->
  Shadow.shadowed x (messages (store (Step.serve W requests m))).
Proof.
  unfold Step.serve. revert m.
  induction requests as [| r requests IH]; intros m H; simpl; [exact H |].
  apply IH. destruct r as [message sid | query sid limit];
    unfold Step.handle.
  - rewrite StepFacts.chat_run. now apply shadowed_after_chat.
  - now rewrite StepFacts.search_store.
Qed.

Lemma shadowed_stays x rows :
  Shadow.shadowed x rows -> In x rows.
Proof.
  intros (pre & post & -> & _). apply in_or_app. right. now left.
Qed.
End Shadows.
End ShadowFacts.

(** X4. [messageIdCounter] is 1 after a restart whatever the saved
    files hold, so the first message appended gets id 1. When a saved
    message has that id, the new message is stored after it, and no
    request served afterwards ever flags it: [UPDATE ... WHERE id = ?]
    writes the first row with the id. The user's message of the first
    request after such a restart stays unsummarized for good. *)
Theorem restart_shadows_new_messages
        {num : Type} {NUM : Number num} (W : World num)
        (saved : list (Message num)) (mems : list (Memory num))
        (sess : list (jsstring * Session))
        (message : jsstring) (sessionId : option jsstring)
        (requests : list Step.Request) :
  In 1%Z (map (@id num) saved) ->
  let s := Step.session_of sessionId in
  let m0 := Shadow.restarted saved mems sess in
  let u := Step.user_row W message s m0 in
  let m := Step.serve W (Step.Chat message sessionId :: requests) m0 in
  id u = 1%Z /\
  ~ NoDup (map (@id num) (messages (store (Spec.received W message s m0)))) /\
  Shadow.shadowed u (messages (store m)) /\
  In u (Spec.qualifying s (store m)) /\
  (1 <= Server.getMessageCount s (store m))%Z.
Proof.
  intros Hin s m0 u m.
  assert (Hrows : messages (store (Spec.received W message s m0))
                  = saved ++ [u])
    by apply OutcomeFacts.received_rows.
  assert (Hsh0 : Shadow.shadowed u
                   (messages (store (Spec.received W message s m0)))).
  { rewrite Hrows. exists saved, []. auto. }
  assert (Hsh : Shadow.shadowed u (messages (store m))).
  { unfold m. change (Step.serve W (Step.Chat message sessionId :: requests) m0)
      with (Step.serve W requests
              (snd (Server.chat W message sessionId m0))).
    apply ShadowFacts.shadowed_served.
    rewrite StepFacts.chat_run. fold s. cbn [snd].
    unfold Step.after_chat. cbv zeta.
    assert (Hc : Shadow.shadowed u
                   (messages (store (Step.checked W message s m0)))).
    { unfold Step.checked. cbv zeta.
      destruct (Server.summary_due _); [| exact Hsh0].
      revert Hsh0.
      apply RelFacts.after_pass_related
        with (R := fun a b : Store num =>
                     Shadow.shadowed u (messages a) ->
                     Shadow.shadowed u (messages b)); auto.
      intros st. apply ShadowFacts.shadowed_marked. }
    destruct (completion W _ _) as [reply | e]; [| exact Hc].
    rewrite TurnFacts.saveMessage_run.
    unfold Db.update_session, Db.insert_message. cbn [snd store messages].
    now apply ShadowFacts.shadowed_appended. }
  assert (Hq : In u (Spec.qualifying s (store m))).
  { unfold Spec.qualifying. apply filter_In.
    split; [now apply ShadowFacts.shadowed_stays |].
    apply ReadFacts.unsummarized_iff. split; reflexivity. }
  split; [reflexivity |]. split; [| split; [exact Hsh | split; [exact Hq |]]].
  - rewrite Hrows, map_app. simpl. intros Hnd.
    apply NoDup_remove_2 in Hnd. rewrite app_nil_r in Hnd. now apply Hnd.
  - unfold Server.getMessageCount, Db.count_messages.
    fold (Spec.qualifying s (store m)).
    destruct (Spec.qualifying s (store m)); [destruct Hq | simpl; lia].
Qed.

(* ------------------------------------------------------------------ *)
(** ** What the fallback embedding sees of a text *)

Module BucketFacts.
Section AnyArithmetic.
Context {num : Type} {NUM : Number num}.

Lemma occurrences_permuted (a b : jsstring) (k : nat) :
  Permutation (map (fun c => (c mod 128)%N) a)
              (map (fun c => (c mod 128)%N) b) ->
  Embedding.occurrences k a = Embedding.occurrences k b.
Proof.
  intros H. unfold Embedding.occurrences.
  rewrite <- (map_map (fun c => (c mod 128)%N) N.to_nat a).
  rewrite <- (map_map (fun c => (c mod 128)%N) N.to_nat b).
  apply Permutation_count_occ. now apply Permutation_map.
Qed.

Lemma histogram_permuted (a b : jsstring) :
  Permutation (map (fun c => (c mod 128)%N) a)
              (map (fun c => (c mod 128)%N) b) ->
  Embedding.histogram (num := num) a = Embedding.histogram b.
Proof.
  intros H. rewrite !EmbeddingFacts.histogram_counts.
  unfold Embedding.histogram_spec. apply map_ext. intros k.
  f_equal. now apply occurrences_permuted.
Qed.
End AnyArithmetic.
End BucketFacts.

(** X10. The fallback embedding sees of a text only how often each
    residue modulo 128 occurs among its code units: two texts whose
    residues are a rearrangement of one another (anagrams, or texts
    that differ by characters 128 apart) get the same vector, in any
    arithmetic. *)
Theorem fallback_embedding_ignores_order
        {num : Type} {NUM : Number num} (a b : jsstring) :
  Permutation (map (fun c => (c mod 128)%N) a)
              (map (fun c => (c mod 128)%N) b) ->
  Embedding.simpleEmbedding (num := num) a = Embedding.simpleEmbedding b.
Proof.
  intros H. unfold Embedding.simpleEmbedding. cbv zeta.
  assert (E : Embedding.histogram (num := num) a = Embedding.histogram b)
    by now apply BucketFacts.histogram_permuted.
  now rewrite E.
Qed.

Lemma fallback_order_witness :
  Embedding.simpleEmbedding (num := float) [97; 98]%N
  = Embedding.simpleEmbedding [98; 225]%N.
Proof.
  apply (@fallback_embedding_ignores_order float _
           [97; 98]%N [98; 225]%N).
  apply perm_swap.
Defined.


(* ------------------------------------------------------------------ *)
(** ** The two stores *)

Module BackendFacts.
Section Maps.
Variables (A B : Type) (f : A -> B).

Lemma filter_mapped (p : A -> bool) (q : B -> bool) (l : list A) :
  (forall x, q (f x) = p x) ->
  filter q (map f l) = map f (filter p l).
Proof.
  intros H. induction l as [| x l IH]; simpl; [reflexivity |].
  rewrite H, IH. now destruct (p x).
Qed.

Lemma insert_mapped (after : A -> A -> bool) (after' : B -> B -> bool)
      (x : A) (l : list A) :
  (forall a b, after' (f a) (f b) = after a b) ->
  JsArray.insert after' (f x) (map f l) = map f (JsArray.insert after x l).
Proof.
  intros H. induction l as [| y l IH]; simpl; [reflexivity |].
  rewrite H, IH. now destruct (after x y).
Qed.

Lemma sort_mapped (after : A -> A -> bool) (after' : B -> B -> bool)
      (l : list A) :
  (forall a b, after' (f a) (f b) = after a b) ->
  JsArray.sort after' (map f l) = map f (JsArray.sort after l).
Proof.
  intros H. induction l as [| x l IH]; simpl; [reflexivity |].
  fold (JsArray.sort after' (map f l)). fold (JsArray.sort after l).
  rewrite IH. now apply insert_mapped.
Qed.

Lemma slice0_mapped (l : list A) (limit : Z) :
  JsArray.slice0 (map f l) limit = map f (JsArray.slice0 l limit).
Proof.
  unfold JsArray.slice0. cbv zeta. rewrite length_map.
  apply firstn_map.
Qed.
End Maps.

Section Rows.
Context {num : Type} {NUM : Number num}.

Lemma unsummarized_erased (s : jsstring) (m : Message num) :
  MemoryStorage.unsummarized s (Forget.row_of m)
  = Db.unsummarized s m.
Proof. reflexivity. Qed.

Lemma mark_first_erased (i : Z) (rows : list (Message num)) :
  MemoryStorage.mark_first i (map Forget.row_of rows)
  = map Forget.row_of (Db.mark_first i rows).
Proof.
  induction rows as [| m rows IH]; simpl; [reflexivity |].
  destruct (id m =? i)%Z; simpl; [reflexivity | now rewrite IH].
Qed.

Lemma update_message_erased (i : Z) (st : Store num) :
  Forget.erase (Db.update_message i st)
  = MemoryStorage.update_message i (Forget.erase st).
Proof.
  unfold Forget.erase, MemoryStorage.update_message,
    Db.update_message. simpl. now rewrite mark_first_erased.
Qed.

Lemma mark_summarized_erased (ids : list Z) (st : Store num) :
  Forget.erase (Db.mark_summarized ids st)
  = MemoryStorage.mark_summarized ids (Forget.erase st).
Proof.
  unfold Db.mark_summarized, MemoryStorage.mark_summarized. revert st.
  induction ids as [| i ids IH]; intros st; simpl; [reflexivity |].
  now rewrite IH, update_message_erased.
Qed.
End Rows.
End BackendFacts.

(** X12. The in-memory store is the vector store without embeddings:
    every writing statement commutes with erasing the embeddings, and
    every SELECT of the in-memory store returns, on the erased tables,
    the rows the vector store selects (whole, where the vector store
    projects them). *)
Theorem stores_agree_up_to_embeddings
        {num : Type} {NUM : Number num} (st : Store num) (s : jsstring) :
  (forall created updated,
     Forget.erase (Db.insert_session s created updated st)
     = MemoryStorage.insert_session s created updated
         (Forget.erase st)) /\
  (forall r text tok ts emb,
     Forget.erase (Db.insert_message s r text tok ts emb st)
     = MemoryStorage.insert_message s r text tok ts
         (Forget.erase st)) /\
  (forall updated,
     Forget.erase (Db.update_session updated s st)
     = MemoryStorage.update_session updated s (Forget.erase st)) /\
  (forall text created emb,
     Forget.erase (Db.insert_memory s text created emb st)
     = MemoryStorage.insert_memory s text created
         (Forget.erase st)) /\
  (forall ids,
     Forget.erase (Db.mark_summarized ids st)
     = MemoryStorage.mark_summarized ids (Forget.erase st)) /\
  MemoryStorage.count_messages s (Forget.erase st)
  = Db.count_messages s st /\
  (forall limit,
     MemoryStorage.select_recent s limit (Forget.erase st)
     = map Forget.row_of (Db.recent_rows s limit st)) /\
  MemoryStorage.select_summaries s (Forget.erase st)
  = map Forget.summary_of (Db.memory_rows s st) /\
  MemoryStorage.select_unsummarized s (Forget.erase st)
  = map Forget.row_of (Db.unsummarized_rows s st).
Proof.
  assert (Hf : filter (MemoryStorage.unsummarized s)
                 (map Forget.row_of (messages st))
               = map Forget.row_of
                   (filter (Db.unsummarized s) (messages st)))
    by (apply BackendFacts.filter_mapped; reflexivity).
  repeat match goal with |- _ /\ _ => split end.
  - intros created updated.
    unfold Db.insert_session, MemoryStorage.insert_session, Db.has_session.
    cbn [Forget.erase MemoryStorage.sessions].
    now destruct (existsb _ (sessions st)).
  - intros r text tok ts emb.
    unfold Db.insert_message, MemoryStorage.insert_message,
      Forget.erase. simpl. now rewrite map_app.
  - intros updated. reflexivity.
  - intros text created emb.
    unfold Db.insert_memory, MemoryStorage.insert_memory,
      Forget.erase. simpl. now rewrite map_app.
  - intros ids. apply BackendFacts.mark_summarized_erased.
  - unfold MemoryStorage.count_messages, Db.count_messages.
    cbn [Forget.erase MemoryStorage.messages].
    now rewrite Hf, length_map.
  - intros limit. unfold MemoryStorage.select_recent, Db.recent_rows.
    cbn [Forget.erase MemoryStorage.messages]. rewrite Hf.
    rewrite <- BackendFacts.slice0_mapped. f_equal.
    apply BackendFacts.sort_mapped. reflexivity.
  - unfold MemoryStorage.select_summaries, Db.memory_rows.
    cbn [Forget.erase MemoryStorage.longTermMemory].
    rewrite (BackendFacts.filter_mapped Forget.summary_of
               (fun m : Memory num => JsString.eqb (mem_session_id m) s))
      by reflexivity.
    apply BackendFacts.sort_mapped. reflexivity.
  - unfold MemoryStorage.select_unsummarized, Db.unsummarized_rows.
    cbn [Forget.erase MemoryStorage.messages]. rewrite Hf.
    apply BackendFacts.sort_mapped. reflexivity.
Qed.

(* ------------------------------------------------------------------ *)
(** ** The ids given to the marking transaction *)

Module TransactionFacts.
Section Marks.
Context {num : Type} {NUM : Number num}.
Implicit Types (rows : list (Message num)) (ids : list Z).

Lemma mark_first_twice (i : Z) rows :
  Db.mark_first i (Db.mark_first i rows) = Db.mark_first i rows.
Proof. apply MarkFacts.mark_first_settled, MarkFacts.mark_first_settles. Qed.

Lemma mark_first_swap (i j : Z) rows :
  Db.mark_first i (Db.mark_first j rows)
  = Db.mark_first j (Db.mark_first i rows).
Proof.
  induction rows as [| m rows IH]; [reflexivity |].
  cbn [Db.mark_first].
  destruct (Z.eqb_spec (id m) j) as [Ej | Ej];
    destruct (Z.eqb_spec (id m) i) as [Ei | Ei];
    cbn [Db.mark_first Db.set_summarized id].
  - rewrite !(proj2 (Z.eqb_eq _ _)) by assumption.
    now rewrite MarkFacts.set_summarized_twice.
  - rewrite (proj2 (Z.eqb_neq _ _) Ei), (proj2 (Z.eqb_eq _ _) Ej).
    reflexivity.
  - rewrite (proj2 (Z.eqb_eq _ _) Ei), (proj2 (Z.eqb_neq _ _) Ej).
    reflexivity.
  - rewrite (proj2 (Z.eqb_neq _ _) Ei), (proj2 (Z.eqb_neq _ _) Ej).
    now rewrite IH.
Qed.

Lemma mark_rows_permuted ids ids' :
  Permutation ids ids' ->
  forall rows, Spec.mark_rows ids rows = Spec.mark_rows ids' rows.
Proof.
  unfold Spec.mark_rows.
  induction 1 as [| i l l' _ IH | i j l | l l' l'' _ IH1 _ IH2];
    intros rows; simpl.
  - reflexivity.
  - apply IH.
  - now rewrite mark_first_swap.
  - now rewrite IH1.
Qed.

Lemma mark_rows_repeated (i : Z) ids rows :
  In i ids -> Spec.mark_rows (i :: ids) rows = Spec.mark_rows ids rows.
Proof.
  intros Hin. destruct (in_split _ _ Hin) as (l1 & l2 & ->).
  rewrite (@mark_rows_permuted (i :: l1 ++ i :: l2) (i :: i :: l1 ++ l2))
    by (constructor; symmetry; apply Permutation_middle).
  rewrite (@mark_rows_permuted (l1 ++ i :: l2) (i :: l1 ++ l2))
    by (symmetry; apply Permutation_middle).
  unfold Spec.mark_rows. simpl. now rewrite mark_first_twice.
Qed.

Lemma mark_rows_nodup ids rows :
  Spec.mark_rows (nodup Z.eq_dec ids) rows = Spec.mark_rows ids rows.
Proof.
  revert rows. induction ids as [| i ids IH]; intros rows; [reflexivity |].
  simpl nodup. destruct (in_dec Z.eq_dec i ids) as [Hin | Hin].
  - now rewrite IH, mark_rows_repeated.
  - unfold Spec.mark_rows in *. simpl. apply IH.
Qed.
End Marks.
End TransactionFacts.

(** X13. The marking transaction depends only on the set of ids it is
    given: neither their order nor a repeated id changes the tables it
    leaves. *)
Theorem marking_depends_on_the_set_of_ids
        {num : Type} {NUM : Number num} (ids ids' : list Z)
        (st : Store num) :
  (forall i, In i ids <-> In i ids') ->
  Db.mark_summarized ids st = Db.mark_summarized ids' st.
Proof.
  intros Hsame. rewrite !MarkFacts.mark_summarized_rows. f_equal.
  rewrite <- (TransactionFacts.mark_rows_nodup ids),
          <- (TransactionFacts.mark_rows_nodup ids').
  apply TransactionFacts.mark_rows_permuted.
  apply NoDup_Permutation; try apply NoDup_nodup.
  intros i. rewrite !nodup_In. apply Hsame.
Qed.

Lemma marking_set_witness :
  Db.mark_summarized [1; 2; 1]%Z Scenario.five
  = Db.mark_summarized [2; 1]%Z Scenario.five.
Proof.
  apply (@marking_depends_on_the_set_of_ids float _ [1; 2; 1]%Z [2; 1]%Z).
  intros i. simpl. tauto.
Defined.

(* ------------------------------------------------------------------ *)
(** ** What the completion endpoint is shown *)

Module ContextFacts.
Section Contexts.
Context {num : Type} {NUM : Number num}.
Variable W : World num.

Lemma context_parts s (st : Store num) :
  Server.buildContext s st
  = mkChatMsg system Server.SYSTEM_PROMPT
    :: (if (Z.of_nat (length (Server.getLongTermMemory s st)) >? 0)%Z
        then [mkChatMsg system
                (Server.SUMMARY_HEADER ++
                 JsString.join (Server.nl ++ Server.nl)
                   (map row_summary (Server.getLongTermMemory s st)))]
        else [])
    ++ Server.getRecentHistory s 12 st.
Proof.
  unfold Server.buildContext.
  change (Config.MAX_SHORT_TERM_ROUNDS * 2)%Z with 12%Z.
  replace (map (fun msg => mkChatMsg (cm_role msg) (cm_content msg))
               (Server.getRecentHistory s 12 st))
    with (Server.getRecentHistory s 12 st)
    by (rewrite <- (map_id (Server.getRecentHistory s 12 st)) at 1;
        apply map_ext; now intros []).
  destruct (Z.of_nat (length (Server.getLongTermMemory s st)) >? 0)%Z;
    reflexivity.
Qed.

Lemma window_length s (limit : Z) (st : Store num) :
  (0 <= limit)%Z ->
  Z.of_nat (length (Server.getRecentHistory s limit st))
  = Z.min limit (Server.getMessageCount s st).
Proof.
  intros Hl. rewrite ReadFacts.history_rows, length_map, length_rev.
  unfold Db.recent_rows. rewrite OutcomeFacts.slice0_length.
  rewrite SortFacts.sort_length.
  unfold Server.getMessageCount, Db.count_messages.
  destruct (Z.ltb_spec limit 0); lia.
Qed.

Lemma no_window s (limit : Z) (st : Store num) :
  Spec.qualifying s st = [] -> Server.getRecentHistory s limit st = [].
Proof.
  intros HQ. rewrite ReadFacts.history_rows.
  unfold Db.recent_rows. fold (Spec.qualifying s st). rewrite HQ.
  unfold JsArray.slice0. simpl. now rewrite firstn_nil.
Qed.

Lemma memories_read s (a b : Store num) :
  memories a = memories b ->
  Server.getLongTermMemory s a = Server.getLongTermMemory s b.
Proof.
  intros E. unfold Server.getLongTermMemory, Db.select_summaries,
              Db.memory_rows. now rewrite E.
Qed.

Lemma summaries_count s (st : Store num) :
  length (Server.getLongTermMemory s st)
  = length (Spec.summaries_of s st).
Proof.
  unfold Server.getLongTermMemory, Db.select_summaries, Db.memory_rows.
  rewrite length_map, SortFacts.sort_length. reflexivity.
Qed.

Lemma due_at_least_ten (count : Z) :
  Server.summary_due count = true -> (10 <= count)%Z.
Proof.
  unfold Server.summary_due.
  change Config.SUMMARY_TRIGGER_ROUNDS with 10%Z.
  intros H. apply andb_prop in H as [Hpos Hrem].
  apply Z.gtb_lt in Hpos. apply Z.eqb_eq in Hrem.
  rewrite Z.rem_mod_nonneg in Hrem by lia.
  pose proof (Z.div_mod count 10 ltac:(lia)). lia.
Qed.

Lemma numbered_received (message s : jsstring) (m : Machine num) :
  Inv.well_numbered (store m) ->
  Inv.well_numbered (store (Spec.received W message s m)).
Proof.
  apply RelFacts.received_related
    with (R := fun a b => Inv.well_numbered a -> Inv.well_numbered b);
    auto using NumberFacts.numbered_session, NumberFacts.numbered_message,
      NumberFacts.numbered_marked.
Qed.

(** The newest row of a table comes first in the descending order. *)
Lemma newest_leads (u : Message num) (rows : list (Message num)) :
  (forall r, In r rows -> (timestamp r < timestamp u)%Z) ->
  JsArray.sort Db.newest_first (rows ++ [u])
  = u :: JsArray.sort Db.newest_first rows.
Proof.
  induction rows as [| r rows IH]; intros H; [reflexivity |].
  change (JsArray.sort Db.newest_first ((r :: rows) ++ [u]))
    with (JsArray.insert Db.newest_first r
            (JsArray.sort Db.newest_first (rows ++ [u]))).
  rewrite IH by (intros x Hx; apply H; now right).
  change (JsArray.sort Db.newest_first (r :: rows))
    with (JsArray.insert Db.newest_first r
            (JsArray.sort Db.newest_first rows)).
  apply SortFacts.insert_behind.
  unfold Db.newest_first. apply Z.gtb_lt.
  specialize (H r (or_introl eq_refl)). lia.
Qed.

(** The check leaves the tables alone when the trigger does not fire
    or the summarizer fails. *)
Lemma checked_quiet (message s : jsstring) (m : Machine num) :
  let m1 := Spec.received W message s m in
  (Server.summary_due (Server.getMessageCount s (store m1)) = false \/
   exists e, completion W (completion_calls m1)
                        (Server.summaryMessages (Spec.batch s m1))
             = Failure e) ->
  store (Step.checked W message s m) = store m1.
Proof.
  intros m1 Hquiet. unfold Step.checked. cbv zeta. fold m1.
  destruct Hquiet as [Hdue | [e Hfail]]; [now rewrite Hdue |].
  destruct (Server.summary_due _); [| reflexivity].
  unfold Step.after_pass. cbv zeta.
  destruct (Z.of_nat (length (Spec.batch s m1)) <? 5)%Z; [reflexivity |].
  now rewrite Hfail.
Qed.

(** The check flags the whole batch when the trigger fires and the
    summarizer answers. *)
Lemma checked_pass (message s text : jsstring) (m : Machine num) :
  let m1 := Spec.received W message s m in
  Inv.well_numbered (store m) ->
  Server.summary_due (Server.getMessageCount s (store m1)) = true ->
  completion W (completion_calls m1)
             (Server.summaryMessages (Spec.batch s m1)) = Answer text ->
  store (Step.checked W message s m)
  = Db.mark_summarized (map row_id (Spec.batch s m1))
      (Db.insert_memory s text (now W (clock_reads m1))
         (Run.embedding_of W (embedding_calls m1) text) (store m1)) /\
  Spec.qualifying s (store (Step.checked W message s m)) = [].
Proof.
  intros m1 Hwn Hdue Hok.
  pose proof (due_at_least_ten _ Hdue) as H10.
  rewrite <- PassFacts.batch_length in H10.
  assert (H5 : (5 <= length (Spec.batch s m1))%nat) by lia.
  assert (Hmc : store (Step.checked W message s m)
                = Db.mark_summarized (map row_id (Spec.batch s m1))
                    (Db.insert_memory s text (now W (clock_reads m1))
                       (Run.embedding_of W (embedding_calls m1) text)
                       (store m1))).
  { unfold Step.checked. cbv zeta. fold m1. rewrite Hdue.
    pose proof (StepFacts.generateSummary_run W s m1) as Hrun.
    rewrite (PassFacts.pass_succeeded W s m1 H5 Hok) in Hrun.
    injection Hrun as <-. reflexivity. }
  split; [exact Hmc |].
  rewrite Hmc, MarkFacts.mark_summarized_rows.
  unfold Spec.qualifying. cbn [messages Db.insert_memory].
  apply PassFacts.marked_batch_consumed.
  - apply (numbered_received message s) in Hwn. exact (proj1 Hwn).
  - intros r Hr.
    apply (Permutation_in _ (Permutation_sym (PassFacts.batch_ids s m1))).
    now apply in_map.
Qed.
End Contexts.
End ContextFacts.

(** X14. When the trigger fires in a request to [/api/chat] on a table
    with distinct ids, the batch has at least ten messages, so the
    guard on five never stops the pass; and when the summarizer
    answers, the context built for the reply holds the system
    instruction and the summaries only: the message just received is
    in the batch, and the completion endpoint is not shown it or any
    other message of the conversation. The reply then reports no
    short-term round. *)
Theorem reply_after_a_pass_sees_no_message
        {num : Type} {NUM : Number num} (W : World num)
        (message : jsstring) (sessionId : option jsstring)
        (m : Machine num) (text : jsstring) :
  let s := Step.session_of sessionId in
  let m1 := Spec.received W message s m in
  let mc := Step.checked W message s m in
  Inv.well_numbered (store m) ->
  Server.summary_due (Server.getMessageCount s (store m1)) = true ->
  completion W (completion_calls m1)
             (Server.summaryMessages (Spec.batch s m1)) = Answer text ->
  (10 <= length (Spec.batch s m1))%nat /\
  In (Step.user_row W message s m) (Spec.qualifying s (store m1)) /\
  Spec.qualifying s (store mc) = [] /\
  In text (map row_summary (Server.getLongTermMemory s (store mc))) /\
  Server.buildContext s (store mc)
  = [mkChatMsg system Server.SYSTEM_PROMPT;
     mkChatMsg system
       (Server.SUMMARY_HEADER ++
        JsString.join (Server.nl ++ Server.nl)
          (map row_summary (Server.getLongTermMemory s (store mc))))] /\
  (forall reply,
     completion W (completion_calls mc)
                (Server.buildContext s (store mc)) = Answer reply ->
     exists total longTerm,
       fst (Server.chat W message sessionId m)
       = Return (ChatOk reply total longTerm 0)).
Proof.
  intros s m1 mc Hwn Hdue Hok.
  pose proof (ContextFacts.due_at_least_ten _ Hdue) as H10.
  rewrite <- PassFacts.batch_length in H10.
  destruct (@ContextFacts.checked_pass _ _ W message s text m Hwn Hdue Hok)
    as [Hmc HQ].
  fold mc m1 in Hmc, HQ.
  assert (Hin : In text
                  (map row_summary
                       (Server.getLongTermMemory s (store mc)))).
  { rewrite Hmc, MarkFacts.mark_summarized_rows.
    unfold Server.getLongTermMemory, Db.select_summaries, Db.memory_rows.
    cbn [memories Db.insert_memory]. rewrite map_map. cbn [row_summary].
    apply in_map_iff.
    exists (mkMemory s text (now W (clock_reads m1))
                     (Run.embedding_of W (embedding_calls m1) text)).
    split; [reflexivity |].
    eapply Permutation_in;
      [apply Permutation_sym, SortFacts.sort_perm |].
    apply filter_In. split.
    - apply in_or_app. right. now left.
    - cbn [mem_session_id]. apply ReadFacts.eqb_refl. }
  assert (Hctx : Server.buildContext s (store mc)
                 = [mkChatMsg system Server.SYSTEM_PROMPT;
                    mkChatMsg system
                      (Server.SUMMARY_HEADER ++
                       JsString.join (Server.nl ++ Server.nl)
                         (map row_summary
                              (Server.getLongTermMemory s (store mc))))]).
  { rewrite ContextFacts.context_parts.
    rewrite (ContextFacts.no_window s 12 (store mc) HQ), app_nil_r.
    destruct (Server.getLongTermMemory s (store mc)) as [| x l];
      [destruct Hin | reflexivity]. }
  split; [lia |]. split; [| split; [exact HQ |
    split; [exact Hin | split; [exact Hctx |]]]].
  - unfold Spec.qualifying, m1. rewrite OutcomeFacts.received_rows.
    rewrite filter_app. apply in_or_app. right. simpl.
    unfold Db.unsummarized, Db.in_session. cbn [session_id is_summarized].
    rewrite ReadFacts.eqb_refl. simpl. now left.
  - intros reply Hreply.
    rewrite StepFacts.chat_run. cbn [fst]. fold s.
    unfold Step.reply_of. cbv zeta. fold mc. rewrite Hreply.
    rewrite (ContextFacts.memories_read s _ _
               (OutcomeFacts.after_chat_memories W message s m)).
    fold mc. rewrite Hctx.
    destruct (Server.getLongTermMemory s (store mc)) as [| x l] eqn:E;
      [destruct Hin |].
    cbn [length].
    replace (Z.of_nat (S (length l)) >? 0)%Z with true
      by (symmetry; apply Z.gtb_lt; lia).
    do 2 eexists. reflexivity.
Qed.

Lemma reply_after_pass_witness :
  Server.buildContext Scenario.s1
    (store (Step.checked Scenario.world Scenario.hi Scenario.s1
              Scenario.nine))
  = [mkChatMsg system Server.SYSTEM_PROMPT;
     mkChatMsg system
       (Server.SUMMARY_HEADER ++
        JsString.join (Server.nl ++ Server.nl)
          (map row_summary
             (Server.getLongTermMemory Scenario.s1
                (store (Step.checked Scenario.world Scenario.hi
                          Scenario.s1 Scenario.nine)))))].
Proof.
  refine (proj1 (proj2 (proj2 (proj2 (proj2
            (@reply_after_a_pass_sees_no_message float _ Scenario.world
               Scenario.hi (Some Scenario.s1) Scenario.nine
               (JsString.lit "ok") _ _ _)))))).
  - split.
    + vm_compute.
      repeat (constructor; [simpl; intuition discriminate |]). constructor.
    + vm_compute. repeat constructor.
  - vm_compute. reflexivity.
  - reflexivity.
Defined.

(** X15. When the trigger does not fire, or the summarizer fails, and
    the clock has moved on since the session's unsummarized messages
    were stored, the context built for the reply ends with the message
    just received, after at most thirteen earlier entries. *)
Theorem context_ends_with_the_request
        {num : Type} {NUM : Number num} (W : World num)
        (message : jsstring) (sessionId : option jsstring)
        (m : Machine num) :
  let s := Step.session_of sessionId in
  let m1 := Spec.received W message s m in
  let mc := Step.checked W message s m in
  (forall r, In r (messages (store m)) ->
             session_id r = s -> is_summarized r = 0%Z ->
             (timestamp r < now W (S (clock_reads m)))%Z) ->
  (Server.summary_due (Server.getMessageCount s (store m1)) = false \/
   exists e, completion W (completion_calls m1)
                        (Server.summaryMessages (Spec.batch s m1))
             = Failure e) ->
  store mc = store m1 /\
  exists earlier,
    Server.buildContext s (store mc)
    = earlier ++ [mkChatMsg user message] /\
    (length earlier <= 13)%nat.
Proof.
  intros s m1 mc Hclock Hquiet.
  assert (Hmc : store mc = store m1)
    by exact (@ContextFacts.checked_quiet _ _ W message s m Hquiet).
  split; [exact Hmc |].
  rewrite Hmc, ContextFacts.context_parts, ReadFacts.history_rows.
  unfold Db.recent_rows, m1. rewrite OutcomeFacts.received_rows.
  set (u := Step.user_row W message s m).
  assert (Hu : Db.unsummarized s u = true).
  { unfold Db.unsummarized, Db.in_session, u.
    cbn [session_id is_summarized Step.user_row].
    now rewrite ReadFacts.eqb_refl. }
  rewrite filter_app. cbn [filter]. rewrite Hu.
  rewrite ContextFacts.newest_leads.
  2:{ intros r Hr. apply filter_In in Hr as [Hr Hq].
      apply ReadFacts.unsummarized_iff in Hq as [Hs H0].
      exact (Hclock r Hr Hs H0). }
  rewrite SortFacts.slice0_firstn by lia.
  change (Z.to_nat 12) with (S 11). rewrite firstn_cons.
  cbn [rev]. rewrite map_app.
  fold m1.
  set (older := map (@Db.role_content num) (rev (firstn 11 _))).
  set (summaries := if (_ >? 0)%Z then _ else _).
  exists (mkChatMsg system Server.SYSTEM_PROMPT :: summaries ++ older).
  split.
  - cbn [map app]. now rewrite <- app_assoc.
  - cbn [length]. rewrite length_app.
    assert (length summaries <= 1)%nat
      by (unfold summaries; destruct (_ >? 0)%Z; simpl; lia).
    assert (length older <= 11)%nat.
    { unfold older. rewrite length_map, length_rev, length_firstn. lia. }
    lia.
Qed.

Lemma context_request_witness :
  exists earlier,
    Server.buildContext Scenario.s1
      (store (Step.checked Scenario.world Scenario.hi Scenario.s1
                (mkMachine Scenario.five 10 0 0 [])))
    = earlier ++ [mkChatMsg user Scenario.hi] /\
    (length earlier <= 13)%nat.
Proof.
  refine (proj2 (@context_ends_with_the_request float _ Scenario.world
                   Scenario.hi (Some Scenario.s1)
                   (mkMachine Scenario.five 10 0 0 []) _ _)).
  - intros r Hr _ _. vm_compute in Hr.
    repeat (destruct Hr as [<- | Hr]; [reflexivity |]). destruct Hr.
  - left. vm_compute. reflexivity.
Defined.

(** X17. What a reply of [/api/chat] reports: [totalMessages] is one
    more than the session's unsummarized count after the user's
    message was stored (at least 2), [longTermMemory] is the number of
    summaries of the session, and [shortTermRounds] is half the size of
    the window, rounded down, hence between 0 and 6. *)
Theorem reply_reports_the_window
        {num : Type} {NUM : Number num} (W : World num)
        (message : jsstring) (sessionId : option jsstring)
        (m : Machine num) (reply : jsstring) (total longTerm rounds : Z) :
  let s := Step.session_of sessionId in
  let m1 := Spec.received W message s m in
  let mc := Step.checked W message s m in
  fst (Server.chat W message sessionId m)
  = Return (ChatOk reply total longTerm rounds) ->
  completion W (completion_calls mc) (Server.buildContext s (store mc))
  = Answer reply /\
  total = (Server.getMessageCount s (store m) + 2)%Z /\
  longTerm = Z.of_nat (length (Spec.summaries_of s (store mc))) /\
  rounds = (Z.of_nat (length (Server.getRecentHistory s 12 (store mc))) / 2)%Z
  /\ rounds = (Z.min 12 (Server.getMessageCount s (store mc)) / 2)%Z /\
  (0 <= rounds <= 6)%Z.
Proof.
  intros s m1 mc Hreply.
  assert (Hr : Return (Step.reply_of W message s m)
               = Return (ChatOk reply total longTerm rounds))
    by (rewrite <- Hreply, StepFacts.chat_run; reflexivity).
  clear Hreply. injection Hr as Hreply.
  unfold Step.reply_of in Hreply. cbv zeta in Hreply.
  fold mc in Hreply. fold m1 in Hreply.
  destruct (completion W (completion_calls mc)
                       (Server.buildContext s (store mc)))
    as [answer | e]; [| discriminate].
  rewrite (ContextFacts.memories_read s _ _
             (OutcomeFacts.after_chat_memories W message s m)) in Hreply.
  fold mc in Hreply.
  injection Hreply as -> Htotal Hlong Hrounds.
  assert (Hwin : rounds
                 = (Z.of_nat (length (Server.getRecentHistory s 12 (store mc)))
                    / 2)%Z).
  { rewrite <- Hrounds, ContextFacts.context_parts. cbn [length].
    rewrite length_app.
    destruct (Z.of_nat (length (Server.getLongTermMemory s (store mc)))
              >? 0)%Z; cbn [length]; f_equal; lia. }
  assert (Hlen : Z.of_nat (length (Server.getRecentHistory s 12 (store mc)))
                 = Z.min 12 (Server.getMessageCount s (store mc)))
    by (apply ContextFacts.window_length; lia).
  change (Server.getMessageCount s (store m1) + 1 = total)%Z in Htotal.
  pose proof (TurnFacts.count_nonneg s (store mc)) as Hpos.
  split; [reflexivity |]. split; [| split; [| split; [exact Hwin | split]]].
  - rewrite <- Htotal. fold m1. unfold m1.
    rewrite TurnFacts.count_received. lia.
  - now rewrite <- Hlong, ContextFacts.summaries_count.
  - now rewrite Hwin, Hlen.
  - rewrite Hwin, Hlen.
    set (w := Z.min 12 (Server.getMessageCount s (store mc))).
    assert (0 <= w <= 12)%Z by (unfold w; lia).
    pose proof (Z.div_mod w 2 ltac:(lia)).
    pose proof (Z.mod_pos_bound w 2 ltac:(lia)). lia.
Qed.

Lemma reply_reports_witness :
  (11 = Server.getMessageCount Scenario.s1 (store Scenario.nine) + 2)%Z /\
  (0 <= 0 <= 6)%Z.
Proof.
  pose proof (@reply_reports_the_window float _ Scenario.world Scenario.hi
                (Some Scenario.s1) Scenario.nine (JsString.lit "ok")
                11 1 0 eq_refl) as H.
  cbv zeta in H.
  exact (conj (proj1 (proj2 H)) (proj2 (proj2 (proj2 (proj2 (proj2 H)))))).
Defined.

(* ------------------------------------------------------------------ *)
(** ** Search without an embeddings endpoint *)

Module OfflineFacts.
Section Offline.
Context {num : Type} {NUM : Number num}.
Variable W : World num.
Hypothesis down : Offline.offline W.

Lemma local_first (i : Z) (rows : list (Message num)) :
  Forall (fun r => embedding r
                   = Vector (Embedding.simpleEmbedding (content r))) rows ->
  Forall (fun r => embedding r
                   = Vector (Embedding.simpleEmbedding (content r)))
         (Db.mark_first i rows).
Proof.
  induction 1 as [| r rows Hr Hrows IH]; simpl; [constructor |].
  destruct (id r =? i)%Z; constructor; auto.
Qed.

Lemma local_marked (ids : list Z) (st : Store num) :
  Offline.local st -> Offline.local (Db.mark_summarized ids st).
Proof.
  unfold Offline.local. rewrite MarkFacts.mark_summarized_rows.
  cbn [messages]. unfold Spec.mark_rows. generalize (messages st).
  induction ids as [| i ids IH]; intros rows H; simpl; [exact H |].
  apply IH. now apply local_first.
Qed.

Lemma local_saved s (r : Role) (text : jsstring) (m : Machine num) :
  Offline.local (store m) ->
  Offline.local (store (snd (Server.saveMessage W s r text m))).
Proof.
  intros H. rewrite TurnFacts.saveMessage_run.
  unfold Offline.local, Db.update_session, Db.insert_message.
  cbn [snd store messages]. apply Forall_app. split; [exact H |].
  constructor; [| constructor]. cbn [embedding content].
  unfold Run.embedding_of. now rewrite down.
Qed.

Lemma local_received (message s : jsstring) (m : Machine num) :
  Offline.local (store m) ->
  Offline.local (store (Spec.received W message s m)).
Proof.
  intros H. rewrite TurnFacts.received_run. apply local_saved.
  rewrite TurnFacts.ensureSession_run. cbn [snd store].
  unfold Offline.local. now rewrite InvariantFacts.insert_session_keeps.
Qed.

Lemma local_after_pass (s : jsstring) (m : Machine num) :
  Offline.local (store m) -> Offline.local (store (Step.after_pass W s m)).
Proof.
  intros H. unfold Step.after_pass. cbv zeta.
  destruct (Z.of_nat (length (Spec.batch s m)) <? 5)%Z; [exact H |].
  destruct (completion W _ _) as [text | e]; [| exact H].
  cbn [store]. apply local_marked. exact H.
Qed.

Lemma local_after_chat (message s : jsstring) (m : Machine num) :
  Offline.local (store m) ->
  Offline.local (store (Step.after_chat W message s m)).
Proof.
  intros H.
  assert (Hc : Offline.local (store (Step.checked W message s m))).
  { unfold Step.checked. cbv zeta.
    destruct (Server.summary_due _);
      [apply local_after_pass |]; now apply local_received. }
  unfold Step.after_chat. cbv zeta.
  destruct (completion W _ _) as [reply | e]; [| exact Hc].
  apply local_saved. exact Hc.
Qed.

Lemma local_served (requests : list Step.Request) (m : Machine num) :
  Offline.local (store m) ->
  Offline.local (store (Step.serve W requests m)).
Proof.
  unfold Step.serve. revert m.
  induction requests as [| r requests IH]; intros m H; simpl; [exact H |].
  apply IH. destruct r as [message sid | query sid limit];
    unfold Step.handle.
  - rewrite StepFacts.chat_run. now apply local_after_chat.
  - now rewrite StepFacts.search_store.
Qed.

(** A search on local embeddings scores every message of the session,
    from the two texts. *)
Lemma local_scored (query : jsstring) (k : nat) (st : Store num)
      (r : Message num) :
  Offline.local st -> In r (messages st) ->
  Db.score (Run.embedding_of W k query) r
  = Return (mkSearchHit (content r) (role r)
              (Embedding.cosineSimilarity
                 (Embedding.simpleEmbedding query)
                 (Embedding.simpleEmbedding (content r)))).
Proof.
  intros Hloc Hr. unfold Db.score, Run.embedding_of. rewrite down.
  now rewrite (proj1 (Forall_forall _ _) Hloc r Hr).
Qed.

Lemma local_answered (query : jsstring) (sessionId : option jsstring)
      (limit : option Z) (m : Machine num) :
  Offline.local (store m) ->
  exists hits,
    Server.search W query sessionId limit m
    = (Return (SearchOk hits),
       mkMachine (store m) (clock_reads m) (completion_calls m)
                 (S (embedding_calls m)) (console m)) /\
    forall h, In h hits ->
      similarity h
      = Embedding.cosineSimilarity (Embedding.simpleEmbedding query)
          (Embedding.simpleEmbedding (hit_content h)).
Proof.
  intros Hloc. rewrite StepFacts.search_run. unfold Db.rank. cbv zeta.
  set (candidates := filter _ (messages (store m))).
  assert (Hall : Forall
                   (fun r => exists h,
                      Db.score (Run.embedding_of W (embedding_calls m) query)
                               r = Return h)
                   candidates).
  { apply Forall_forall. intros r Hr. apply filter_In in Hr as [Hr _].
    rewrite (@local_scored query (embedding_calls m) (store m) r Hloc Hr). eauto. }
  destruct (@RankFacts.map_all_returned _ _ _ _ Hall) as [results Hres].
  rewrite Hres. eexists. split; [reflexivity |].
  intros h Hh. apply SortFacts.slice0_incl in Hh.
  apply (Permutation_in _ (SortFacts.sort_perm Db.best_first _)) in Hh.
  destruct (@RankFacts.related_source _ _ _ _ _ h
              (@RankFacts.map_returned _ _ _ _ _ Hres) Hh)
    as (r & Hr & Hscore).
  apply filter_In in Hr as [Hr _].
  rewrite (@local_scored query (embedding_calls m) (store m) r Hloc Hr) in Hscore.
  injection Hscore as <-. reflexivity.
Qed.
End Offline.
End OfflineFacts.

(** X16. A server started on empty files whose embeddings endpoint is
    down stores, with every message, the fallback embedding of its
    content, whatever requests it serves. A search is then always
    answered with hits, and scores each hit from the query and the
    hit's text alone: two hits whose texts have the same residues
    modulo 128, up to rearrangement, get the same score, in any
    arithmetic. *)
Theorem offline_scores_come_from_the_text
        {num : Type} {NUM : Number num} (W : World num)
        (requests : list Step.Request) (query : jsstring)
        (sessionId : option jsstring) (limit : option Z) :
  Offline.offline W ->
  let m := Step.serve W requests boot in
  Offline.local (store m) /\
  exists hits,
    fst (Server.search W query sessionId limit m) = Return (SearchOk hits) /\
    console (snd (Server.search W query sessionId limit m)) = console m /\
    (forall h, In h hits ->
       similarity h
       = Embedding.cosineSimilarity (Embedding.simpleEmbedding query)
           (Embedding.simpleEmbedding (hit_content h))) /\
    (forall h h', In h hits -> In h' hits ->
       Permutation (Offline.residues (hit_content h))
                   (Offline.residues (hit_content h')) ->
       similarity h = similarity h').
Proof.
  intros down m.
  assert (Hloc : Offline.local (store m)).
  { apply OfflineFacts.local_served; [exact down | constructor]. }
  split; [exact Hloc |].
  destruct (@OfflineFacts.local_answered num NUM W down query sessionId
              limit m Hloc) as (hits & Hrun & Hscore).
  exists hits. rewrite Hrun. cbn [fst snd console].
  split; [reflexivity |]. split; [reflexivity |]. split; [exact Hscore |].
  intros h h' Hh Hh' Hperm.
  rewrite (Hscore h Hh), (Hscore h' Hh').
  unfold Embedding.simpleEmbedding at 2 4. cbv zeta.
  assert (E : Embedding.histogram (num := num) (hit_content h)
              = Embedding.histogram (hit_content h'))
    by now apply BucketFacts.histogram_permuted.
  now rewrite E.
Qed.

(** X18. How a request to [/api/chat] moves the unsummarized count of
    its session: when the trigger does not fire, or the summarizer
    fails, the count grows by one for the user's message and by one
    more when the reply was obtained; when the trigger fires on a table
    with distinct ids and the summarizer answers, the count restarts at
    0, or at 1 when the reply was obtained. *)
Theorem unsummarized_count_after_a_turn
        {num : Type} {NUM : Number num} (W : World num)
        (message : jsstring) (sessionId : option jsstring)
        (m : Machine num) :
  let s := Step.session_of sessionId in
  let m1 := Spec.received W message s m in
  let run := Server.chat W message sessionId m in
  let replied := match fst run with
                 | Return (ChatOk _ _ _ _) => 1%Z
                 | _ => 0%Z
                 end in
  ((Server.summary_due (Server.getMessageCount s (store m1)) = false \/
    exists e, completion W (completion_calls m1)
                         (Server.summaryMessages (Spec.batch s m1))
              = Failure e) ->
   Server.getMessageCount s (store (snd run))
   = (Server.getMessageCount s (store m) + 1 + replied)%Z) /\
  (forall text,
     Inv.well_numbered (store m) ->
     Server.summary_due (Server.getMessageCount s (store m1)) = true ->
     completion W (completion_calls m1)
                (Server.summaryMessages (Spec.batch s m1)) = Answer text ->
     Server.getMessageCount s (store (snd run)) = replied).
Proof.
  intros s m1 run replied.
  assert (Hturn : Server.getMessageCount s (store (snd run))
                  = (Server.getMessageCount s
                       (store (Step.checked W message s m)) + replied)%Z).
  { unfold replied, run. rewrite StepFacts.chat_run. cbn [fst snd]. fold s.
    unfold Step.reply_of, Step.after_chat. cbv zeta.
    destruct (completion W _ _) as [reply | e]; [| cbn [store]; lia].
    now rewrite TurnFacts.count_after_save. }
  split.
  - intros Hquiet. rewrite Hturn.
    rewrite (@ContextFacts.checked_quiet _ _ W message s m Hquiet).
    rewrite TurnFacts.count_received. reflexivity.
  - intros text Hwn Hdue Hok. rewrite Hturn.
    destruct (@ContextFacts.checked_pass _ _ W message s text m Hwn Hdue Hok)
      as [_ HQ].
    unfold Server.getMessageCount, Db.count_messages.
    unfold Spec.qualifying in HQ. now rewrite HQ.
Qed.

(* ------------------------------------------------------------------ *)
(** ** Cosine similarity of vectors without a direction *)

Module NanFacts.

Ltac float_ops :=
  cbn [js_add js_sub js_mul js_div js_sqrt js_zero js_one js_nan
       js_truthy js_pos Float64] in *.

Lemma falsy_null (x : float) :
  Ieee.falsy x <-> Ieee.null (Prim2SF x) = true.
Proof.
  unfold Ieee.falsy. float_ops. rewrite !FloatAxioms.eqb_spec.
  unfold SFeqb. change (Prim2SF 0) with (S754_zero false).
  destruct (Prim2SF x) as [s | s | | s m e] eqn:E.
  - split; reflexivity.
  - destruct s; simpl; split; discriminate.
  - split; reflexivity.
  - rewrite FloatFacts.compare_finite. destruct s; simpl; split; discriminate.
Qed.

Lemma mul_null_l x y :
  Ieee.null x = true -> Ieee.null (SF64mul x y) = true.
Proof. destruct x, y; simpl; try discriminate; reflexivity. Qed.

Lemma mul_null_r x y :
  Ieee.null y = true -> Ieee.null (SF64mul x y) = true.
Proof. destruct x, y; simpl; try discriminate; reflexivity. Qed.

Lemma add_null x y :
  Ieee.null x = true -> Ieee.null y = true ->
  Ieee.null (SF64add x y) = true.
Proof.
  destruct x as [[] | | |], y as [[] | | |]; simpl;
    try discriminate; reflexivity.
Qed.

Lemma sqrt_null x : Ieee.null x = true -> Ieee.null (SF64sqrt x) = true.
Proof. destruct x; simpl; try discriminate; reflexivity. Qed.

Lemma div_null x y :
  Ieee.null x = true -> Ieee.null y = true -> SF64div x y = S754_nan.
Proof. destruct x, y; simpl; try discriminate; reflexivity. Qed.

Lemma add_nan_r x : SF64add x S754_nan = S754_nan.
Proof. destruct x; reflexivity. Qed.

Lemma mul_nan_r x : SF64mul x S754_nan = S754_nan.
Proof. destruct x; reflexivity. Qed.

(** An entry of a vector of such doubles is one, in range or not. *)
Lemma entry_null (v : list float) (i : nat) :
  Forall Ieee.falsy v -> Ieee.null (Prim2SF (nth i v js_nan)) = true.
Proof.
  intros H. destruct (Nat.lt_ge_cases i (length v)) as [Hi | Hi].
  - apply falsy_null. apply (proj1 (Forall_forall _ _) H). now apply nth_In.
  - rewrite nth_overflow by exact Hi. reflexivity.
Qed.

Lemma fold_null_left (a b : list float) (l : list nat) (d na nb : float) :
  Forall Ieee.falsy a ->
  Ieee.null (Prim2SF d) = true -> Ieee.null (Prim2SF na) = true ->
  let '(d', na', _) := fold_left (Embedding.cosine_step a b) l (d, na, nb) in
  Ieee.null (Prim2SF d') = true /\ Ieee.null (Prim2SF na') = true.
Proof.
  intros Ha. revert d na nb.
  induction l as [| i l IH]; intros d na nb Hd Hna; [now split |].
  cbn [fold_left Embedding.cosine_step]. apply IH; float_ops.
  - rewrite FloatAxioms.add_spec, FloatAxioms.mul_spec.
    apply add_null; [exact Hd |]. apply mul_null_l, entry_null, Ha.
  - rewrite FloatAxioms.add_spec, FloatAxioms.mul_spec.
    apply add_null; [exact Hna |]. apply mul_null_l, entry_null, Ha.
Qed.

Lemma fold_null_right (a b : list float) (l : list nat) (d na nb : float) :
  Forall Ieee.falsy b ->
  Ieee.null (Prim2SF d) = true -> Ieee.null (Prim2SF nb) = true ->
  let '(d', _, nb') := fold_left (Embedding.cosine_step a b) l (d, na, nb) in
  Ieee.null (Prim2SF d') = true /\ Ieee.null (Prim2SF nb') = true.
Proof.
  intros Hb. revert d na nb.
  induction l as [| i l IH]; intros d na nb Hd Hnb; [now split |].
  cbn [fold_left Embedding.cosine_step]. apply IH; float_ops.
  - rewrite FloatAxioms.add_spec, FloatAxioms.mul_spec.
    apply add_null; [exact Hd |]. apply mul_null_r, entry_null, Hb.
  - rewrite FloatAxioms.add_spec, FloatAxioms.mul_spec.
    apply add_null; [exact Hnb |]. apply mul_null_r, entry_null, Hb.
Qed.

Lemma fold_nan_stays (a b : list float) (l : list nat) (d na nb : float) :
  Prim2SF d = S754_nan ->
  Prim2SF (fst (fst (fold_left (Embedding.cosine_step a b) l (d, na, nb))))
  = S754_nan.
Proof.
  revert d na nb. induction l as [| i l IH]; intros d na nb Hd; [exact Hd |].
  cbn [fold_left Embedding.cosine_step]. apply IH. float_ops.
  now rewrite FloatAxioms.add_spec, Hd.
Qed.

Lemma fold_nan_enters (a b : list float) (l : list nat) (i : nat)
      (d na nb : float) :
  In i l -> nth i b js_nan = js_nan ->
  Prim2SF (fst (fst (fold_left (Embedding.cosine_step a b) l (d, na, nb))))
  = S754_nan.
Proof.
  revert d na nb.
  induction l as [| j l IH]; intros d na nb Hin Hi; [destruct Hin |].
  destruct Hin as [-> | Hin].
  - cbn [fold_left Embedding.cosine_step]. apply fold_nan_stays.
    rewrite Hi. float_ops.
    rewrite FloatAxioms.add_spec, FloatAxioms.mul_spec.
    change (Prim2SF nan) with S754_nan.
    now rewrite mul_nan_r, add_nan_r.
  - cbn [fold_left Embedding.cosine_step]. now apply IH.
Qed.

Lemma cosine_null_left (a b : list float) :
  Forall Ieee.falsy a -> Embedding.cosineSimilarity a b = PrimFloat.nan.
Proof.
  intros Ha. unfold Embedding.cosineSimilarity.
  pose proof (@fold_null_left a b (seq 0 (length a)) js_zero js_zero js_zero
                Ha eq_refl eq_refl) as H.
  destruct (fold_left _ _ _) as [[d na] nb]. destruct H as [Hd Hna].
  float_ops. apply Prim2SF_inj.
  rewrite FloatAxioms.div_spec, FloatAxioms.mul_spec, !FloatAxioms.sqrt_spec.
  apply div_null; [exact Hd |]. now apply mul_null_l, sqrt_null.
Qed.

Lemma cosine_null_right (a b : list float) :
  Forall Ieee.falsy b -> Embedding.cosineSimilarity a b = PrimFloat.nan.
Proof.
  intros Hb. unfold Embedding.cosineSimilarity.
  pose proof (@fold_null_right a b (seq 0 (length a)) js_zero js_zero js_zero
                Hb eq_refl eq_refl) as H.
  destruct (fold_left _ _ _) as [[d na] nb]. destruct H as [Hd Hnb].
  float_ops. apply Prim2SF_inj.
  rewrite FloatAxioms.div_spec, FloatAxioms.mul_spec, !FloatAxioms.sqrt_spec.
  apply div_null; [exact Hd |]. now apply mul_null_r, sqrt_null.
Qed.
End NanFacts.

(** X19. In binary64, [cosineSimilarity] is NaN whenever one of its
    vectors has no entry other than 0, -0 and NaN, whatever the other
    vector and the two lengths are (the empty vector included), and
    whenever the second vector is shorter than the first. The fallback
    embedding of the empty text is such a vector: a message without
    text scores NaN against every query. *)
Theorem cosine_without_direction_is_nan (a b : list float) :
  (Forall Ieee.falsy a ->
   Embedding.cosineSimilarity a b = PrimFloat.nan /\
   Embedding.cosineSimilarity b a = PrimFloat.nan) /\
  ((length b < length a)%nat ->
   Embedding.cosineSimilarity a b = PrimFloat.nan) /\
  Embedding.cosineSimilarity a (Embedding.simpleEmbedding []) = PrimFloat.nan
  /\
  Embedding.cosineSimilarity (Embedding.simpleEmbedding []) a = PrimFloat.nan.
Proof.
  assert (Hempty : Forall Ieee.falsy
                     (Embedding.simpleEmbedding (num := float) []))
    by (vm_compute; repeat constructor).
  split; [| split; [| split]].
  - intros Ha. split;
      [now apply NanFacts.cosine_null_left
      | now apply NanFacts.cosine_null_right].
  - intros Hlen. unfold Embedding.cosineSimilarity.
    pose proof (@NanFacts.fold_nan_enters a b (seq 0 (length a)) (length b)
                  js_zero js_zero js_zero) as H.
    destruct (fold_left _ _ _) as [[d na] nb]. cbn [fst] in H.
    NanFacts.float_ops. apply Prim2SF_inj.
    rewrite FloatAxioms.div_spec, H; [reflexivity | |].
    + apply in_seq. lia.
    + now apply nth_overflow.
  - now apply NanFacts.cosine_null_right.
  - now apply NanFacts.cosine_null_left.
Qed.

(* ------------------------------------------------------------------ *)
(** ** The properties at work *)

Lemma restart_shadow_witness :
  (1 <= Server.getMessageCount Scenario.s1
          (store (Step.serve Scenario.world
                    [Step.Chat Scenario.hi (Some Scenario.s1)]
                    (Shadow.restarted (messages Scenario.five) [] []))))%Z.
Proof.
  refine (proj2 (proj2 (proj2 (proj2
            (@restart_shadows_new_messages float _ Scenario.world
               (messages Scenario.five) [] [] Scenario.hi
               (Some Scenario.s1) [] _))))).
  simpl. auto.
Defined.

Lemma pass_consumes_witness :
  messages (store (snd (Server.generateSummary Scenario.world Scenario.s1
                          Scenario.tenth)))
  = map (Inv.consume Scenario.s1) (messages (store Scenario.tenth)).
Proof.
  refine (proj1 (@pass_consumes_exactly_the_batch float _ Scenario.world
                   Scenario.s1 (JsString.lit "ok") Scenario.tenth _ _ _)).
  - vm_compute.
    repeat (constructor; [simpl; intuition discriminate |]). constructor.
  - vm_compute. lia.
  - reflexivity.
Defined.

Lemma sessions_isolated_witness :
  Server.buildContext (JsString.lit "s2")
    (store (snd (Server.chat Scenario.world Scenario.hi (Some Scenario.s1)
                   Scenario.nine)))
  = Server.buildContext (JsString.lit "s2") (store Scenario.nine).
Proof.
  refine (proj1 (proj2 (proj2 (proj2 (proj2
            (@sessions_are_isolated float _ Scenario.world Scenario.hi
               (Some Scenario.s1) Scenario.nine (JsString.lit "s2")
               _ _)))))).
  - split.
    + vm_compute.
      repeat (constructor; [simpl; intuition discriminate |]). constructor.
    + vm_compute. repeat constructor.
  - vm_compute. discriminate.
Defined.

Lemma sessions_created_once_witness :
  Inv.keyed (store (snd (Server.chat Scenario.world Scenario.hi
                           (Some Scenario.s1) Scenario.nine))).
Proof.
  refine (proj1 (proj2 (@sessions_are_created_once float _ Scenario.world
                          Scenario.hi (Some Scenario.s1) Scenario.nine)) _).
  unfold Inv.keyed. simpl. constructor; [intros [] | constructor].
Defined.

Lemma ids_distinct_witness :
  Inv.well_numbered
    (store (Step.handle Scenario.world
              (Step.Chat Scenario.hi (Some Scenario.s1)) Scenario.nine)).
Proof.
  refine (proj1 (@ids_stay_distinct float _ Scenario.world)
            (Step.Chat Scenario.hi (Some Scenario.s1)) Scenario.nine _).
  split.
  - vm_compute.
    repeat (constructor; [simpl; intuition discriminate |]). constructor.
  - vm_compute. repeat constructor.
Defined.

Lemma summaries_grow_witness :
  exists added,
    memories (store (snd (Server.chat Scenario.world Scenario.hi
                            (Some Scenario.s1) Scenario.nine)))
    = memories (store Scenario.nine) ++ added /\
    (length added <= 1)%nat.
Proof.
  destruct (proj1 (@summaries_only_grow float _ Scenario.world Scenario.nine)
              Scenario.hi (Some Scenario.s1)) as (added & H1 & H2 & _).
  exists added. split; [exact H1 | exact H2].
Defined.

Lemma offline_scores_witness :
  Offline.local
    (store (Step.serve Scenario.world
              [Step.Chat Scenario.hi (Some Scenario.s1)] boot)).
Proof.
  refine (proj1 (@offline_scores_come_from_the_text float _
                   Scenario.world
                   [Step.Chat Scenario.hi (Some Scenario.s1)]
                   Scenario.hi None None _)).
  intros k text. reflexivity.
Defined.

Lemma count_after_turn_witness :
  Server.getMessageCount Scenario.s1
    (store (snd (Server.chat Scenario.world Scenario.hi (Some Scenario.s1)
                   Scenario.nine))) = 1%Z.
Proof.
  refine (proj2 (@unsummarized_count_after_a_turn float _ Scenario.world
                   Scenario.hi (Some Scenario.s1) Scenario.nine)
            (JsString.lit "ok") _ _ _).
  - split.
    + vm_compute.
      repeat (constructor; [simpl; intuition discriminate |]). constructor.
    + vm_compute. repeat constructor.
  - vm_compute. reflexivity.
  - reflexivity.
Defined.

Lemma cosine_nan_witness :
  Embedding.cosineSimilarity [0; 0]%float [1; 2]%float = PrimFloat.nan /\
  Embedding.cosineSimilarity [1; 2]%float [0; 0]%float = PrimFloat.nan.
Proof.
  refine (proj1 (cosine_without_direction_is_nan [0; 0]%float [1; 2]%float)
            _).
  repeat constructor.
Defined.

Lemma search_error_witness :
  fst (Server.search Scenario.world Scenario.hi (Some Scenario.s1) None
         Scenario.after_vectorless)
  = Return (SearchError float (Embedding.no_entry (@Undefined float))) /\
  console (snd (Server.search Scenario.world Scenario.hi (Some Scenario.s1)
                  None Scenario.after_vectorless))
  = console Scenario.after_vectorless
    ++ [SearchFailed (Embedding.no_entry (@Undefined float))].
Proof.
  refine (proj2 (proj2 (proj2
            (@search_is_read_only float _ Scenario.world Scenario.hi
               (Some Scenario.s1) None Scenario.after_vectorless)))
            [] (mkMessage 1 Scenario.s1 user Scenario.hi 1 1 0 Undefined)
            [mkMessage 2 Scenario.s1 assistant (JsString.lit "ok") 1 2 0
                       Undefined]
            (Embedding.no_entry (@Undefined float)) _ _ _).
  - reflexivity.
  - constructor.
  - reflexivity.
Defined.
